(** * Ultra Doc-Intelligence: chunking, evidence pool, guardrails, extraction

    A shallow embedding of the retrieval-augmented answering pipeline of
    the repository (src/lib/chunking.ts, src/lib/rag/workflow.ts,
    src/lib/extraction/shipment.ts, src/lib/services/doc-intelligence.ts,
    src/lib/storage/registry.ts, src/lib/vector/pinecone-hybrid.ts,
    src/lib/parsing/llama-parse.ts) and the properties of it that the
    specification states, followed by further properties of the code.

    Conventions of the embedding.
    - A JavaScript [number] is a rational ([Q]): arithmetic is exact, there
      is no NaN and no infinity.  Results are compared with [==] ([Qeq]).
      The module [Binary64] repeats the arithmetic on binary64 numbers, to
      evaluate it at the sample points of the specification.  Rounding to
      four decimals is where the two part: at a decimal tie the rational
      goes up while the binary64 number nearest to it may lie below the
      tie and go down.  What is stated of the value of a rounded number
      is therefore stated on [Binary64Code], the two confidence
      computations on binary64 numbers; what is stated on rationals
      relates quantities of the program in a way that holds of either
      arithmetic.
    - The index of the state holds the writes that the store has
      acknowledged.  The store is eventually consistent, and no property
      rests on a lookup being shown a record written earlier in the same
      run.
    - A JavaScript string is a [string]: one [ascii] per code unit, so the
      embedding covers strings whose code units are below 256.
    - [await]ed calls to the outside (embedding provider, vector store,
      language model) are calls of a small error-and-log monad over the
      state of the vector store. *)

From Stdlib Require Import List Bool Arith ZArith QArith Qround Qminmax Qabs Lia Lqa Floats Uint63.
From Stdlib Require Import Ascii String DecimalString.
From Stdlib Require Import Permutation Sorted.
Import ListNotations.

Local Open Scope string_scope.
Local Open Scope Z_scope.

(** ** JavaScript strings *)

Module JsString.

(** White space of [String.prototype.trim] and of the regular expression
    class [\s], restricted to code units below 256: TAB, LF, VT, FF, CR,
    SPACE and NBSP. *)
Definition isWhiteSpace (c : ascii) : bool :=
  let n := nat_of_ascii c in
  ((9 <=? n)%nat && (n <=? 13)%nat) || (n =? 32)%nat || (n =? 160)%nat.

Fixpoint trimStart (s : string) : string :=
  match s with
  | EmptyString => EmptyString
  | String c r => if isWhiteSpace c then trimStart r else s
  end.

(** [trimEnd] drops the white space that ends the string: a character is
    kept when it is not white space or when something is kept after it. *)
Fixpoint trimEnd (s : string) : string :=
  match s with
  | EmptyString => EmptyString
  | String c r =>
      match trimEnd r with
      | EmptyString => if isWhiteSpace c then EmptyString else String c EmptyString
      | r' => String c r'
      end
  end.

Definition trim (s : string) : string := trimEnd (trimStart s).

Definition len (s : string) : Z := Z.of_nat (String.length s).

(** Relative index of [Array.prototype.slice] and
    [String.prototype.slice]: a negative index counts from the end, and
    the result is clamped to [0, len]. *)
Definition relIndex (size i : Z) : Z :=
  if i <? 0 then Z.max 0 (size + i) else Z.min i size.

(** [s.slice(from, to)] *)
Definition slice (s : string) (from to : Z) : string :=
  let a := relIndex (len s) from in
  let b := relIndex (len s) to in
  substring (Z.to_nat a) (Z.to_nat (Z.max 0 (b - a))) s.

(** [s.slice(from)] *)
Definition sliceFrom (s : string) (from : Z) : string :=
  slice s from (len s).

End JsString.

(** ** src/lib/types.ts *)

Record DocumentMetadata := {
  document_id : string;
  tenant_id : string;
  document_title : string;
  source_file_name : string;
  uploaded_at : string;
  page_number : Z;
  chunk_number : Z;
  chunk_text : string
}.

Record ChunkRecord := {
  chunk_id : string;
  chunk_body : string;
  chunk_metadata : DocumentMetadata
}.

Record PageText := { pageNumber : Z; text : string }.

(** ** src/lib/chunking.ts *)

Module Chunking.
Import JsString.

Definition DEFAULT_TARGET_CHARS : Z := 1200.
Definition DEFAULT_OVERLAP_CHARS : Z := 180.

Definition LF : ascii := ascii_of_nat 10.
Definition CR : ascii := ascii_of_nat 13.
Definition SP : ascii := ascii_of_nat 32.

(** The paragraph separator ["\n\n"]. *)
Definition sep : string := String LF (String LF EmptyString).

(** [input.replace(/\r\n/g, "\n")] *)
Fixpoint replaceCRLF (s : string) : string :=
  match s with
  | EmptyString => EmptyString
  | String c r =>
      match r with
      | String d _ =>
          if (Ascii.eqb c CR && Ascii.eqb d LF)%bool then replaceCRLF r
          else String c (replaceCRLF r)
      | EmptyString => String c EmptyString
      end
  end.

(** [s.split(/\n{2,}/)]: [cur] is the piece read so far, [nl] the number
    of line feeds just read and not yet attributed.  A run of two or more
    line feeds ends the piece; a single one belongs to it. *)
Fixpoint splitBlankLines (s : string) (cur : string) (nl : nat) : list string :=
  match s with
  | EmptyString =>
      match nl with
      | O => [cur]
      | S O => [cur ++ String LF EmptyString]
      | _ => [cur; EmptyString]
      end
  | String c r =>
      if Ascii.eqb c LF then splitBlankLines r cur (S nl)
      else
        match nl with
        | O => splitBlankLines r (cur ++ String c EmptyString) O
        | S O => splitBlankLines r (cur ++ String LF (String c EmptyString)) O
        | _ => cur :: splitBlankLines r (String c EmptyString) O
        end
  end.

(** [part.replace(/\s+/g, " ")]: [ws] tells that the previous character
    belonged to a run of white space, already replaced. *)
Fixpoint collapseWhiteSpace (s : string) (ws : bool) : string :=
  match s with
  | EmptyString => EmptyString
  | String c r =>
      if isWhiteSpace c
      then (if ws then collapseWhiteSpace r true else String SP (collapseWhiteSpace r true))
      else String c (collapseWhiteSpace r false)
  end.

Definition nonEmpty (s : string) : bool := 0 <? len s.

Definition splitIntoParagraphs (input : string) : list string :=
  let normalized := trim (replaceCRLF input) in
  if negb (nonEmpty normalized) then []
  else
    filter nonEmpty
      (map (fun part => trim (collapseWhiteSpace part false))
           (splitBlankLines normalized EmptyString O)).

(** State of the loop of [buildOverlappingChunks]: the chunks pushed so
    far and the buffer [current]. *)
Definition ChunkState : Type := (list string * string)%type.

(** One iteration of [for (const paragraph of paragraphs)].
    [current.length > targetChars * 1.5] is written on integers as
    [3 * targetChars < 2 * current.length]. *)
Definition chunkStep (targetChars overlapChars : Z) (st : ChunkState) (paragraph : string)
  : ChunkState :=
  let '(chunks, current) := st in
  if len current =? 0 then (chunks, paragraph)
  else
    let candidate := current ++ sep ++ paragraph in
    if len candidate <=? targetChars then (chunks, candidate)
    else
      let chunks1 := (chunks ++ [current])%list in
      let overlapText := trim (sliceFrom current (Z.max 0 (len current - overlapChars))) in
      let current1 := if nonEmpty overlapText then overlapText ++ sep ++ paragraph else paragraph in
      if 3 * targetChars <? 2 * len current1
      then ((chunks1 ++ [slice current1 0 targetChars])%list,
            trim (sliceFrom current1 (targetChars - overlapChars)))
      else (chunks1, current1).

Definition buildOverlappingChunks (paragraphs : list string) (targetChars overlapChars : Z)
  : list string :=
  match paragraphs with
  | [] => []
  | _ =>
      let '(chunks, current) :=
        fold_left (chunkStep targetChars overlapChars) paragraphs ([], EmptyString) in
      if 0 <? len current then (chunks ++ [current])%list else chunks
  end.

Record ChunkParams := {
  documentId : string;
  tenantId : string;
  fileName : string;
  uploadedAt : string;
  pageTexts : list PageText;
  targetChars : option Z;
  overlapChars : option Z
}.

(** Template literal conversion of an integer. *)
Definition showZ (z : Z) : string := NilZero.string_of_int (Z.to_int z).

(** [pageChunks.forEach((chunkText, pageIndex) => ...)]: returns the
    records of the page and the next value of [globalChunkNumber]. *)
Fixpoint pageRecords (p : ChunkParams) (page : PageText) (pageChunks : list string)
    (pageIndex globalChunkNumber : Z) : list ChunkRecord * Z :=
  match pageChunks with
  | [] => ([], globalChunkNumber)
  | chunkText :: rest =>
      let chunkId :=
        documentId p ++ "#p" ++ showZ (pageNumber page) ++ "c" ++ showZ (pageIndex + 1) in
      let record := {|
        chunk_id := chunkId;
        chunk_body := chunkText;
        chunk_metadata := {|
          document_id := documentId p;
          tenant_id := tenantId p;
          document_title := fileName p;
          source_file_name := fileName p;
          uploaded_at := uploadedAt p;
          page_number := pageNumber page;
          chunk_number := globalChunkNumber;
          chunk_text := chunkText |} |} in
      let '(records, next) := pageRecords p page rest (pageIndex + 1) (globalChunkNumber + 1) in
      (record :: records, next)
  end.

Fixpoint pagesLoop (p : ChunkParams) (target overlap : Z) (pages : list PageText)
    (globalChunkNumber : Z) : list ChunkRecord :=
  match pages with
  | [] => []
  | page :: rest =>
      let paragraphs := splitIntoParagraphs (text page) in
      let pageChunks := buildOverlappingChunks paragraphs target overlap in
      let '(records, next) := pageRecords p page pageChunks 0 globalChunkNumber in
      (records ++ pagesLoop p target overlap rest next)%list
  end.

Definition createChunksFromPages (p : ChunkParams) : list ChunkRecord :=
  let target := match targetChars p with Some t => t | None => DEFAULT_TARGET_CHARS end in
  let overlap := match overlapChars p with Some o => o | None => DEFAULT_OVERLAP_CHARS end in
  pagesLoop p target overlap (pageTexts p) 1.

End Chunking.

(** ** JavaScript numbers *)

Module JsNumber.
Local Open Scope Q_scope.

(** [a < b] on numbers. *)
Definition ltb (a b : Q) : bool := negb (Qle_bool b a).

(** [Math.round]: the nearest integer, a tie going up. *)
Definition Math_round (x : Q) : Z := Qfloor (x + (1 # 2)).

(** [clamp] of workflow.ts and pinecone-hybrid.ts:
    [Math.max(min, Math.min(max, value))]. *)
Definition clamp (value min max : Q) : Q := Qmax min (Qmin max value).

(** [roundTo] of workflow.ts, shipment.ts and pinecone-hybrid.ts; every
    caller keeps the default [decimals = 4]. *)
Definition roundTo (value : Q) (decimals : Z) : Q :=
  let factor := 10 ^ decimals in
  inject_Z (Math_round (value * factor)) / factor.

End JsNumber.

(** The same arithmetic on IEEE 754 binary64 numbers, which is what a
    JavaScript engine computes with; used to evaluate the formulas of
    the specification at its sample points. *)

Module Binary64.
#[local] Set Warnings "-inexact-float".
Local Open Scope float_scope.

Definition two52 : float := 4503599627370496.

(** [Math.floor]: a number of magnitude [2^52] or more is an integer;
    below, adding and removing [2^52] rounds to an integer. *)
Definition Math_floor (x : float) : float :=
  if PrimFloat.leb two52 (PrimFloat.abs x) then x
  else
    let t := if PrimFloat.ltb x 0 then (x - two52) + two52 else (x + two52) - two52 in
    if PrimFloat.ltb x t then t - 1 else t.

Definition Math_round (x : float) : float :=
  let f := Math_floor x in
  if PrimFloat.leb 0.5 (x - f) then f + 1 else f.

(** [Math.max] and [Math.min] of two numbers: NaN when one of them is
    NaN, and [+0] counts as larger than [-0]. *)
Definition Math_max (a b : float) : float :=
  if (PrimFloat.is_nan a || PrimFloat.is_nan b)%bool then PrimFloat.nan
  else if PrimFloat.ltb a b then b
  else if PrimFloat.ltb b a then a
  else if PrimFloat.get_sign a then b else a.

Definition Math_min (a b : float) : float :=
  if (PrimFloat.is_nan a || PrimFloat.is_nan b)%bool then PrimFloat.nan
  else if PrimFloat.ltb b a then b
  else if PrimFloat.ltb a b then a
  else if PrimFloat.get_sign a then a else b.

Definition clamp (value min max : float) : float := Math_max min (Math_min max value).

Definition roundTo (value : float) : float := Math_round (value * 10000) / 10000.

(** The arithmetic of [calculateConfidence], from the two top scores
    and the two counts of citations. *)
Definition confidence (topScore secondScore validCitations claimed : float) : float :=
  let retrievalSignal := clamp (topScore / 2.5) 0 1 in
  let agreementSignal :=
    if PrimFloat.ltb 0 topScore then clamp (secondScore / topScore) 0 1 else 0 in
  let citationSignal :=
    if PrimFloat.ltb 0 claimed then clamp (validCitations / claimed) 0 1 else 0 in
  roundTo (0.6 * retrievalSignal + 0.25 * agreementSignal + 0.15 * citationSignal).

(** The arithmetic of [computeExtractionConfidence]. *)
Definition extractionConfidence (modelConfidence present fields : float) : float :=
  let completeness := present / fields in
  roundTo (0.65 * modelConfidence + 0.35 * completeness).

End Binary64.

Record SourceSnippet := {
  id : string;
  score : Q;
  snippet_text : string;
  metadata : DocumentMetadata
}.

Inductive Guardrail := ok | caution | not_found.

Record AskResponse := {
  ask_document_id : string;
  ask_document_ids : list string;
  answer : string;
  confidence : Q;
  guardrail : Guardrail;
  rewritten_query : string;
  sources : list SourceSnippet
}.

(** ** src/lib/rag/workflow.ts: the evidence pool and the confidence *)

Module Pool.
Import JsNumber.
Local Open Scope Q_scope.

Definition TOP_K_PER_TOOL_CALL : Z := 6.
Definition MAX_SOURCES_IN_STATE : nat := 16.

(** A [Map<string, SourceSnippet>]: its entries in insertion order.
    [set] on a key that is present keeps the position of the entry. *)
Definition JsMap : Type := list (string * SourceSnippet).

Fixpoint mapGet (m : JsMap) (k : string) : option SourceSnippet :=
  match m with
  | [] => None
  | (k', v) :: r => if String.eqb k' k then Some v else mapGet r k
  end.

Fixpoint mapSet (m : JsMap) (k : string) (v : SourceSnippet) : JsMap :=
  match m with
  | [] => [(k, v)]
  | (k', v') :: r => if String.eqb k' k then (k, v) :: r else (k', v') :: mapSet r k v
  end.

Definition mapValues (m : JsMap) : list SourceSnippet := map snd m.

(** Body of the loop [for (const source of [...existing, ...incoming])]. *)
Definition mergeStep (byId : JsMap) (source : SourceSnippet) : JsMap :=
  match mapGet byId (id source) with
  | None => mapSet byId (id source) source
  | Some current =>
      if ltb (score current) (score source) then mapSet byId (id source) source else byId
  end.

(** The comparator [(a, b) => b.score - a.score]. *)
Definition byScoreDesc (a b : SourceSnippet) : Q := score b - score a.

(** [Array.prototype.sort(compareFn)] is a stable sort: [x], which stood
    before the elements of the sorted list [l], goes behind those that
    compare strictly smaller than it and before all others. *)
Fixpoint sortInsert (compareFn : SourceSnippet -> SourceSnippet -> Q)
    (x : SourceSnippet) (l : list SourceSnippet) : list SourceSnippet :=
  match l with
  | [] => [x]
  | y :: r => if ltb 0 (compareFn x y) then y :: sortInsert compareFn x r else x :: l
  end.

Definition sort (compareFn : SourceSnippet -> SourceSnippet -> Q)
    (l : list SourceSnippet) : list SourceSnippet :=
  fold_right (sortInsert compareFn) [] l.

Definition mergeSources (existing incoming : list SourceSnippet) (limit : nat)
  : list SourceSnippet :=
  let byId := fold_left mergeStep (existing ++ incoming)%list [] in
  firstn limit (sort byScoreDesc (mapValues byId)).

(** The evidence pool [gatheredSources] after the tool
    [retrieve_document_chunks] has run once for each element of
    [batches], the results of the successive calls of [queryHybrid]. *)
Definition gather (batches : list (list SourceSnippet)) : list SourceSnippet :=
  fold_left (fun gatheredSources sources =>
               mergeSources gatheredSources sources MAX_SOURCES_IN_STATE)
            batches [].

(** The local constants of [calculateConfidence]. *)
Definition topScore (sources : list SourceSnippet) : Q :=
  match nth_error sources 0 with Some s => score s | None => 0 end.

Definition secondScore (sources : list SourceSnippet) : Q :=
  match nth_error sources 1 with Some s => score s | None => topScore sources end.

Definition retrievalSignal (sources : list SourceSnippet) : Q :=
  clamp (topScore sources / 2.5) 0 1.

Definition agreementSignal (sources : list SourceSnippet) : Q :=
  if ltb 0 (topScore sources)
  then clamp (secondScore sources / topScore sources) 0 1
  else 0.

Definition sourceIds (sources : list SourceSnippet) : list string := map id sources.

Definition setHas (s : list string) (x : string) : bool := existsb (String.eqb x) s.

Definition validCitations (sources : list SourceSnippet) (citedChunkIds : list string) : nat :=
  List.length (filter (setHas (sourceIds sources)) citedChunkIds).

Definition ofNat (n : nat) : Q := inject_Z (Z.of_nat n).

Definition citationSignal (sources : list SourceSnippet) (citedChunkIds : list string) : Q :=
  if (0 <? List.length citedChunkIds)%nat
  then clamp (ofNat (validCitations sources citedChunkIds) / ofNat (List.length citedChunkIds)) 0 1
  else 0.

Definition calculateConfidence (sources : list SourceSnippet) (citedChunkIds : list string) : Q :=
  roundTo (0.6 * retrievalSignal sources
           + 0.25 * agreementSignal sources
           + 0.15 * citationSignal sources citedChunkIds) 4.

End Pool.

(** ** The outside world: environment, vector store, providers *)

Module Effects.

(** src/lib/env.ts, the fields the embedded code reads.  A key that is
    not set is [None]. *)
Record Env := {
  openAiApiKey : option string;
  pineconeApiKey : option string;
  pineconeIndexName : option string;
  pineconeNamespace : string;
  hybridAlpha : Q;
  guardrailMinTopScore : Q;
  guardrailLowConfidence : Q;
  guardrailCautionConfidence : Q
}.

(** What a function throws: a [DocIntelligenceError] with its HTTP
    status, or any other [Error] (a provider that fails, a missing
    environment variable). *)
Inductive Exception :=
| DocIntelligenceError (message : string) (status : Z)
| UpstreamError (message : string).

Definition Vector : Type := list Q.

Record SparseVector := { indices : list Z; values : list Q }.

Inductive InputType := query_input | passage_input.

(** [RegistryMetadata] of src/lib/storage/registry.ts *)
Record RegistryMetadata := {
  record_type : string;
  reg_document_id : string;
  reg_file_name : string;
  reg_uploaded_at : string;
  reg_namespace : string;
  reg_tenant_id : string;
  reg_chunk_count : Z
}.

Inductive Metadata :=
| ChunkMeta (m : DocumentMetadata)
| RegistryMeta (m : RegistryMetadata).

(** A record of the vector store.  [dense] and [sparse] are [None] when
    the provider returned fewer embeddings than texts. *)
Record VectorRecord := {
  record_id : string;
  dense : option Vector;
  sparse : option SparseVector;
  record_metadata : Metadata
}.

(** The acknowledged content of the index: records with their
    namespace, oldest first. *)
Definition Index : Type := list (string * VectorRecord).

(** A match of [index.query]; [match_id] is [""] when the id is absent. *)
Record ScoredMatch := {
  match_id : string;
  match_score : option Q;
  match_metadata : option DocumentMetadata
}.

Inductive QueryFilter :=
| NoFilter
| DocumentIdIn (ids : list string)
| DocumentIdEq (id : string).

Record AgentAnswer := {
  agent_answer : string;
  grounded : bool;
  agent_not_found : bool;
  cited_chunk_ids : list string
}.

(** One block of the context that the retrieval tool hands to the
    model: chunk id, score, page and the text cut at 900 characters. *)
Record ContextEntry := {
  ctx_chunk_id : string;
  ctx_score : Q;
  ctx_page : Z;
  ctx_text : string
}.

Inductive ToolReply :=
| NoPassages
| Passages (blocks : list ContextEntry).

(** The controller built by [createAgent]: it calls the tool
    [retrieve_document_chunks] any number of times, reading each reply,
    and ends with its structured response (or none). *)
Inductive Agent :=
| CallTool (query : string) (next : ToolReply -> Agent)
| Respond (structuredResponse : option AgentAnswer).

(** The raw answer of the extraction model for one field. *)
Inductive JsValue :=
| JsUndefined
| JsNull
| JsBoolean (b : bool)
| JsNumber (n : Q)
| JsString (s : string).

Record ExtractionOutput := {
  out_shipment_id : JsValue;
  out_shipper : JsValue;
  out_consignee : JsValue;
  out_pickup_datetime : JsValue;
  out_delivery_datetime : JsValue;
  out_equipment_type : JsValue;
  out_mode : JsValue;
  out_rate : JsValue;
  out_currency : JsValue;
  out_weight : JsValue;
  out_carrier_name : JsValue;
  self_assessed_confidence : Q
}.

Record ParsedDocumentPayload := {
  parsed_documentId : string;
  parsed_tenantId : string;
  parsed_fileName : string;
  parsed_uploadedAt : string;
  textFull : string;
  markdownFull : string;
  parsed_pageTexts : list PageText
}.

Record File := { file_name : string; file_text : string }.

(** The calls that leave the process, with the type of their result. *)
Inductive Ext : Type -> Type :=
| RandomUUID : Ext string
| DateNow : Ext Z
| DateToISOString : Ext string
| LlamaParse (file : File) (documentId tenantId fileName uploadedAt : string)
    : Ext ParsedDocumentPayload
| EmbedDense (texts : list string) : Ext (list Vector)
| EmbedSparse (texts : list string) (inputType : InputType) : Ext (list SparseVector)
| IndexUpsert (namespace : string) (records : list VectorRecord) : Ext unit
| IndexFetch (namespace : string) (ids : list string) : Ext unit
| IndexQuery (namespace : string) (vector : Vector) (sparseVector : SparseVector)
    (topK : Z) (filter : QueryFilter) : Ext (list ScoredMatch)
| LatestDocumentId : Ext (option string)
| Sleep (ms : Z) : Ext unit
| ChatRewrite (question : string) : Ext string
| AgentInvoke (content : string) : Ext Agent
| ChatExtract (fileName documentText : string) : Ext ExtractionOutput.

Inductive Call : Type := MkCall : forall X : Type, Ext X -> Call.

(** An event of the trace: the call and the index as it is afterwards. *)
Record Event := { call : Call; after : Index }.

Record World := { index : Index; trace : list Event }.

(** The outside answers a call with a value or an exception; the answer
    may depend on everything that happened before. *)
Definition Oracle : Type := forall X, list Event -> Ext X -> Exception + X.

Definition M (A : Type) : Type := Env -> Oracle -> World -> World * (Exception + A).

Definition ret {A} (a : A) : M A := fun _ _ w => (w, inr a).

Definition throw {A} (e : Exception) : M A := fun _ _ w => (w, inl e).

Definition bind {A B} (m : M A) (k : A -> M B) : M B :=
  fun env o w =>
    match m env o w with
    | (w', inl e) => (w', inl e)
    | (w', inr a) => k a env o w'
    end.

(** [try { m } catch { h }] *)
Definition tryCatch {A} (m : M A) (h : M A) : M A :=
  fun env o w =>
    match m env o w with
    | (w', inl _) => h env o w'
    | r => r
    end.

Definition getEnv : M Env := fun env _ w => (w, inr env).

Definition record (w : World) {X} (c : Ext X) (i : Index) : World :=
  {| index := i; trace := (trace w ++ [{| call := MkCall X c; after := i |}])%list |}.

(** A call that does not write to the index. *)
Definition extCall {X} (c : Ext X) : M X :=
  fun _ o w => (record w c (index w), o X (trace w) c).

End Effects.

Declare Scope m_scope.
Delimit Scope m_scope with M.
Notation "x <- m ;; k" := (Effects.bind m (fun x => k))
  (at level 61, m at next level, right associativity) : m_scope.
Notation "m ;;; k" := (Effects.bind m (fun _ => k))
  (at level 61, right associativity) : m_scope.

(** ** src/lib/vector/pinecone-hybrid.ts *)

Module Hybrid.
Import Effects JsNumber.
Local Open Scope M.

Definition EMBED_BATCH_SIZE : nat := 50.

Definition missingValue (v : option string) : bool :=
  match v with
  | None => true
  | Some s => String.eqb s ""
  end.

(** [requireEnv(...keys)] of src/lib/env.ts; a key is its name and its
    accessor. *)
Definition requireEnv (keys : list (string * (Env -> option string))) : M unit :=
  env <- getEnv ;;
  let missing := filter (fun key => missingValue (snd key env)) keys in
  if (0 <? List.length missing)%nat
  then throw (UpstreamError ("Missing required environment variables: "
                             ++ String.concat ", " (map fst missing)))
  else ret tt.

Definition getIndex : M unit :=
  requireEnv [("pineconeApiKey", pineconeApiKey); ("pineconeIndexName", pineconeIndexName)].

Definition embedDenseBatch (texts : list string) : M (list Vector) :=
  requireEnv [("openAiApiKey", openAiApiKey)] ;;;
  extCall (EmbedDense texts).

Definition embedSparseBatch (texts : list string) (inputType : InputType)
  : M (list SparseVector) :=
  requireEnv [("pineconeApiKey", pineconeApiKey)] ;;;
  extCall (EmbedSparse texts inputType).

(** [items.slice(i, i + size)] on arrays, for indexes in range. *)
Definition sliceList {T} (items : list T) (i j : nat) : list T :=
  firstn (j - i) (skipn i items).

(** The loop of [batch]: [for (let i = 0; i < items.length; i += size)].
    With [size >= 1] it ends within [items.length] rounds, the fuel that
    [batch] gives it. *)
Fixpoint batchLoop {TInput TOutput} (fuel : nat) (items : list TInput) (size i : nat)
    (fn : list TInput -> M (list TOutput)) (output : list TOutput) : M (list TOutput) :=
  match fuel with
  | O => ret output
  | S fuel' =>
      if (i <? List.length items)%nat
      then
        result <- fn (sliceList items i (i + size)) ;;
        batchLoop fuel' items size (i + size) fn (output ++ result)%list
      else ret output
  end.

Definition batch {TInput TOutput} (items : list TInput) (size : nat)
    (fn : list TInput -> M (list TOutput)) : M (list TOutput) :=
  batchLoop (List.length items) items size 0 fn [].

Definition sameSlot (namespace id : string) (entry : string * VectorRecord) : bool :=
  (String.eqb (fst entry) namespace && String.eqb (record_id (snd entry)) id)%bool.

(** The store after the upsert of one record: the record of the same
    namespace and id is replaced, otherwise the record is added. *)
Fixpoint putRecord (i : Index) (namespace : string) (r : VectorRecord) : Index :=
  match i with
  | [] => [(namespace, r)]
  | entry :: rest =>
      if sameSlot namespace (record_id r) entry then (namespace, r) :: rest
      else entry :: putRecord rest namespace r
  end.

Definition putRecords (i : Index) (namespace : string) (records : list VectorRecord) : Index :=
  fold_left (fun acc r => putRecord acc namespace r) records i.

(** [index.upsert({ namespace, records })]: when the store acknowledges
    the write, all the records are in the index; when it fails, the
    index is as before. *)
Definition indexUpsert (namespace : string) (records : list VectorRecord) : M unit :=
  fun _ o w =>
    let c := IndexUpsert namespace records in
    match o unit (trace w) c with
    | inr u => (record w c (putRecords (index w) namespace records), inr u)
    | inl e => (record w c (index w), inl e)
    end.

(** [index.fetch({ namespace, ids })]: the records of the namespace
    whose id is asked for, read from the acknowledged writes.  The store
    may lag behind what it has acknowledged; what is proved of lookups
    is about records that were there before the run. *)
Definition indexFetch (namespace : string) (ids : list string) : M (list VectorRecord) :=
  fun _ o w =>
    let c := IndexFetch namespace ids in
    match o unit (trace w) c with
    | inr _ =>
        (record w c (index w),
         inr (map snd (filter (fun entry =>
                 (String.eqb (fst entry) namespace
                  && existsb (String.eqb (record_id (snd entry))) ids)%bool) (index w))))
    | inl e => (record w c (index w), inl e)
    end.

Definition upsertHybridChunks (chunks : list ChunkRecord) (namespace : string) : M unit :=
  if (List.length chunks =? 0)%nat then ret tt
  else
    getIndex ;;;
    let chunkTexts := map chunk_body chunks in
    denseEmbeddings <- batch chunkTexts EMBED_BATCH_SIZE embedDenseBatch ;;
    sparseEmbeddings <- batch chunkTexts EMBED_BATCH_SIZE
                          (fun batchItems => embedSparseBatch batchItems passage_input) ;;
    let records :=
      map (fun '(idx, chunk) =>
             {| record_id := chunk_id chunk;
                dense := nth_error denseEmbeddings idx;
                sparse := nth_error sparseEmbeddings idx;
                record_metadata := ChunkMeta (chunk_metadata chunk) |})
          (combine (seq 0 (List.length chunks)) chunks) in
    indexUpsert namespace records ;;;
    extCall (Sleep 1200).

Record QueryParams := {
  query : string;
  namespace : string;
  documentId : option string;
  documentIds : option (list string);
  topK : option Z;
  alpha : option Q
}.

Definition toSnippet (m : ScoredMatch) : option SourceSnippet :=
  match match_metadata m with
  | Some metadata =>
      if String.eqb (match_id m) "" then None
      else Some {| id := match_id m;
                   score := roundTo (match m.(match_score) with Some s => s | None => 0%Q end) 4;
                   snippet_text := chunk_text metadata;
                   metadata := metadata |}
  | None => None
  end.

Fixpoint filterMap {A B} (f : A -> option B) (l : list A) : list B :=
  match l with
  | [] => []
  | a :: r => match f a with Some b => b :: filterMap f r | None => filterMap f r end
  end.

Definition queryHybrid (params : QueryParams) : M (list SourceSnippet) :=
  getIndex ;;;
  env <- getEnv ;;
  denseAll <- embedDenseBatch [query params] ;;
  let dense := hd [] denseAll in
  sparseAll <- embedSparseBatch [query params] query_input ;;
  let sparse := hd {| indices := []; values := [] |} sparseAll in
  let alpha := clamp (match alpha params with Some a => a | None => hybridAlpha env end) 0 1 in
  let weightedDense := map (fun value => (value * alpha)%Q) dense in
  let weightedSparse :=
    {| indices := indices sparse;
       values := map (fun value => (value * (1 - alpha))%Q) (values sparse) |} in
  let filter :=
    match documentIds params with
    | Some (d :: ds) => DocumentIdIn (d :: ds)
    | _ =>
        match documentId params with
        | Some d => if String.eqb d "" then NoFilter else DocumentIdEq d
        | None => NoFilter
        end
    end in
  matches <- extCall (IndexQuery (namespace params) weightedDense weightedSparse
                        (match topK params with Some k => k | None => 8 end) filter) ;;
  ret (filterMap toSnippet matches).

End Hybrid.

(** ** src/lib/storage/registry.ts *)

Module Registry.
Import Effects Hybrid JsString.
Local Open Scope M.

Record DocumentRegistryItem := {
  documentId : string;
  fileName : string;
  uploadedAt : string;
  namespace : string;
  tenantId : string;
  chunkCount : Z
}.

Definition REGISTRY_ID_PREFIX : string := "docmeta#".

Definition getRegistryNamespace (env : Env) : string := pineconeNamespace env ++ ":registry".

Definition toRegistryId (documentId : string) : string := REGISTRY_ID_PREFIX ++ documentId.

(** [toRegistryItem]: the metadata of a chunk record has no [file_name]
    and no [namespace], which read as [""]. *)
Definition toRegistryItem (metadata : option Metadata) : option DocumentRegistryItem :=
  match metadata with
  | Some (RegistryMeta m) =>
      let documentId := trim (reg_document_id m) in
      let fileName := trim (reg_file_name m) in
      let uploadedAt := trim (reg_uploaded_at m) in
      let namespace := trim (reg_namespace m) in
      let tenantId := trim (reg_tenant_id m) in
      if (String.eqb documentId "" || String.eqb fileName "" || String.eqb uploadedAt ""
          || String.eqb namespace "" || String.eqb tenantId "")%bool
      then None
      else Some {| documentId := documentId; fileName := fileName; uploadedAt := uploadedAt;
                   namespace := namespace; tenantId := tenantId;
                   chunkCount := reg_chunk_count m |}
  | _ => None
  end.

Definition getRegistryItem (documentId : string) : M (option DocumentRegistryItem) :=
  getIndex ;;;
  env <- getEnv ;;
  let registryNamespace := getRegistryNamespace env in
  let id := toRegistryId documentId in
  fetched <- indexFetch registryNamespace [id] ;;
  let record := find (fun r => String.eqb (record_id r) id) fetched in
  let metadata := option_map record_metadata record in
  match toRegistryItem metadata with
  | None => ret None
  | Some mapped =>
      ret (Some {| documentId := documentId; fileName := fileName mapped;
                   uploadedAt := uploadedAt mapped; namespace := namespace mapped;
                   tenantId := tenantId mapped; chunkCount := chunkCount mapped |})
  end.

(** [getLatestDocumentId] lists the registry page by page and sorts it
    with [localeCompare]; it is taken as one call to the outside. *)
Definition getLatestDocumentId : M (option string) := extCall LatestDocumentId.

Definition saveRegistryItem (item : DocumentRegistryItem) : M unit :=
  env <- getEnv ;;
  let registryNamespace := getRegistryNamespace env in
  getIndex ;;;
  let id := toRegistryId (documentId item) in
  let embeddingInput :=
    "document_id:" ++ documentId item ++ String Chunking.LF "file_name:" ++ fileName item
      ++ String Chunking.LF "uploaded_at:" ++ uploadedAt item in
  embeddings <- embedDenseBatch [embeddingInput] ;;
  indexUpsert registryNamespace
    [{| record_id := id;
        dense := nth_error embeddings 0;
        sparse := None;
        record_metadata := RegistryMeta
          {| record_type := "document_registry";
             reg_document_id := documentId item;
             reg_file_name := fileName item;
             reg_uploaded_at := uploadedAt item;
             reg_namespace := namespace item;
             reg_tenant_id := tenantId item;
             reg_chunk_count := chunkCount item |} |}].

End Registry.

(** ** src/lib/rag/workflow.ts: the agentic workflow and its guardrails *)

Module Workflow.
Import Effects Hybrid JsString JsNumber Pool.
Local Open Scope M.

Definition NOT_FOUND_ANSWER : string := "Not found in document.".

Record RagParams := {
  question : string;
  rag_namespace : string;
  rag_documentIds : list string
}.

(** [buildContext(sources)] with its default [maxSources = 6], before
    the blocks are printed. *)
Definition buildContext (sources : list SourceSnippet) : list ContextEntry :=
  map (fun source =>
         let text :=
           if 900 <? len (snippet_text source)
           then slice (snippet_text source) 0 900 ++ "..."
           else snippet_text source in
         {| ctx_chunk_id := id source;
            ctx_score := score source;
            ctx_page := page_number (metadata source);
            ctx_text := text |})
      (firstn 6 sources).

Definition rewriteQuestion (question : string) : M string :=
  tryCatch
    (output <- extCall (ChatRewrite question) ;;
     let rewritten := trim output in
     ret (if 0 <? len rewritten then rewritten else question))
    (ret question).

(** The tool [retrieve_document_chunks]; the array [gatheredSources]
    that the closure mutates is passed in and returned. *)
Definition retrieveDocumentChunks (params : RagParams) (gatheredSources : list SourceSnippet)
    (query : string) : M (ToolReply * list SourceSnippet) :=
  sources <- queryHybrid {| Hybrid.query := query;
                            namespace := rag_namespace params;
                            documentId := None;
                            documentIds := Some (rag_documentIds params);
                            topK := Some TOP_K_PER_TOOL_CALL;
                            alpha := None |} ;;
  let merged := mergeSources gatheredSources sources MAX_SOURCES_IN_STATE in
  if (List.length sources =? 0)%nat
  then ret (NoPassages, merged)
  else ret (Passages (buildContext sources), merged).

(** [agent.invoke]: the controller runs, each tool call running
    [retrieveDocumentChunks] before the next step of the controller. *)
Fixpoint runAgent (params : RagParams) (agent : Agent) (gatheredSources : list SourceSnippet)
  : M (option AgentAnswer * list SourceSnippet) :=
  match agent with
  | Respond structuredResponse => ret (structuredResponse, gatheredSources)
  | CallTool query next =>
      r <- retrieveDocumentChunks params gatheredSources query ;;
      runAgent params (next (fst r)) (snd r)
  end.

(** [runRagWorkflow] from [const structured = ...] to its end: the three
    gates, on what the agent left. *)
Definition applyGuardrails (env : Env) (params : RagParams) (rewrittenQuery : string)
    (structuredResponse : option AgentAnswer) (gatheredSources : list SourceSnippet)
  : AskResponse :=
  let structured :=
    match structuredResponse with
    | Some s => s
    | None => {| agent_answer := NOT_FOUND_ANSWER; grounded := false;
                 agent_not_found := true; cited_chunk_ids := [] |}
    end in
  let topScore := match nth_error gatheredSources 0 with Some s => score s | None => 0%Q end in
  if ((List.length gatheredSources =? 0)%nat || ltb topScore (guardrailMinTopScore env))%bool
  then
    {| ask_document_id := hd "" (rag_documentIds params);
       ask_document_ids := rag_documentIds params;
       answer := NOT_FOUND_ANSWER;
       confidence := 0%Q;
       guardrail := not_found;
       rewritten_query := rewrittenQuery;
       sources := gatheredSources |}
  else
    let confidence := calculateConfidence gatheredSources (cited_chunk_ids structured) in
    let answer := trim (agent_answer structured) in
    let '(guardrail, answer, confidence) :=
      if (agent_not_found structured || negb (grounded structured))%bool
      then (not_found, NOT_FOUND_ANSWER, Qmin confidence 0.35)
      else if ltb confidence (guardrailLowConfidence env)
      then (not_found, NOT_FOUND_ANSWER, confidence)
      else if ltb confidence (guardrailCautionConfidence env)
      then (caution,
            answer ++ Chunking.sep ++ "Caution: This answer has moderate confidence.",
            confidence)
      else (ok, answer, confidence) in
    {| ask_document_id := hd "" (rag_documentIds params);
       ask_document_ids := rag_documentIds params;
       answer := answer;
       confidence := roundTo confidence 4;
       guardrail := guardrail;
       rewritten_query := rewrittenQuery;
       sources := gatheredSources |}.

Definition runRagWorkflow (params : RagParams) : M AskResponse :=
  requireEnv [("openAiApiKey", openAiApiKey)] ;;;
  rewrittenQuery <- rewriteQuestion (question params) ;;
  agent <- extCall (AgentInvoke ("Question: " ++ question params ++ Chunking.sep
                                 ++ "Initial retrieval query suggestion: " ++ rewrittenQuery)) ;;
  agentResult <- runAgent params agent [] ;;
  env <- getEnv ;;
  ret (applyGuardrails env params rewrittenQuery (fst agentResult) (snd agentResult)).

End Workflow.

(** ** src/lib/extraction/shipment.ts *)

Record ShipmentExtraction := {
  shipment_id : option string;
  shipper : option string;
  consignee : option string;
  pickup_datetime : option string;
  delivery_datetime : option string;
  equipment_type : option string;
  mode : option string;
  rate : option Q;
  currency : option string;
  weight : option Q;
  carrier_name : option string
}.

Module Extraction.
Import Effects Hybrid JsString JsNumber.
Local Open Scope M.

Definition toNullableString (value : JsValue) : option string :=
  match value with
  | JsString s =>
      let trimmed := trim s in
      if 0 <? len trimmed then Some trimmed else None
  | _ => None
  end.

Definition isDigit (c : ascii) : bool :=
  let n := nat_of_ascii c in ((48 <=? n)%nat && (n <=? 57)%nat)%bool.

(** [value.replace(/[^0-9.-]/g, "")] *)
Fixpoint keepNumeric (s : string) : string :=
  match s with
  | EmptyString => EmptyString
  | String c r =>
      if (isDigit c || Ascii.eqb c "." || Ascii.eqb c "-")%bool
      then String c (keepNumeric r) else keepNumeric r
  end.

(** The digits that start [s]: their value after [acc], how many they
    are, and what follows them. *)
Fixpoint readDigits (s : string) (acc : Z) (count : nat) : Z * nat * string :=
  match s with
  | String c r =>
      if isDigit c
      then readDigits r (10 * acc + Z.of_nat (nat_of_ascii c - 48)) (S count)
      else (acc, count, s)
  | EmptyString => (acc, count, s)
  end.

(** [Number.parseFloat] on a string made of digits, dots and minus
    signs: the value of the longest prefix that is a decimal literal,
    [None] (NaN) when there is none. *)
Definition parseFloat (s : string) : option Q :=
  let '(negative, body) :=
    match s with
    | String c r => if Ascii.eqb c "-" then (true, r) else (false, s)
    | EmptyString => (false, s)
    end in
  let '(intValue, intCount, rest) := readDigits body 0 O in
  let '(fracValue, fracCount) :=
    match rest with
    | String c r =>
        if Ascii.eqb c "." then let '(v, n, _) := readDigits r 0 O in (v, n) else (0, O)
    | EmptyString => (0, O)
    end in
  if (intCount + fracCount =? 0)%nat then None
  else
    let magnitude :=
      (inject_Z intValue + inject_Z fracValue / inject_Z (10 ^ Z.of_nat fracCount))%Q in
    Some (if negative then (- magnitude)%Q else magnitude).

(** [Number.isFinite] on the number that [Number.parseFloat] makes of a
    decimal literal of value [parsed]: the literal is read as [Infinity]
    from [2^1024 - 2^970] on, half way between the largest binary64
    number and [2^1024]. *)
Definition Number_isFinite (parsed : Q) : bool :=
  ltb (Qabs parsed) (inject_Z (2 ^ 1024 - 2 ^ 970)).

Definition toNullableNumber (value : JsValue) : option Q :=
  match value with
  | JsNumber n => Some n
  | JsString s =>
      let cleaned := trim (keepNumeric s) in
      if len cleaned =? 0 then None
      else
        match parseFloat cleaned with
        | Some parsed => if Number_isFinite parsed then Some parsed else None
        | None => None
        end
  | _ => None
  end.

(** [Object.values(extraction)], each value told apart from [null]. *)
Definition fieldValues (e : ShipmentExtraction) : list (option JsValue) :=
  [ option_map JsString (shipment_id e);
    option_map JsString (shipper e);
    option_map JsString (consignee e);
    option_map JsString (pickup_datetime e);
    option_map JsString (delivery_datetime e);
    option_map JsString (equipment_type e);
    option_map JsString (mode e);
    option_map JsNumber (rate e);
    option_map JsString (currency e);
    option_map JsNumber (weight e);
    option_map JsString (carrier_name e) ].

Definition notNull (v : option JsValue) : bool :=
  match v with Some _ => true | None => false end.

Definition computeExtractionConfidence (extraction : ShipmentExtraction) (modelConfidence : Q)
  : Q :=
  let fields := fieldValues extraction in
  let present := List.length (filter notNull fields) in
  let completeness := (Pool.ofNat present / Pool.ofNat (List.length fields))%Q in
  roundTo (0.65 * modelConfidence + 0.35 * completeness) 4.

(** The object literal [extraction] of [extractShipmentData]. *)
Definition normalize (output : ExtractionOutput) : ShipmentExtraction :=
  {| shipment_id := toNullableString (out_shipment_id output);
     shipper := toNullableString (out_shipper output);
     consignee := toNullableString (out_consignee output);
     pickup_datetime := toNullableString (out_pickup_datetime output);
     delivery_datetime := toNullableString (out_delivery_datetime output);
     equipment_type := toNullableString (out_equipment_type output);
     mode := toNullableString (out_mode output);
     rate := toNullableNumber (out_rate output);
     currency := toNullableString (out_currency output);
     weight := toNullableNumber (out_weight output);
     carrier_name := toNullableString (out_carrier_name output) |}.

Definition extractShipmentData (text : string) (fileName : option string)
  : M (ShipmentExtraction * Q) :=
  requireEnv [("openAiApiKey", openAiApiKey)] ;;;
  let safeText := slice text 0 40000 in
  output <- extCall (ChatExtract (match fileName with Some f => f | None => "unknown" end)
                                 safeText) ;;
  let extraction := normalize output in
  let confidence := computeExtractionConfidence extraction (self_assessed_confidence output) in
  ret (extraction, confidence).

End Extraction.

(** ** The two confidences on binary64 numbers

    [calculateConfidence] of src/lib/rag/workflow.ts and
    [computeExtractionConfidence] of src/lib/extraction/shipment.ts once
    more, with the arithmetic that the program has: every number is a
    binary64 number and every operation rounds.  The value of a
    confidence at a decimal tie depends on this rounding. *)

Module Binary64Code.
#[local] Set Warnings "-inexact-float".
Import Binary64.
Local Open Scope float_scope.

(** A length or a count as a number; exact below [2^53]. *)
Definition ofNat (n : nat) : float := PrimFloat.of_uint63 (Uint63.of_Z (Z.of_nat n)).

Definition ofZ (z : Z) : float :=
  if (z <? 0)%Z then - PrimFloat.of_uint63 (Uint63.of_Z (- z))
  else PrimFloat.of_uint63 (Uint63.of_Z z).

(** The binary64 number that a rational stands for, the nearest one:
    the quotient of two integers below [2^53] is rounded once.  It is
    the number that a decimal literal denotes ([0.85] is [17 / 20]). *)
Definition ofQ (q : Q) : float := ofZ (Qnum q) / ofZ (Zpos (Qden q)).

Definition scoreOf (source : SourceSnippet) : float := ofQ (score source).

Definition calculateConfidence (sources : list SourceSnippet) (citedChunkIds : list string)
  : float :=
  let topScore := match nth_error sources 0 with Some s => scoreOf s | None => 0 end in
  let secondScore := match nth_error sources 1 with Some s => scoreOf s | None => topScore end in
  let retrievalSignal := clamp (topScore / 2.5) 0 1 in
  let agreementSignal :=
    if PrimFloat.ltb 0 topScore then clamp (secondScore / topScore) 0 1 else 0 in
  let sourceIds := Pool.sourceIds sources in
  let validCitations := List.length (filter (Pool.setHas sourceIds) citedChunkIds) in
  let citationSignal :=
    if (0 <? List.length citedChunkIds)%nat
    then clamp (ofNat validCitations / ofNat (List.length citedChunkIds)) 0 1
    else 0 in
  roundTo (0.6 * retrievalSignal + 0.25 * agreementSignal + 0.15 * citationSignal).

Definition computeExtractionConfidence (extraction : ShipmentExtraction)
    (modelConfidence : float) : float :=
  let fields := Extraction.fieldValues extraction in
  let present := List.length (filter Extraction.notNull fields) in
  let completeness := ofNat present / ofNat (List.length fields) in
  roundTo (0.65 * modelConfidence + 0.35 * completeness).

(** The confidence of an answer as the specification words it, from the
    top two scores of the pool and the two counts of citations, every
    operation being the binary64 one and [round(x, 4)] being
    [Math.round(10000 x) / 10000].  The share of the citations is
    clamped like the two other signals. *)
Definition spec_confidence (topScore secondScore : float) (found total : nat) : float :=
  let retrievalSignal := clamp (topScore / 2.5) 0 1 in
  let agreementSignal :=
    if PrimFloat.ltb 0 topScore then clamp (secondScore / topScore) 0 1 else 0 in
  let citationSignal :=
    if (0 <? total)%nat then clamp (ofNat found / ofNat total) 0 1 else 0 in
  roundTo (0.6 * retrievalSignal + 0.25 * agreementSignal + 0.15 * citationSignal).


End Binary64Code.

(** ** src/lib/services/doc-intelligence.ts *)

Record UploadResponse := {
  up_document_id : string;
  up_file_name : string;
  up_chunk_count : Z;
  up_namespace : string;
  up_uploaded_at : string
}.

Module Service.
Import Effects Hybrid Registry JsString.
Local Open Scope M.

Definition SUPPORTED_FILE_TYPES : list string := ["pdf"; "docx"; "txt"].
Definition DEFAULT_TENANT : string := "tenant-demo".

Definition buildNamespace (env : Env) (tenantId : string) : string :=
  pineconeNamespace env ++ ":" ++ tenantId.

(** [toLowerCase] on one code unit below 256. *)
Definition lowerChar (c : ascii) : ascii :=
  let n := nat_of_ascii c in
  if (((65 <=? n) && (n <=? 90)) || ((192 <=? n) && (n <=? 222) && negb (n =? 215)))%nat%bool
  then ascii_of_nat (n + 32) else c.

Fixpoint toLowerCase (s : string) : string :=
  match s with
  | EmptyString => EmptyString
  | String c r => String (lowerChar c) (toLowerCase r)
  end.

(** [fileName.split(".").pop()]: what follows the last dot, the whole
    name when it has none. *)
Fixpoint lastSegment (s : string) (cur : string) : string :=
  match s with
  | EmptyString => cur
  | String c r =>
      if Ascii.eqb c "." then lastSegment r EmptyString
      else lastSegment r (cur ++ String c EmptyString)
  end.

Definition getExtension (fileName : string) : string :=
  toLowerCase (lastSegment fileName EmptyString).

Definition parseFile (file : File) (documentId tenantId fileName uploadedAt : string)
  : M ParsedDocumentPayload :=
  let extension := getExtension fileName in
  if String.eqb extension "txt"
  then
    let text := file_text file in
    ret {| parsed_documentId := documentId; parsed_tenantId := tenantId;
           parsed_fileName := fileName; parsed_uploadedAt := uploadedAt;
           textFull := text; markdownFull := text;
           parsed_pageTexts := [{| pageNumber := 1; text := text |}] |}
  else extCall (LlamaParse file documentId tenantId fileName uploadedAt).

Record DocumentContext := {
  ctx_documentId : string;
  ctx_namespace : string;
  ctx_tenantId : string
}.

Definition resolveDocumentContext (documentId : option string) : M DocumentContext :=
  selected <- match documentId with
              | Some d => ret (Some d)
              | None => getLatestDocumentId
              end ;;
  match selected with
  | None =>
      throw (DocIntelligenceError "No uploaded document found. Upload a document first." 404)
  | Some selectedDocumentId =>
      if String.eqb selectedDocumentId ""
      then throw (DocIntelligenceError
                    "No uploaded document found. Upload a document first." 404)
      else
        registryItem <- getRegistryItem selectedDocumentId ;;
        match registryItem with
        | None =>
            throw (DocIntelligenceError
                     ("Document '" ++ selectedDocumentId ++ "' was not found.") 404)
        | Some item =>
            ret {| ctx_documentId := selectedDocumentId;
                   ctx_namespace := Registry.namespace item;
                   ctx_tenantId := Registry.tenantId item |}
        end
  end.

Record AskContext := {
  ask_namespace : string;
  ask_tenantId : string;
  ask_documentIds : list string
}.

(** [[...new Set(rawIds)]]: the first occurrence of each id, in order. *)
Fixpoint unique (ids seen : list string) : list string :=
  match ids with
  | [] => []
  | x :: r =>
      if existsb (String.eqb x) seen then unique r seen else x :: unique r (x :: seen)
  end.

(** [await Promise.all(ids.map(f))], the calls taken in order. *)
Fixpoint forEachM {A B} (f : A -> M B) (l : list A) : M (list B) :=
  match l with
  | [] => ret []
  | a :: r => b <- f a ;; bs <- forEachM f r ;; ret (b :: bs)
  end.

Definition NAMESPACE_MISMATCH : string :=
  "Selected documents belong to different namespaces. Please select documents from the same tenant.".

Definition isNull {A} (o : option A) : bool :=
  match o with Some _ => false | None => true end.

Definition resolveAskContext (documentId : option string) (documentIds : option (list string))
  : M AskContext :=
  let rawIds :=
    filter Chunking.nonEmpty
      (map trim (match documentIds with Some ids => ids | None => [] end)) in
  if (0 <? List.length rawIds)%nat
  then
    let uniqueIds := unique rawIds [] in
    items <- forEachM getRegistryItem uniqueIds ;;
    let missingIds :=
      map fst (filter (fun p => isNull (snd p)) (combine uniqueIds items)) in
    if (0 <? List.length missingIds)%nat
    then throw (DocIntelligenceError
                  ("Document(s) not found: " ++ String.concat ", " missingIds) 404)
    else
      let resolved := filterMap (fun item => item) items in
      match resolved with
      | [] => throw (UpstreamError "TypeError: Cannot read properties of undefined")
      | first :: _ =>
          let namespace := Registry.namespace first in
          let tenantId := Registry.tenantId first in
          let allSameNamespace :=
            forallb (fun item => String.eqb (Registry.namespace item) namespace) resolved in
          if negb allSameNamespace
          then throw (DocIntelligenceError NAMESPACE_MISMATCH 400)
          else ret {| ask_namespace := namespace;
                      ask_tenantId := tenantId;
                      ask_documentIds := uniqueIds |}
      end
  else
    single <- resolveDocumentContext documentId ;;
    ret {| ask_namespace := ctx_namespace single;
           ask_tenantId := ctx_tenantId single;
           ask_documentIds := [ctx_documentId single] |}.

Definition uploadDocument (file : File) (tenantId : option string) : M UploadResponse :=
  let tenantId :=
    match option_map trim tenantId with
    | Some t => if String.eqb t "" then DEFAULT_TENANT else t
    | None => DEFAULT_TENANT
    end in
  fileName <- (if String.eqb (file_name file) ""
               then now <- extCall DateNow ;; ret ("upload-" ++ Chunking.showZ now)
               else ret (file_name file)) ;;
  let extension := getExtension fileName in
  if negb (existsb (String.eqb extension) SUPPORTED_FILE_TYPES)
  then throw (DocIntelligenceError
                ("Unsupported file type '"
                 ++ (if String.eqb extension "" then "unknown" else extension)
                 ++ "'. Supported: " ++ String.concat ", " SUPPORTED_FILE_TYPES ++ ".") 400)
  else
    documentId <- extCall RandomUUID ;;
    uploadedAt <- extCall DateToISOString ;;
    parsed <- parseFile file documentId tenantId fileName uploadedAt ;;
    let fallbackText :=
      if String.eqb (markdownFull parsed) "" then textFull parsed else markdownFull parsed in
    let pageTexts :=
      if (0 <? List.length (parsed_pageTexts parsed))%nat then parsed_pageTexts parsed
      else [{| pageNumber := 1;
               text := if String.eqb fallbackText "" then "(empty document)"
                       else fallbackText |}] in
    let chunks :=
      Chunking.createChunksFromPages
        {| Chunking.documentId := documentId;
           Chunking.tenantId := tenantId;
           Chunking.fileName := fileName;
           Chunking.uploadedAt := uploadedAt;
           Chunking.pageTexts := pageTexts;
           Chunking.targetChars := None;
           Chunking.overlapChars := None |} in
    if (List.length chunks =? 0)%nat
    then throw (DocIntelligenceError "Could not extract usable text from this document." 422)
    else
      env <- getEnv ;;
      let namespace := buildNamespace env tenantId in
      upsertHybridChunks chunks namespace ;;;
      saveRegistryItem {| Registry.documentId := documentId;
                          Registry.fileName := fileName;
                          Registry.uploadedAt := uploadedAt;
                          Registry.namespace := namespace;
                          Registry.tenantId := tenantId;
                          Registry.chunkCount := Z.of_nat (List.length chunks) |} ;;;
      ret {| up_document_id := documentId;
             up_file_name := fileName;
             up_chunk_count := Z.of_nat (List.length chunks);
             up_namespace := namespace;
             up_uploaded_at := uploadedAt |}.

Definition askDocumentQuestion (question : string) (documentId : option string)
    (documentIds : option (list string)) : M AskResponse :=
  let question := trim question in
  if len question =? 0
  then throw (DocIntelligenceError "Question cannot be empty." 400)
  else
    context <- resolveAskContext documentId documentIds ;;
    Workflow.runRagWorkflow
      {| Workflow.question := question;
         Workflow.rag_namespace := ask_namespace context;
         Workflow.rag_documentIds := ask_documentIds context |}.

End Service.

(** ** Vocabulary of the properties *)

Module Vocabulary.
Import JsString JsNumber.

(** The step of the chunking loop flushes the buffer: [current] is
    pushed right after the chunks that were already there. *)
Definition flushes (targetChars overlapChars : Z) (chunks : list string)
    (current paragraph : string) : Prop :=
  exists rest,
    fst (Chunking.chunkStep targetChars overlapChars (chunks, current) paragraph)
    = (chunks ++ current :: rest)%list.

(** The buffer that follows a flush, before any hard split: the trimmed
    overlap, the separator and the paragraph. *)
Definition seedAfterFlush (tail paragraph : string) : string :=
  if Chunking.nonEmpty (trim tail) then trim tail ++ Chunking.sep ++ paragraph else paragraph.

(** Descending order of the evidence pool. *)
Definition desc (a b : SourceSnippet) : Prop := (score b <= score a)%Q.

(** The entries of a [JsMap] sit under their own id. *)
Definition keyed (m : Pool.JsMap) : Prop := forall k v, In (k, v) m -> id v = k.

(** The invariant of the evidence pool, [history] being every snippet
    that the retrieval calls have returned so far: one entry per id; at
    most [MAX_SOURCES_IN_STATE] entries, in descending order of score;
    every entry is a snippet that was returned, and no snippet returned
    with the same id has a higher score; a snippet whose id is not in
    the pool was evicted from a full pool, by entries that score at
    least as much. *)
Definition PoolInvariant (history pool : list SourceSnippet) : Prop :=
  NoDup (map id pool)
  /\ (List.length pool <= Pool.MAX_SOURCES_IN_STATE)%nat
  /\ StronglySorted desc pool
  /\ (forall e, In e pool -> In e history)
  /\ (forall h e, In h history -> In e pool -> id e = id h -> (score h <= score e)%Q)
  /\ (forall h, In h history -> ~ In (id h) (map id pool) ->
       List.length pool = Pool.MAX_SOURCES_IN_STATE
       /\ forall e, In e pool -> (score h <= score e)%Q).

(** The number of claimed citation ids that are ids of the pool. *)
Definition citationsFound (pool : list SourceSnippet) (claimed : list string) : nat :=
  List.length (filter (fun c => existsb (fun s => String.eqb (id s) c) pool) claimed).

(** The confidence of an answer as the specification words it, from
    the top two scores of the pool and the two counts of citations. *)
Definition spec_confidence (topScore secondScore : Q) (found total : nat) : Q :=
  let retrievalSignal := clamp (topScore / 2.5) 0 1 in
  let agreementSignal :=
    if ltb 0 topScore then clamp (secondScore / topScore) 0 1 else 0%Q in
  let citationSignal :=
    if (0 <? total)%nat then (Pool.ofNat found / Pool.ofNat total)%Q else 0%Q in
  roundTo (0.6 * retrievalSignal + 0.25 * agreementSignal + 0.15 * citationSignal) 4.

(** The retrieval floor: the pool is empty or its highest score is below
    [guardrailMinTopScore]; and its contrary. *)
Definition belowFloor (env : Effects.Env) (pool : list SourceSnippet) : Prop :=
  pool = []
  \/ exists top, In top pool
                 /\ (forall e, In e pool -> (score e <= score top)%Q)
                 /\ (score top < Effects.guardrailMinTopScore env)%Q.

Definition passesFloor (env : Effects.Env) (pool : list SourceSnippet) : Prop :=
  exists top, In top pool
              /\ (forall e, In e pool -> (score e <= score top)%Q)
              /\ (Effects.guardrailMinTopScore env <= score top)%Q.

End Vocabulary.

(** ** Vocabulary of the guardrail properties *)

Module GuardVocabulary.
Import Effects Hybrid Workflow.
Local Open Scope M.

(** [runRagWorkflow] up to the end of [agent.invoke]: the rewritten
    query, the structured response of the controller and the evidence
    pool that its tool calls gathered. *)
Definition controllerRun (params : RagParams)
  : M (string * option AgentAnswer * list SourceSnippet) :=
  requireEnv [("openAiApiKey", openAiApiKey)] ;;;
  rewrittenQuery <- rewriteQuestion (question params) ;;
  agent <- extCall (AgentInvoke ("Question: " ++ question params ++ Chunking.sep
                                 ++ "Initial retrieval query suggestion: " ++ rewrittenQuery)) ;;
  agentResult <- runAgent params agent [] ;;
  ret (rewrittenQuery, fst agentResult, snd agentResult).

(** The controller said that the answer is not in the evidence, or gave
    no structured response, which the workflow reads the same way. *)
Definition disowned (structured : option AgentAnswer) : Prop :=
  match structured with
  | Some a => agent_not_found a = true \/ grounded a = false
  | None => True
  end.

Definition cited (structured : option AgentAnswer) : list string :=
  match structured with
  | Some a => cited_chunk_ids a
  | None => []
  end.

End GuardVocabulary.

(** ** Vocabulary of the extraction properties *)

Module ExtractionVocabulary.
Import JsString Effects.

Fixpoint allWhiteSpace (s : string) : bool :=
  match s with
  | EmptyString => true
  | String c r => (isWhiteSpace c && allWhiteSpace r)%bool
  end.

Definition firstChar (s : string) : option ascii :=
  match s with
  | EmptyString => None
  | String c _ => Some c
  end.

Fixpoint lastChar (s : string) : option ascii :=
  match s with
  | EmptyString => None
  | String c EmptyString => Some c
  | String _ r => lastChar r
  end.

(** A non-empty string with no white space at either end. *)
Definition trimmedNonEmpty (s : string) : Prop :=
  exists a b,
    firstChar s = Some a /\ isWhiteSpace a = false
    /\ lastChar s = Some b /\ isWhiteSpace b = false.

(** A raw value that carries no text: absent, [null], not a string, or
    a string of white space only (the empty string among them). *)
Definition carriesNoText (v : JsValue) : Prop :=
  match v with
  | JsString s => allWhiteSpace s = true
  | _ => True
  end.

(** The nine fields of an extraction that are strings. *)
Definition stringFields (e : ShipmentExtraction) : list (option string) :=
  [ shipment_id e; shipper e; consignee e; pickup_datetime e; delivery_datetime e;
    equipment_type e; mode e; currency e; carrier_name e ].

(** The raw values of the model for those nine fields. *)
Definition rawStringFields (o : ExtractionOutput) : list JsValue :=
  [ out_shipment_id o; out_shipper o; out_consignee o; out_pickup_datetime o;
    out_delivery_datetime o; out_equipment_type o; out_mode o; out_currency o;
    out_carrier_name o ].

Definition present {A} (o : option A) : nat :=
  match o with Some _ => 1 | None => 0 end.

(** How many of the eleven fields are not [null]. *)
Definition non_null_field_count (e : ShipmentExtraction) : nat :=
  present (shipment_id e) + present (shipper e) + present (consignee e)
  + present (pickup_datetime e) + present (delivery_datetime e)
  + present (equipment_type e) + present (mode e) + present (rate e)
  + present (currency e) + present (weight e) + present (carrier_name e).


End ExtractionVocabulary.

(** ** Vocabulary of the properties of runs *)

Module RunVocabulary.
Import Effects.

(** A program that does not write to the index and whose calls to the
    outside all satisfy [Q]. *)
Definition Quiet {A} (Q : Call -> Prop) (m : M A) : Prop :=
  forall env o w w' r,
    m env o w = (w', r) ->
    index w' = index w
    /\ exists events,
         trace w' = (trace w ++ events)%list
         /\ Forall (fun ev => after ev = index w /\ Q (call ev)) events.

(** The calls of a registry lookup: [index.fetch]. *)
Definition isFetch (c : Call) : Prop :=
  match c with
  | MkCall _ (IndexFetch _ _) => True
  | _ => False
  end.

(** The calls of the hybrid query: the two embeddings of the query text
    and [index.query]. *)
Definition isRetrieval (c : Call) : Prop :=
  match c with
  | MkCall _ (EmbedDense _) => True
  | MkCall _ (EmbedSparse _ _) => True
  | MkCall _ (IndexQuery _ _ _ _ _) => True
  | _ => False
  end.

(** A write to the index. *)
Definition isUpsert (c : Call) : Prop :=
  match c with
  | MkCall _ (IndexUpsert _ _) => True
  | _ => False
  end.

Definition noWrite (c : Call) : Prop := ~ isUpsert c.

(** The index holds a record with this id in this namespace. *)
Definition indexed (i : Index) (namespace id : string) : Prop :=
  exists r, In (namespace, r) i /\ record_id r = id.

(** The documents of a request share one namespace. *)
Definition sameNamespace (items : list Registry.DocumentRegistryItem) : Prop :=
  exists namespace, forall item, In item items -> Registry.namespace item = namespace.

(** The error of a request whose documents span several namespaces
    ([InconsistentScope] in the specification). *)
Definition InconsistentScope : Exception :=
  DocIntelligenceError Service.NAMESPACE_MISMATCH 400.

(** [uploadDocument] up to the call of the chunker: the parameters that
    [createChunksFromPages] receives. *)
Definition uploadInputs (file : File) (tenantId : option string) : M Chunking.ChunkParams :=
  let tenantId :=
    match option_map JsString.trim tenantId with
    | Some t => if String.eqb t "" then Service.DEFAULT_TENANT else t
    | None => Service.DEFAULT_TENANT
    end in
  (fileName <- (if String.eqb (file_name file) ""
                then now <- extCall DateNow ;; ret ("upload-" ++ Chunking.showZ now)
                else ret (file_name file)) ;;
   let extension := Service.getExtension fileName in
   if negb (existsb (String.eqb extension) Service.SUPPORTED_FILE_TYPES)
   then throw (DocIntelligenceError
                 ("Unsupported file type '"
                  ++ (if String.eqb extension "" then "unknown" else extension)
                  ++ "'. Supported: " ++ String.concat ", " Service.SUPPORTED_FILE_TYPES
                  ++ ".") 400)
   else
     documentId <- extCall RandomUUID ;;
     uploadedAt <- extCall DateToISOString ;;
     parsed <- Service.parseFile file documentId tenantId fileName uploadedAt ;;
     let fallbackText :=
       if String.eqb (markdownFull parsed) "" then textFull parsed else markdownFull parsed in
     let pageTexts :=
       if (0 <? List.length (parsed_pageTexts parsed))%nat then parsed_pageTexts parsed
       else [{| pageNumber := 1;
                text := if String.eqb fallbackText "" then "(empty document)"
                        else fallbackText |}] in
     ret {| Chunking.documentId := documentId;
            Chunking.tenantId := tenantId;
            Chunking.fileName := fileName;
            Chunking.uploadedAt := uploadedAt;
            Chunking.pageTexts := pageTexts;
            Chunking.targetChars := None;
            Chunking.overlapChars := None |})%M.

Definition NO_USABLE_TEXT : Exception :=
  DocIntelligenceError "Could not extract usable text from this document." 422.

(** [uploadDocument] from the call of the chunker on. *)
Definition indexAndRegister (p : Chunking.ChunkParams) : M UploadResponse :=
  let chunks := Chunking.createChunksFromPages p in
  if (List.length chunks =? 0)%nat
  then throw NO_USABLE_TEXT
  else
    (env <- getEnv ;;
     let namespace := Service.buildNamespace env (Chunking.tenantId p) in
     Hybrid.upsertHybridChunks chunks namespace ;;;
     Registry.saveRegistryItem
       {| Registry.documentId := Chunking.documentId p;
          Registry.fileName := Chunking.fileName p;
          Registry.uploadedAt := Chunking.uploadedAt p;
          Registry.namespace := namespace;
          Registry.tenantId := Chunking.tenantId p;
          Registry.chunkCount := Z.of_nat (List.length chunks) |} ;;;
     ret {| up_document_id := Chunking.documentId p;
            up_file_name := Chunking.fileName p;
            up_chunk_count := Z.of_nat (List.length chunks);
            up_namespace := namespace;
            up_uploaded_at := Chunking.uploadedAt p |})%M.

(** The registry holds an entry for the document. *)
Definition registered (env : Env) (i : Index) (documentId : string) : Prop :=
  indexed i (Registry.getRegistryNamespace env) (Registry.toRegistryId documentId).

(** Every chunk has its record in the namespace. *)
Definition covered (namespace : string) (chunks : list ChunkRecord) (i : Index) : Prop :=
  forall c, In c chunks -> indexed i namespace (chunk_id c).

(** A specification of a program under the environment [env]: started
    on an index that satisfies [P], every state of the index that the
    run goes through satisfies [S], and the index satisfies [R a] when
    the run returns [a]. *)
Definition Triple {A} (env : Env) (P : Index -> Prop) (m : M A)
    (S : Index -> Prop) (R : A -> Index -> Prop) : Prop :=
  forall o w w' r,
    P (index w) ->
    m env o w = (w', r) ->
    (exists events,
        trace w' = (trace w ++ events)%list /\ Forall (fun ev => S (after ev)) events)
    /\ S (index w')
    /\ (forall a, r = inr a -> R a (index w')).

End RunVocabulary.

(** ** Sample data *)

Module Samples.

Definition page1 : DocumentMetadata :=
  {| document_id := "doc-1"; tenant_id := "tenant-demo"; document_title := "rate.txt";
     source_file_name := "rate.txt"; uploaded_at := "2024-01-01T00:00:00.000Z";
     page_number := 1; chunk_number := 1; chunk_text := "Rate: 1200 USD" |}.

Definition snippet (i : string) (s : Q) : SourceSnippet :=
  {| id := i; score := s; snippet_text := "Rate: 1200 USD"; metadata := page1 |}.

Import Effects.

Definition env : Env :=
  {| openAiApiKey := Some "sk-sample";
     pineconeApiKey := Some "pc-sample";
     pineconeIndexName := Some "documents";
     pineconeNamespace := "tenant-demo";
     hybridAlpha := 0.5;
     guardrailMinTopScore := 0.85;
     guardrailLowConfidence := 0.4;
     guardrailCautionConfidence := 0.6 |}.

Definition output : ExtractionOutput :=
  {| out_shipment_id := JsString " LD-1042 ";
     out_shipper := JsNull;
     out_consignee := JsString "   ";
     out_pickup_datetime := JsUndefined;
     out_delivery_datetime := JsString "";
     out_equipment_type := JsNumber 53;
     out_mode := JsString "FTL";
     out_rate := JsString "$1,200.50";
     out_currency := JsString "USD";
     out_weight := JsNumber 42000;
     out_carrier_name := JsNull;
     self_assessed_confidence := 0.9 |}.

(** An outside that never fails: the controller is [agent], every
    hybrid query matches [matches]. *)
Definition oracle (agent : Agent) (matches : list ScoredMatch) : Oracle :=
  fun X _ c =>
    match c in Ext X return Exception + X with
    | RandomUUID => inr "doc-1"
    | DateNow => inr 1704067200000
    | DateToISOString => inr "2024-01-01T00:00:00.000Z"
    | LlamaParse _ documentId tenantId fileName uploadedAt =>
        inr {| parsed_documentId := documentId; parsed_tenantId := tenantId;
               parsed_fileName := fileName; parsed_uploadedAt := uploadedAt;
               textFull := ""; markdownFull := ""; parsed_pageTexts := [] |}
    | EmbedDense texts => inr (map (fun _ => [1%Q]) texts)
    | EmbedSparse texts _ => inr (map (fun _ => {| indices := [7]; values := [1%Q] |}) texts)
    | IndexUpsert _ _ => inr tt
    | IndexFetch _ _ => inr tt
    | IndexQuery _ _ _ _ _ => inr matches
    | LatestDocumentId => inr None
    | Sleep _ => inr tt
    | ChatRewrite question => inr question
    | AgentInvoke _ => inr agent
    | ChatExtract _ _ => inr output
    end.

Definition found (i : string) (s : Q) : ScoredMatch :=
  {| match_id := i; match_score := Some s; match_metadata := Some page1 |}.

Definition reply (notFound : bool) : AgentAnswer :=
  {| agent_answer := " The rate is 1200 USD. ";
     grounded := true;
     agent_not_found := notFound;
     cited_chunk_ids := ["doc-1#p1c1"] |}.

(** A controller that answers without retrieving, and one that
    retrieves once. *)
Definition idle (notFound : bool) : Agent := Respond (Some (reply notFound)).

Definition once (notFound : bool) : Agent :=
  CallTool "rate" (fun _ => Respond (Some (reply notFound))).

Definition start : World := {| index := []; trace := [] |}.

Definition registryEntry (documentId namespace tenantId : string) : string * VectorRecord :=
  ("tenant-demo:registry",
   {| record_id := "docmeta#" ++ documentId;
      dense := Some [1%Q];
      sparse := None;
      record_metadata := RegistryMeta
        {| record_type := "document_registry";
           reg_document_id := documentId;
           reg_file_name := "rate.txt";
           reg_uploaded_at := "2024-01-01T00:00:00.000Z";
           reg_namespace := namespace;
           reg_tenant_id := tenantId;
           reg_chunk_count := 1 |} |}).

(** A store with two documents of different tenants. *)
Definition twoTenants : World :=
  {| index := [registryEntry "doc-1" "tenant-demo:acme" "acme";
               registryEntry "doc-2" "tenant-demo:globex" "globex"];
     trace := [] |}.

Definition item (documentId namespace tenantId : string) : Registry.DocumentRegistryItem :=
  {| Registry.documentId := documentId;
     Registry.fileName := "rate.txt";
     Registry.uploadedAt := "2024-01-01T00:00:00.000Z";
     Registry.namespace := namespace;
     Registry.tenantId := tenantId;
     Registry.chunkCount := 1 |}.

Definition params : Workflow.RagParams :=
  {| Workflow.question := "What is the rate?";
     Workflow.rag_namespace := "tenant-demo:tenant-demo";
     Workflow.rag_documentIds := ["doc-1"] |}.

End Samples.

(** ** src/lib/storage/registry.ts: the ids of the registry *)

Module RegistryIds.
Import JsString.

(** [s.startsWith(prefix)] *)
Definition startsWith (s prefix : string) : bool := String.prefix prefix s.

Definition fromRegistryId (registryId : string) : string :=
  if startsWith registryId Registry.REGISTRY_ID_PREFIX
  then sliceFrom registryId (len Registry.REGISTRY_ID_PREFIX)
  else registryId.

End RegistryIds.

(** ** src/lib/parsing/llama-parse.ts: what is made of the answer of the parser *)

Module Parsing.
Import JsString.

(** A page of [parsed.text.pages] and of [parsed.markdown.pages]; a
    field that is absent is [None]. *)
Record TextPage := { text_page_number : option Z; text_page_text : option string }.

Record MarkdownPage := { markdown_success : option bool; markdown_text : option string }.

(** The answer of the parser: [pages] is [None] when the part is not an
    object or holds no array of pages, and a page that is not an object
    is [None]. *)
Record ParseResult := {
  text_pages : option (list (option TextPage));
  markdown_pages : option (list (option MarkdownPage));
  text_full : option string;
  markdown_full : option string
}.

Definition orElse {A} (value : option A) (default : A) : A :=
  match value with Some a => a | None => default end.

Definition toPageText (maybePages : option (list (option TextPage))) : list PageText :=
  match maybePages with
  | None => []
  | Some pages =>
      Hybrid.filterMap
        (fun page =>
           match page with
           | None => None
           | Some page =>
               let pageNumber := orElse (text_page_number page) 0 in
               let text := trim (orElse (text_page_text page) "") in
               if ((pageNumber <=? 0) || (len text =? 0))%bool then None
               else Some {| pageNumber := pageNumber; text := text |}
           end)
        pages
  end.

Definition toMarkdown (maybePages : option (list (option MarkdownPage))) : string :=
  match maybePages with
  | None => ""
  | Some pages =>
      String.concat Chunking.sep
        (filter Chunking.nonEmpty
           (map (fun page =>
                   match page with
                   | None => ""
                   | Some page =>
                       if negb (orElse (markdown_success page) true) then ""
                       else trim (orElse (markdown_text page) "")
                   end)
                pages))
  end.

(** The object that [parseDocumentWithLlamaCloud] returns for the answer
    [parsed] of the parser. *)
Definition toPayload (parsed : ParseResult) (documentId tenantId fileName uploadedAt : string)
  : Effects.ParsedDocumentPayload :=
  let pageTexts := toPageText (text_pages parsed) in
  let markdownByPages := toMarkdown (markdown_pages parsed) in
  let usable (value : option string) :=
    match value with
    | Some s => 0 <? len (trim s)
    | None => false
    end in
  let textFull :=
    if usable (text_full parsed) then orElse (text_full parsed) ""
    else String.concat Chunking.sep (map text pageTexts) in
  let markdownFull :=
    if usable (markdown_full parsed) then orElse (markdown_full parsed) ""
    else markdownByPages in
  {| Effects.parsed_documentId := documentId;
     Effects.parsed_tenantId := tenantId;
     Effects.parsed_fileName := fileName;
     Effects.parsed_uploadedAt := uploadedAt;
     Effects.textFull := textFull;
     Effects.markdownFull := markdownFull;
     Effects.parsed_pageTexts := pageTexts |}.

End Parsing.

(** ** src/lib/vector/pinecone-hybrid.ts: reading the chunks of a document back *)

Module DocumentChunks.

(** The loop body of [fetchDocumentChunks] over the records of one
    response. *)
Definition collectRecords (records : list (string * option DocumentMetadata))
  : list SourceSnippet :=
  Hybrid.filterMap
    (fun '(id, metadata) =>
       match metadata with
       | None => None
       | Some metadata =>
           Some {| id := id; score := 0%Q; snippet_text := chunk_text metadata;
                   metadata := metadata |}
       end)
    records.

(** The comparator of the final sort. *)
Definition byChunkNumber (a b : SourceSnippet) : Q :=
  (inject_Z (chunk_number (metadata a)) - inject_Z (chunk_number (metadata b)))%Q.

(** What [fetchDocumentChunks] returns when the responses that its loop
    has read held the records [responses], response after response. *)
Definition fetchDocumentChunks (responses : list (list (string * option DocumentMetadata)))
  : list SourceSnippet :=
  Pool.sort byChunkNumber (List.concat (map collectRecords responses)).

(** [sourceText] of [extractShipmentFromDocument]. *)
Definition sourceText (chunks : list SourceSnippet) : string :=
  JsString.trim (String.concat Chunking.sep (map snippet_text chunks)).

End DocumentChunks.

(** ** Vocabulary of the further properties *)

Module ExtraVocabulary.
Import JsString.

(** The text has no blank line: no two line feeds in a row. *)
Fixpoint noBlankLine (s : string) : bool :=
  match s with
  | EmptyString => true
  | String c r =>
      match r with
      | String d _ =>
          (negb (Ascii.eqb c Chunking.LF && Ascii.eqb d Chunking.LF) && noBlankLine r)%bool
      | EmptyString => true
      end
  end.

(** The chunks of one page, as [createChunksFromPages] computes them. *)
Definition pageChunks (page : PageText) (targetChars overlapChars : Z) : list string :=
  Chunking.buildOverlappingChunks (Chunking.splitIntoParagraphs (text page))
    targetChars overlapChars.

(** The target and overlap sizes that [createChunksFromPages] uses. *)
Definition targetOf (p : Chunking.ChunkParams) : Z :=
  match Chunking.targetChars p with Some t => t | None => Chunking.DEFAULT_TARGET_CHARS end.

Definition overlapOf (p : Chunking.ChunkParams) : Z :=
  match Chunking.overlapChars p with Some o => o | None => Chunking.DEFAULT_OVERLAP_CHARS end.

Definition numberOf (r : ChunkRecord) : Z := chunk_number (chunk_metadata r).

(** A snippet that brings nothing new to the pool: the pool holds its id
    with a score that is at least as high. *)
Definition known (pool : list SourceSnippet) (s : SourceSnippet) : Prop :=
  exists e, In e pool /\ id e = id s /\ (score s <= score e)%Q.

(** The calls that a question may make for [params]: no write, and
    every query of the index in the namespace of [params], for
    [TOP_K_PER_TOOL_CALL] matches among the documents of [params]. *)
Definition inScope (params : Workflow.RagParams) (c : Effects.Call) : Prop :=
  match c with
  | Effects.MkCall _ (Effects.IndexQuery namespace _ _ topK filter) =>
      namespace = Workflow.rag_namespace params
      /\ topK = Pool.TOP_K_PER_TOOL_CALL
      /\ filter = Effects.DocumentIdIn (Workflow.rag_documentIds params)
  | Effects.MkCall _ (Effects.IndexUpsert _ _) => False
  | _ => True
  end.

(** No write, and no query of the index without a list of documents. *)
Definition readsSelectedDocuments (c : Effects.Call) : Prop :=
  match c with
  | Effects.MkCall _ (Effects.IndexQuery _ _ _ _ filter) =>
      exists d ds, filter = Effects.DocumentIdIn (d :: ds)
  | Effects.MkCall _ (Effects.IndexUpsert _ _) => False
  | _ => True
  end.

(** The notice that [runRagWorkflow] appends to an answer of moderate
    confidence. *)
Definition CAUTION_NOTICE : string := "Caution: This answer has moderate confidence.".

(** The string holds no decimal digit. *)
Fixpoint noDigit (s : string) : bool :=
  match s with
  | EmptyString => true
  | String c r => (negb (Extraction.isDigit c) && noDigit r)%bool
  end.

(** The five texts of a registry entry are not blank. *)
Definition complete (item : Registry.DocumentRegistryItem) : bool :=
  forallb (fun field => Chunking.nonEmpty (trim field))
    [Registry.documentId item; Registry.fileName item; Registry.uploadedAt item;
     Registry.namespace item; Registry.tenantId item].

(** The entry as [toRegistryItem] reads it back: its texts trimmed. *)
Definition trimmed (item : Registry.DocumentRegistryItem) : Registry.DocumentRegistryItem :=
  {| Registry.documentId := trim (Registry.documentId item);
     Registry.fileName := trim (Registry.fileName item);
     Registry.uploadedAt := trim (Registry.uploadedAt item);
     Registry.namespace := trim (Registry.namespace item);
     Registry.tenantId := trim (Registry.tenantId item);
     Registry.chunkCount := Registry.chunkCount item |}.

(** The ids that a request names, as [resolveAskContext] reads them. *)
Definition namedIds (documentIds : list string) : list string :=
  filter Chunking.nonEmpty (map trim documentIds).

(** The event of a call that leaves the index [i] as it is. *)
Definition event {X} (i : Effects.Index) (c : Effects.Ext X) : Effects.Event :=
  {| Effects.call := Effects.MkCall X c; Effects.after := i |}.




(** The event of a request for the dense embeddings of [texts]. *)
Definition denseRequest (i : Effects.Index) (texts : list string) : Effects.Event :=
  event i (Effects.EmbedDense texts).

(** The string holds no dot. *)
Fixpoint noDot (s : string) : bool :=
  match s with
  | EmptyString => true
  | String c r => (negb (Ascii.eqb c ".") && noDot r)%bool
  end.

(** The message of the error for a file of the wrong type. *)
Definition unsupportedType (extension : string) : Effects.Exception :=
  Effects.DocIntelligenceError
    ("Unsupported file type '" ++ (if String.eqb extension "" then "unknown" else extension)
     ++ "'. Supported: pdf, docx, txt.") 400.

(** The entry that [uploadDocument] saves in the registry for the
    document of [p]. *)
Definition entryOf (env : Effects.Env) (p : Chunking.ChunkParams)
  : Registry.DocumentRegistryItem :=
  {| Registry.documentId := Chunking.documentId p;
     Registry.fileName := Chunking.fileName p;
     Registry.uploadedAt := Chunking.uploadedAt p;
     Registry.namespace := Service.buildNamespace env (Chunking.tenantId p);
     Registry.tenantId := Chunking.tenantId p;
     Registry.chunkCount := Z.of_nat (List.length (Chunking.createChunksFromPages p)) |}.

(** A block of the context shows [source]: its id, score and page, and
    its text, cut after 900 characters when it is longer. *)
Definition shows (block : Effects.ContextEntry) (source : SourceSnippet) : Prop :=
  Effects.ctx_chunk_id block = id source
  /\ Effects.ctx_score block = score source
  /\ Effects.ctx_page block = page_number (metadata source)
  /\ len (Effects.ctx_text block) <= 903
  /\ (len (snippet_text source) <= 900 -> Effects.ctx_text block = snippet_text source)
  /\ (900 < len (snippet_text source) ->
      exists rest, snippet_text source = slice (snippet_text source) 0 900 ++ rest
                   /\ Effects.ctx_text block = slice (snippet_text source) 0 900 ++ "...").

(** The pages that [uploadDocument] hands to the chunker for the parsed
    document [parsed]. *)
Definition uploadPages (parsed : Effects.ParsedDocumentPayload) : list PageText :=
  let fallbackText :=
    if String.eqb (Effects.markdownFull parsed) "" then Effects.textFull parsed
    else Effects.markdownFull parsed in
  if (0 <? List.length (Effects.parsed_pageTexts parsed))%nat
  then Effects.parsed_pageTexts parsed
  else [{| pageNumber := 1;
           text := if String.eqb fallbackText "" then "(empty document)" else fallbackText |}].

(** The record of the index for a chunk, as the store lists it. *)
Definition listed (chunk : ChunkRecord) : string * option DocumentMetadata :=
  (chunk_id chunk, Some (chunk_metadata chunk)).

(** A page that the chunker can use: a positive number and a text with
    no white space at either end. *)
Definition usablePage (page : PageText) : Prop :=
  0 < pageNumber page /\ ExtractionVocabulary.trimmedNonEmpty (text page).

(** The map that holds the snippets of [l] under their ids, in order. *)
Definition entries (l : list SourceSnippet) : Pool.JsMap := map (fun s => (id s, s)) l.

(** A string that is empty or shows something. *)
Definition emptyOrVisible (s : string) : Prop :=
  s = EmptyString \/ ExtractionVocabulary.allWhiteSpace s = false.

(** Orders of snippets by [chunk_number]. *)
Definition ascending (a b : SourceSnippet) : Prop :=
  chunk_number (metadata a) <= chunk_number (metadata b).

Definition increasing (a b : SourceSnippet) : Prop :=
  chunk_number (metadata a) < chunk_number (metadata b).

(** The snippet that stands for a chunk that was indexed. *)
Definition snippetOf (chunk : ChunkRecord) : SourceSnippet :=
  {| id := chunk_id chunk; score := 0%Q;
     snippet_text := chunk_text (chunk_metadata chunk);
     metadata := chunk_metadata chunk |}.

(** The text that [saveRegistryItem] has embedded for an entry. *)
Definition registryEmbeddingInput (item : Registry.DocumentRegistryItem) : string :=
  "document_id:" ++ Registry.documentId item ++ String Chunking.LF "file_name:"
    ++ Registry.fileName item ++ String Chunking.LF "uploaded_at:" ++ Registry.uploadedAt item.

(** The record that [saveRegistryItem] writes for an entry, with the
    embedding [embedding] that it got. *)
Definition registryRecord (item : Registry.DocumentRegistryItem)
    (embedding : option Effects.Vector) : Effects.VectorRecord :=
  {| Effects.record_id := Registry.toRegistryId (Registry.documentId item);
     Effects.dense := embedding;
     Effects.sparse := None;
     Effects.record_metadata := Effects.RegistryMeta
       {| Effects.record_type := "document_registry";
          Effects.reg_document_id := Registry.documentId item;
          Effects.reg_file_name := Registry.fileName item;
          Effects.reg_uploaded_at := Registry.uploadedAt item;
          Effects.reg_namespace := Registry.namespace item;
          Effects.reg_tenant_id := Registry.tenantId item;
          Effects.reg_chunk_count := Registry.chunkCount item |} |}.

(** The registry entry that the response of an upload describes, for
    the tenant [tenantId]. *)
Definition reportedEntry (resp : UploadResponse) (tenantId : string)
  : Registry.DocumentRegistryItem :=
  {| Registry.documentId := up_document_id resp;
     Registry.fileName := up_file_name resp;
     Registry.uploadedAt := up_uploaded_at resp;
     Registry.namespace := up_namespace resp;
     Registry.tenantId := tenantId;
     Registry.chunkCount := up_chunk_count resp |}.

(** A match that [queryHybrid] keeps: it has an id and metadata. *)
Definition usableMatch (m : Effects.ScoredMatch) : bool :=
  (negb (String.eqb (Effects.match_id m) "")
   && match Effects.match_metadata m with Some _ => true | None => false end)%bool.

(** The score of a match as the index gave it: [match.score ?? 0]. *)
Definition rawScore (m : Effects.ScoredMatch) : Q :=
  match Effects.match_score m with Some s => s | None => 0%Q end.

End ExtraVocabulary.

(** ** More sample data *)

Module ExtraSamples.

Definition twoPages : Chunking.ChunkParams :=
  {| Chunking.documentId := "doc-1";
     Chunking.tenantId := "tenant-demo";
     Chunking.fileName := "rate.txt";
     Chunking.uploadedAt := "2024-01-01T00:00:00.000Z";
     Chunking.pageTexts := [{| pageNumber := 1; text := "Shipper: ACME" |};
                            {| pageNumber := 2; text := "Rate: 1200 USD" |}];
     Chunking.targetChars := None;
     Chunking.overlapChars := None |}.

Definition secondChunk : ChunkRecord :=
  {| chunk_id := "doc-1#p2c1";
     chunk_body := "Rate: 1200 USD";
     chunk_metadata :=
       {| document_id := "doc-1"; tenant_id := "tenant-demo"; document_title := "rate.txt";
          source_file_name := "rate.txt"; uploaded_at := "2024-01-01T00:00:00.000Z";
          page_number := 2; chunk_number := 2; chunk_text := "Rate: 1200 USD" |} |}.



(** A string of [n] nines. *)
Fixpoint nines (n : nat) : string :=
  match n with
  | O => EmptyString
  | S n' => String "9" (nines n')
  end.

End ExtraSamples.

(** * Properties *)

(** ** Strings *)

Module StringFacts.
Import JsString.

Lemma length_append (a b : string) :
  String.length (a ++ b) = (String.length a + String.length b)%nat.
Proof. induction a as [|c a IH]; simpl; [reflexivity | now rewrite IH]. Qed.

Lemma len_append (a b : string) : len (a ++ b) = len a + len b.
Proof. unfold len. rewrite length_append. lia. Qed.

Lemma len_nonneg (s : string) : 0 <= len s.
Proof. unfold len. lia. Qed.

Lemma len_zero (s : string) : len s = 0 -> s = EmptyString.
Proof. destruct s; unfold len; simpl; [reflexivity | lia]. Qed.

Lemma substring_all (s : string) : substring 0 (String.length s) s = s.
Proof. induction s as [|c s IH]; simpl; [reflexivity | now rewrite IH]. Qed.

(** Cutting a string at [n] gives back the string. *)
Lemma substring_split (s : string) (n : nat) :
  (n <= String.length s)%nat ->
  s = substring 0 n s ++ substring n (String.length s - n) s.
Proof.
  revert n. induction s as [|c s IH]; intros n Hn; simpl in *.
  - destruct n; [reflexivity | lia].
  - destruct n as [|n]; simpl.
    + now rewrite substring_all.
    + f_equal. apply IH. lia.
Qed.

Lemma substring_length (s : string) (n m : nat) :
  (n + m <= String.length s)%nat -> String.length (substring n m s) = m.
Proof.
  revert n m. induction s as [|c s IH]; intros n m H; simpl in *.
  - destruct n, m; simpl; lia.
  - destruct n as [|n].
    + destruct m as [|m]; simpl; [reflexivity|]. f_equal. apply IH. simpl. lia.
    + apply IH. lia.
Qed.

(** [current.slice(Math.max(0, current.length - overlapChars))] is the
    end of [current]: its last [overlapChars] characters, all of it
    when it is shorter, nothing when [overlapChars] is negative. *)
Lemma trailing_slice (current : string) (overlapChars : Z) :
  exists head tail,
    current = head ++ tail
    /\ sliceFrom current (Z.max 0 (len current - overlapChars)) = tail
    /\ len tail = Z.max 0 (Z.min (len current) overlapChars).
Proof.
  pose proof (len_nonneg current) as Hl.
  set (from := Z.max 0 (len current - overlapChars)).
  set (a := Z.min from (len current)).
  assert (Ha : (Z.to_nat a <= String.length current)%nat) by (unfold a, len in *; lia).
  exists (substring 0 (Z.to_nat a) current),
         (substring (Z.to_nat a) (String.length current - Z.to_nat a) current).
  split; [now apply substring_split|]. split.
  - unfold sliceFrom, slice, relIndex.
    assert (Hf : (from <? 0) = false) by (apply Z.ltb_ge; unfold from; lia).
    assert (Hb : (len current <? 0) = false) by (apply Z.ltb_ge; lia).
    rewrite Hf, Hb. fold a. f_equal.
    unfold a, from, len in *. lia.
  - unfold len at 1. rewrite substring_length by lia.
    unfold a, from, len in *. lia.
Qed.

End StringFacts.

(** ** Chunking *)

Module ChunkingFacts.
Import JsString Chunking Vocabulary StringFacts.

Lemma len_sep : len sep = 2.
Proof. reflexivity. Qed.

Lemma len_candidate (current paragraph : string) :
  len (current ++ sep ++ paragraph) = len current + 2 + len paragraph.
Proof. rewrite !len_append, len_sep. lia. Qed.

Lemma not_extended (chunks : list string) (current : string) (rest : list string) :
  chunks <> (chunks ++ current :: rest)%list.
Proof.
  intro H. apply (f_equal (@List.length string)) in H.
  rewrite length_app in H. simpl in H. lia.
Qed.

(** What a step does to a non-empty buffer, by the length of the
    candidate. *)
Lemma chunkStep_fits (targetChars overlapChars : Z) chunks current paragraph :
  current <> EmptyString ->
  len current + 2 + len paragraph <= targetChars ->
  chunkStep targetChars overlapChars (chunks, current) paragraph
  = (chunks, current ++ sep ++ paragraph).
Proof.
  intros Hne Hfit. unfold chunkStep.
  destruct (len current =? 0) eqn:E.
  - apply Z.eqb_eq, len_zero in E. contradiction.
  - rewrite len_candidate. now apply Z.leb_le in Hfit as ->.
Qed.

Lemma chunkStep_overflows (targetChars overlapChars : Z) chunks current paragraph :
  current <> EmptyString ->
  targetChars < len current + 2 + len paragraph ->
  let seed :=
    seedAfterFlush (sliceFrom current (Z.max 0 (len current - overlapChars))) paragraph in
  chunkStep targetChars overlapChars (chunks, current) paragraph
  = if 3 * targetChars <? 2 * len seed
    then ((chunks ++ [current; slice seed 0 targetChars])%list,
          trim (sliceFrom seed (targetChars - overlapChars)))
    else ((chunks ++ [current])%list, seed).
Proof.
  intros Hne Hover seed. unfold chunkStep.
  destruct (len current =? 0) eqn:E.
  - apply Z.eqb_eq, len_zero in E. contradiction.
  - rewrite len_candidate. apply Z.leb_gt in Hover as ->.
    fold (seedAfterFlush (sliceFrom current (Z.max 0 (len current - overlapChars))) paragraph).
    fold seed. destruct (3 * targetChars <? 2 * len seed); [|reflexivity].
    now rewrite <- app_assoc.
Qed.

(** C5, as the code has it: a non-empty buffer is flushed before the
    paragraph is added if and only if the buffer, the two characters of
    the separator and the paragraph together exceed [targetChars]; when
    they fit, the paragraph joins the buffer after the separator.  After
    a flush the buffer restarts from the end of the flushed buffer (its
    last [overlapChars] characters), trimmed, followed by the separator
    and the paragraph, or from the paragraph alone when that end trims
    to nothing; this seed becomes the buffer unless it is longer than
    one and a half times [targetChars]. *)
Theorem chunk_flush_rule (targetChars overlapChars : Z) (chunks : list string)
    (current paragraph : string) :
  current <> EmptyString ->
  (flushes targetChars overlapChars chunks current paragraph
   <-> targetChars < len current + len sep + len paragraph)
  /\ (len current + len sep + len paragraph <= targetChars ->
      chunkStep targetChars overlapChars (chunks, current) paragraph
      = (chunks, current ++ sep ++ paragraph))
  /\ (flushes targetChars overlapChars chunks current paragraph ->
      exists head tail,
        current = head ++ tail
        /\ len tail = Z.max 0 (Z.min (len current) overlapChars)
        /\ (2 * len (seedAfterFlush tail paragraph) <= 3 * targetChars ->
            chunkStep targetChars overlapChars (chunks, current) paragraph
            = ((chunks ++ [current])%list, seedAfterFlush tail paragraph))).
Proof.
  intros Hne. rewrite len_sep.
  assert (Hiff : flushes targetChars overlapChars chunks current paragraph
                 <-> targetChars < len current + 2 + len paragraph).
  { split.
    - intros [rest Hrest].
      destruct (Z.lt_ge_cases targetChars (len current + 2 + len paragraph)) as [H|H];
        [exact H|].
      rewrite chunkStep_fits in Hrest by assumption. simpl in Hrest.
      now apply not_extended in Hrest.
    - intros Hover. unfold flushes.
      rewrite chunkStep_overflows by assumption.
      destruct (_ <? _); simpl; eauto. }
  split; [exact Hiff|]. split.
  - intros Hfit. now apply chunkStep_fits.
  - intros Hflush. apply Hiff in Hflush.
    destruct (trailing_slice current overlapChars) as (head & tail & Hcur & Htail & Hlen).
    exists head, tail. split; [exact Hcur|]. split; [exact Hlen|].
    intros Hsmall. rewrite chunkStep_overflows by assumption.
    rewrite Htail. now apply Z.ltb_ge in Hsmall as ->.
Qed.

Lemma chunk_flush_rule_witness :
  "aaa" <> EmptyString /\ 7 < len "aaa" + len sep + len "bbb"
  /\ flushes 7 2 [] "aaa" "bbb".
Proof.
  split; [discriminate|]. split; [reflexivity|].
  apply (proj1 (chunk_flush_rule 7 2 [] "aaa" "bbb" ltac:(discriminate))).
  reflexivity.
Defined.

(** C5 as the specification words it does not hold: with
    [targetChars = 7] the buffer ["aaa"] and the paragraph ["bbb"] have
    [3 + 3 <= 7] characters, yet the buffer is flushed, and the next
    buffer is not the two trailing characters followed directly by the
    paragraph. *)
Lemma chunk_flush_rule_counterexample :
  len "aaa" + len "bbb" <= 7
  /\ flushes 7 2 [] "aaa" "bbb"
  /\ snd (chunkStep 7 2 ([], "aaa") "bbb") = "aa" ++ sep ++ "bbb"
  /\ snd (chunkStep 7 2 ([], "aaa") "bbb") <> "aa" ++ "bbb".
Proof.
  split; [vm_compute; discriminate|]. split; [exists []; reflexivity|].
  split; [reflexivity | discriminate].
Qed.

(** The same page through the whole of [buildOverlappingChunks]. *)
Example two_short_paragraphs :
  buildOverlappingChunks ["aaa"; "bbb"] 7 2 = ["aaa"; "aa" ++ sep ++ "bbb"]
  /\ buildOverlappingChunks ["aaa"; "bbb"] 8 2 = ["aaa" ++ sep ++ "bbb"].
Proof. split; reflexivity. Qed.

End ChunkingFacts.

(** ** Numbers *)

Module NumberFacts.
Import JsNumber.
Local Open Scope Q_scope.

Lemma ltb_lt (a b : Q) : ltb a b = true <-> a < b.
Proof.
  unfold ltb. rewrite negb_true_iff. split.
  - intros H. apply Qnot_le_lt. intro Hle. apply Qle_bool_iff in Hle. congruence.
  - intros H. destruct (Qle_bool b a) eqn:E; [|reflexivity].
    apply Qle_bool_iff in E. exfalso. now apply (Qlt_not_le a b).
Qed.

Lemma ltb_ge (a b : Q) : ltb a b = false <-> b <= a.
Proof.
  unfold ltb. rewrite negb_false_iff. apply Qle_bool_iff.
Qed.

#[export] Instance ltb_proper : Proper (Qeq ==> Qeq ==> eq) ltb.
Proof. intros a a' Ha b b' Hb. unfold ltb. now rewrite Ha, Hb. Qed.

#[export] Instance clamp_proper : Proper (Qeq ==> Qeq ==> Qeq ==> Qeq) clamp.
Proof. intros v v' Hv lo lo' Hlo hi hi' Hhi. unfold clamp. now rewrite Hv, Hlo, Hhi. Qed.

Lemma clamp_mono (x y lo hi : Q) : x <= y -> clamp x lo hi <= clamp y lo hi.
Proof.
  intros H. unfold clamp.
  apply Q.max_le_compat_l, Q.min_le_compat_l, H.
Qed.

Lemma clamp_inside (x lo hi : Q) : lo <= x -> x <= hi -> clamp x lo hi == x.
Proof.
  intros Hlo Hhi. unfold clamp. rewrite (Q.min_r hi x Hhi). now apply Q.max_r.
Qed.

Lemma roundTo4 (x : Q) :
  roundTo x 4 = inject_Z (Qfloor (x * 10000 + (1 # 2))) / 10000.
Proof. reflexivity. Qed.

#[export] Instance roundTo_proper : Proper (Qeq ==> eq ==> Qeq) roundTo.
Proof.
  intros x y Hxy d d' <-. unfold roundTo, Math_round.
  assert (E : Qfloor (x * 10 ^ d + (1 # 2)) = Qfloor (y * 10 ^ d + (1 # 2)))
    by (apply Qfloor_comp; now rewrite Hxy).
  cbv zeta. now rewrite E.
Qed.

Lemma roundTo_mono (x y : Q) : x <= y -> roundTo x 4 <= roundTo y 4.
Proof.
  intros H. rewrite !roundTo4.
  apply Qmult_le_compat_r; [|discriminate].
  rewrite <- Zle_Qle. apply Qfloor_resp_le.
  apply Qplus_le_l. apply Qmult_le_compat_r; [exact H | discriminate].
Qed.

Lemma Qfloor_half (k : Z) : Qfloor (inject_Z k + (1 # 2)) = k.
Proof.
  assert (E : inject_Z k + (1 # 2) == Qmake (2 * k + 1)%Z 2).
  { unfold Qeq, Qplus, inject_Z. cbn [Qnum Qden]. lia. }
  rewrite (Qfloor_comp _ _ E). unfold Qfloor.
  symmetry. apply (Z.div_unique _ _ k 1); lia.
Qed.

(** A number with four decimals is its own rounding. *)
Lemma roundTo_fixed (k : Z) : roundTo (inject_Z k / 10000) 4 == inject_Z k / 10000.
Proof.
  rewrite roundTo4.
  assert (E : inject_Z k / 10000 * 10000 + (1 # 2) == inject_Z k + (1 # 2)) by field.
  now rewrite (Qfloor_comp _ _ E), Qfloor_half.
Qed.

Lemma roundTo_idempotent (x : Q) : roundTo (roundTo x 4) 4 == roundTo x 4.
Proof. rewrite (roundTo4 x). apply roundTo_fixed. Qed.

(** Rounding to four decimals moves a number by less than that. *)
Lemma roundTo_near (x : Q) : Qabs (roundTo x 4 - x) <= 1 # 10000.
Proof.
  rewrite roundTo4.
  pose proof (Qfloor_le (x * 10000 + (1 # 2))) as Hlo.
  pose proof (Qlt_floor (x * 10000 + (1 # 2))) as Hhi.
  rewrite inject_Z_plus in Hhi. change (inject_Z 1) with 1 in Hhi.
  set (k := inject_Z (Qfloor (x * 10000 + (1 # 2)))) in *.
  assert (E : k / 10000 - x == (k - x * 10000) / 10000) by field.
  rewrite E. apply Qabs_Qle_condition. split.
  - apply Qle_shift_div_l; [reflexivity|]. lra.
  - apply Qle_shift_div_r; [reflexivity|]. lra.
Qed.

End NumberFacts.

(** ** The sample points of the specification, on binary64 numbers *)

Module Binary64Facts.
#[local] Set Warnings "-inexact-float".
Local Open Scope float_scope.

(** [topScore = 0.9], [secondScore = 0.81], one citation out of one. *)
Example scenario_confidence :
  PrimFloat.eqb (Binary64.confidence 0.9 0.81 1 1) 0.591 = true.
Proof. vm_compute. reflexivity. Qed.

(** Eleven fields, all of them [null], and a self-assessed confidence
    of 1. *)
Example scenario_all_null :
  PrimFloat.eqb (Binary64.extractionConfidence 1 0 11) 0.65 = true.
Proof. vm_compute. reflexivity. Qed.

(** The cap of the grounding gate survives the final rounding. *)
Example scenario_cap :
  PrimFloat.eqb (Binary64.roundTo (Binary64.Math_min (Binary64.confidence 0.95 0.95 1 1) 0.35))
                0.35 = true.
Proof. vm_compute. reflexivity. Qed.

Example round_half_up :
  PrimFloat.eqb (Binary64.Math_round 2.5) 3 = true
  /\ PrimFloat.eqb (Binary64.Math_round (-2.5)) (-2) = true.
Proof. split; vm_compute; reflexivity. Qed.

End Binary64Facts.

(** ** The evidence pool *)

Module PoolFacts.
Import JsNumber Pool Vocabulary NumberFacts.
Local Open Scope Q_scope.

(** *** The map [byId] *)

Lemma mapGet_Some (m : JsMap) k v : mapGet m k = Some v -> In (k, v) m.
Proof.
  induction m as [|[k' v'] r IH]; simpl; [discriminate|].
  destruct (String.eqb k' k) eqn:E.
  - apply String.eqb_eq in E. intros [= <-]. left. now subst.
  - intros H. right. now apply IH.
Qed.

Lemma mapGet_None (m : JsMap) k : mapGet m k = None -> ~ In k (map fst m).
Proof.
  induction m as [|[k' v'] r IH]; simpl; [tauto|].
  destruct (String.eqb k' k) eqn:E; [discriminate|].
  apply String.eqb_neq in E. intros H [Hk|Hk]; [contradiction|]. now apply IH.
Qed.

Lemma mapSet_here (m : JsMap) k v : In (k, v) (mapSet m k v).
Proof.
  induction m as [|[k' v'] r IH]; simpl; [now left|].
  destruct (String.eqb k' k); [now left | now right].
Qed.

Lemma mapSet_keep (m : JsMap) k v k' v' :
  In (k', v') m -> k' <> k -> In (k', v') (mapSet m k v).
Proof.
  induction m as [|[k0 v0] r IH]; simpl; [tauto|].
  intros [H|H] Hne.
  - injection H as -> ->. apply String.eqb_neq in Hne. rewrite Hne. now left.
  - destruct (String.eqb k0 k); right; [exact H | now apply IH].
Qed.

Lemma mapSet_from (m : JsMap) k v k' v' :
  In (k', v') (mapSet m k v) -> (k' = k /\ v' = v) \/ In (k', v') m.
Proof.
  induction m as [|[k0 v0] r IH]; simpl.
  - intros [[= <- <-]|[]]. now left.
  - destruct (String.eqb k0 k).
    + intros [[= <- <-]|H]; [now left | now right; right].
    + intros [H|H]; [now right; left|].
      destruct (IH H) as [?|?]; [now left | now right; right].
Qed.

Lemma mapSet_keys (m : JsMap) k v :
  NoDup (map fst m) -> NoDup (map fst (mapSet m k v)).
Proof.
  induction m as [|[k0 v0] r IH]; simpl; intros Hnd.
  - constructor; [tauto | constructor].
  - inversion Hnd as [|? ? Hnotin Hr]; subst.
    destruct (String.eqb k0 k) eqn:E; simpl.
    + apply String.eqb_eq in E. subst. now constructor.
    + apply String.eqb_neq in E. constructor; [|now apply IH].
      intros Hin. apply in_map_iff in Hin as [[k1 v1] [Hk Hin]]. simpl in Hk. subst k1.
      apply mapSet_from in Hin as [[Hk _]|Hin]; [contradiction|].
      apply Hnotin. apply in_map_iff. now exists (k0, v1).
Qed.

Lemma keys_functional (m : JsMap) k v v' :
  NoDup (map fst m) -> In (k, v) m -> In (k, v') m -> v = v'.
Proof.
  induction m as [|[k0 v0] r IH]; simpl; [tauto|].
  intros Hnd H H'. inversion Hnd as [|? ? Hnotin Hr]; subst.
  assert (Hkey : forall w, In (k0, w) r -> False).
  { intros w Hw. apply Hnotin. apply in_map_iff. now exists (k0, w). }
  destruct H as [H|H], H' as [H'|H'].
  - congruence.
  - injection H as -> ->. exfalso. eauto.
  - injection H' as -> ->. exfalso. eauto.
  - now apply IH.
Qed.

Lemma keyed_ids (m : JsMap) : keyed m -> map id (mapValues m) = map fst m.
Proof.
  unfold mapValues. induction m as [|[k v] r IH]; simpl; intros Hk; [reflexivity|].
  f_equal.
  - apply Hk. now left.
  - apply IH. intros k' v' H. apply Hk. now right.
Qed.

(** *** One step of the merging loop *)

Lemma mergeStep_from (m : JsMap) s k v :
  In (k, v) (mergeStep m s) -> In (k, v) m \/ (k = id s /\ v = s).
Proof.
  unfold mergeStep. destruct (mapGet m (id s)) as [current|].
  - destruct (ltb (score current) (score s)); [|now left].
    intros H. apply mapSet_from in H. tauto.
  - intros H. apply mapSet_from in H. tauto.
Qed.

Lemma mergeStep_keys (m : JsMap) s :
  NoDup (map fst m) -> NoDup (map fst (mergeStep m s)).
Proof.
  intros H. unfold mergeStep. destruct (mapGet m (id s)) as [current|].
  - destruct (ltb (score current) (score s)); [now apply mapSet_keys | exact H].
  - now apply mapSet_keys.
Qed.

Lemma mergeStep_keyed (m : JsMap) s : keyed m -> keyed (mergeStep m s).
Proof.
  intros Hk k v H. apply mergeStep_from in H as [H|[-> ->]]; [now apply Hk | reflexivity].
Qed.

(** The source just read is in the map, or a better one with its id. *)
Lemma mergeStep_new (m : JsMap) s :
  exists v, In (id s, v) (mergeStep m s) /\ score s <= score v.
Proof.
  unfold mergeStep. destruct (mapGet m (id s)) as [current|] eqn:G.
  - destruct (ltb (score current) (score s)) eqn:L.
    + exists s. split; [apply mapSet_here | apply Qle_refl].
    + exists current. split; [now apply mapGet_Some | now apply ltb_ge].
  - exists s. split; [apply mapSet_here | apply Qle_refl].
Qed.

(** An entry is only ever replaced by a better one. *)
Lemma mergeStep_old (m : JsMap) s k v :
  NoDup (map fst m) -> In (k, v) m ->
  exists v', In (k, v') (mergeStep m s) /\ score v <= score v'.
Proof.
  intros Hnd Hin. unfold mergeStep.
  destruct (String.eqb k (id s)) eqn:E.
  - apply String.eqb_eq in E. subst k.
    destruct (mapGet m (id s)) as [current|] eqn:G.
    + apply mapGet_Some in G. assert (v = current) by eauto using keys_functional. subst.
      destruct (ltb (score current) (score s)) eqn:L.
      * exists s. split; [apply mapSet_here|]. apply Qlt_le_weak. now apply ltb_lt.
      * exists current. split; [exact G | apply Qle_refl].
    + apply mapGet_None in G. exfalso. apply G. apply in_map_iff. now exists (id s, v).
  - apply String.eqb_neq in E. exists v. split; [|apply Qle_refl].
    destruct (mapGet m (id s)) as [current|].
    + destruct (ltb (score current) (score s)); [now apply mapSet_keep | exact Hin].
    + now apply mapSet_keep.
Qed.

(** The map after the whole loop. *)
Lemma merge_loop (l : list SourceSnippet) :
  let byId := fold_left mergeStep l [] in
  NoDup (map fst byId)
  /\ keyed byId
  /\ (forall k v, In (k, v) byId -> In v l)
  /\ (forall s, In s l -> exists v, In (id s, v) byId /\ score s <= score v).
Proof.
  induction l as [|s l IH] using rev_ind; simpl.
  - split; [constructor|]. split; [intros k v []|]. split; [intros k v []|intros s []].
  - rewrite fold_left_app. simpl.
    destruct IH as (Hnd & Hk & Hfrom & Hall).
    split; [now apply mergeStep_keys|]. split; [now apply mergeStep_keyed|]. split.
    + intros k v H. apply in_or_app.
      apply mergeStep_from in H as [H|[_ ->]]; [left; eauto | right; now left].
    + intros s' H. apply in_app_or in H as [H|[<-|[]]].
      * destruct (Hall s' H) as (v & Hv & Hle).
        destruct (mergeStep_old _ s _ _ Hnd Hv) as (v' & Hv' & Hle').
        exists v'. split; [exact Hv' | eapply Qle_trans; eassumption].
      * apply mergeStep_new.
Qed.

(** *** The stable sort *)

Lemma sortInsert_perm cmp x l : Permutation (sortInsert cmp x l) (x :: l).
Proof.
  induction l as [|y r IH]; simpl; [reflexivity|].
  destruct (ltb 0 (cmp x y)); [|reflexivity].
  rewrite IH. apply perm_swap.
Qed.

Lemma sort_perm cmp l : Permutation (sort cmp l) l.
Proof.
  unfold sort. induction l as [|x l IH]; simpl; [reflexivity|].
  rewrite sortInsert_perm. now constructor.
Qed.

Lemma byScoreDesc_pos x y : ltb 0 (byScoreDesc x y) = true <-> score x < score y.
Proof.
  unfold byScoreDesc. rewrite ltb_lt. symmetry. apply Qlt_minus_iff.
Qed.

Lemma sortInsert_sorted x l :
  StronglySorted desc l -> StronglySorted desc (sortInsert byScoreDesc x l).
Proof.
  induction 1 as [|y r Hr IH Hy]; simpl.
  - constructor; constructor.
  - destruct (ltb 0 (byScoreDesc x y)) eqn:E.
    + apply byScoreDesc_pos in E. constructor; [exact IH|].
      apply (Permutation_Forall (Permutation_sym (sortInsert_perm byScoreDesc x r))).
      constructor; [now apply Qlt_le_weak | exact Hy].
    + assert (Hxy : score y <= score x).
      { apply Qnot_lt_le. intro H. apply byScoreDesc_pos in H. congruence. }
      constructor; [now constructor|].
      constructor; [exact Hxy|].
      eapply Forall_impl; [|exact Hy]. intros z Hz. unfold desc in *.
      eapply Qle_trans; eassumption.
Qed.

Lemma sort_sorted l : StronglySorted desc (sort byScoreDesc l).
Proof.
  unfold sort. induction l as [|x l IH]; simpl; [constructor | now apply sortInsert_sorted].
Qed.

(** What [slice(0, limit)] keeps is above what it drops. *)
Lemma sorted_cut (n : nat) (l : list SourceSnippet) :
  StronglySorted desc l ->
  StronglySorted desc (firstn n l)
  /\ forall a b, In a (firstn n l) -> In b (skipn n l) -> desc a b.
Proof.
  intros H. revert n. induction H as [|x r Hr IH Hx]; intros n.
  - rewrite firstn_nil, skipn_nil. split; [constructor | intros a b []].
  - destruct n as [|n]; simpl.
    + split; [constructor | intros a b []].
    + destruct (IH n) as [Hs Hcut]. split.
      * constructor; [exact Hs|].
        apply Forall_forall. intros z Hz. rewrite Forall_forall in Hx.
        apply Hx. rewrite <- (firstn_skipn n r). apply in_or_app. now left.
      * intros a b [<-|Ha] Hb; [|now apply Hcut].
        rewrite Forall_forall in Hx. apply Hx.
        rewrite <- (firstn_skipn n r). apply in_or_app. now right.
Qed.

Lemma same_id_same_entry (l : list SourceSnippet) a b :
  NoDup (map id l) -> In a l -> In b l -> id a = id b -> a = b.
Proof.
  induction l as [|x l IH]; simpl; [tauto|].
  intros Hnd Ha Hb E. inversion Hnd as [|? ? Hnotin Hl]; subst.
  destruct Ha as [->|Ha], Hb as [->|Hb]; [reflexivity| | |now apply IH].
  - exfalso. apply Hnotin. rewrite E. now apply in_map.
  - exfalso. apply Hnotin. rewrite <- E. now apply in_map.
Qed.

(** *** [mergeSources] *)

Lemma disjoint_halves {A} (l1 l2 : list A) a :
  NoDup (l1 ++ l2) -> In a l1 -> In a l2 -> False.
Proof.
  induction l1 as [|x l1 IH]; simpl; [tauto|].
  intros Hnd [->|H1] H2; inversion Hnd as [|? ? Hnotin Hrest]; subst.
  - apply Hnotin. apply in_or_app. now right.
  - now apply IH.
Qed.

Lemma in_firstn {A} (n : nat) (l : list A) a : In a (firstn n l) -> In a l.
Proof. intros H. rewrite <- (firstn_skipn n l). apply in_or_app. now left. Qed.

Lemma in_skipn {A} (n : nat) (l : list A) a : In a (skipn n l) -> In a l.
Proof. intros H. rewrite <- (firstn_skipn n l). apply in_or_app. now right. Qed.

Lemma in_cut {A} (n : nat) (l : list A) a :
  In a l -> In a (firstn n l) \/ In a (skipn n l).
Proof. intros H. rewrite <- (firstn_skipn n l) in H. now apply in_app_or in H. Qed.

Lemma cut_full {A} (n : nat) (l : list A) a :
  In a (skipn n l) -> List.length (firstn n l) = n.
Proof.
  intros H. apply firstn_length_le.
  assert (List.length (skipn n l) <> 0)%nat by (destruct (skipn n l); [contradiction | discriminate]).
  rewrite length_skipn in *. lia.
Qed.

(** The sorted values of the map, before the cut. *)
Lemma merged_sorted (existing incoming : list SourceSnippet) :
  let all := sort byScoreDesc (mapValues (fold_left mergeStep (existing ++ incoming)%list [])) in
  NoDup (map id all)
  /\ StronglySorted desc all
  /\ (forall e, In e all -> In e (existing ++ incoming)%list)
  /\ (forall s, In s (existing ++ incoming)%list ->
       exists e, In e all /\ id e = id s /\ score s <= score e).
Proof.
  destruct (merge_loop (existing ++ incoming)%list) as (Hnd & Hk & Hfrom & Hall).
  set (byId := fold_left mergeStep (existing ++ incoming)%list []) in *.
  intros all.
  assert (Hperm : Permutation all (mapValues byId)) by apply sort_perm.
  split; [|split; [apply sort_sorted|split]].
  - apply (Permutation_NoDup (Permutation_map id (Permutation_sym Hperm))).
    now rewrite keyed_ids.
  - intros e He. apply (Permutation_in _ Hperm) in He.
    apply in_map_iff in He as [[k v] [<- Hin]]. eauto.
  - intros s Hs. destruct (Hall s Hs) as (v & Hv & Hle).
    exists v. split; [|split; [now apply Hk | exact Hle]].
    apply (Permutation_in _ (Permutation_sym Hperm)).
    apply in_map_iff. now exists (id s, v).
Qed.

(** What one merge guarantees. *)
Lemma merge_spec (existing incoming : list SourceSnippet) (limit : nat) :
  let pool := mergeSources existing incoming limit in
  NoDup (map id pool)
  /\ (List.length pool <= limit)%nat
  /\ StronglySorted desc pool
  /\ (forall e, In e pool -> In e (existing ++ incoming)%list)
  /\ (forall s, In s (existing ++ incoming)%list ->
       (exists e, In e pool /\ id e = id s /\ score s <= score e)
       \/ (~ In (id s) (map id pool)
           /\ List.length pool = limit
           /\ forall e, In e pool -> score s <= score e)).
Proof.
  unfold mergeSources.
  destruct (merged_sorted existing incoming) as (Hnd & Hsorted & Hfrom & Hall).
  set (all := sort byScoreDesc _) in *. cbv zeta.
  destruct (sorted_cut limit all Hsorted) as [Hs Hcut].
  assert (Hsplit : NoDup (map id (firstn limit all) ++ map id (skipn limit all))).
  { rewrite <- map_app, firstn_skipn. exact Hnd. }
  split; [now apply NoDup_app_remove_r in Hsplit|].
  split; [apply firstn_le_length|]. split; [exact Hs|]. split.
  - intros e He. apply Hfrom. now apply in_firstn in He.
  - intros s Hin. destruct (Hall s Hin) as (v & Hv & Hid & Hle).
    destruct (in_cut limit all v Hv) as [Hkept|Hdropped].
    + left. now exists v.
    + right. split; [|split].
      * intros Hids. apply (disjoint_halves _ _ (id s) Hsplit Hids).
        rewrite <- Hid. now apply in_map.
      * now apply (cut_full limit all v).
      * intros e He. apply Qle_trans with (score v); [exact Hle|].
        now apply (Hcut e v).
Qed.

(** A full pool whose scores are all at least [v] stays so. *)
Lemma merge_floor (existing incoming : list SourceSnippet) (limit : nat) (v : Q) :
  NoDup (map id existing) ->
  List.length existing = limit ->
  (forall e, In e existing -> v <= score e) ->
  let pool := mergeSources existing incoming limit in
  List.length pool = limit /\ forall e, In e pool -> v <= score e.
Proof.
  intros Hnd Hlen Hfloor. unfold mergeSources.
  destruct (merged_sorted existing incoming) as (HndAll & Hsorted & Hfrom & Hall).
  set (all := sort byScoreDesc _) in *. cbv zeta.
  destruct (sorted_cut limit all Hsorted) as [_ Hcut].
  assert (Hids : incl (map id existing) (map id all)).
  { intros k Hk. apply in_map_iff in Hk as (q & <- & Hq).
    destruct (Hall q (in_or_app _ _ _ (or_introl Hq))) as (m & Hm & Hid & _).
    rewrite <- Hid. now apply in_map. }
  assert (Hlong : (limit <= List.length all)%nat).
  { rewrite <- Hlen, <- (length_map id existing), <- (length_map id all).
    now apply NoDup_incl_length. }
  split; [now apply firstn_length_le|].
  intros e He. destruct (Qlt_le_dec (score e) v) as [Hlow|Hok]; [exfalso | exact Hok].
  assert (Hkept : forall q, In q existing ->
            exists m, In m (firstn limit all) /\ id m = id q /\ v <= score m).
  { intros q Hq. destruct (Hall q (in_or_app _ _ _ (or_introl Hq))) as (m & Hm & Hid & Hle).
    assert (Hvm : v <= score m) by (eapply Qle_trans; [apply (Hfloor q Hq) | exact Hle]).
    exists m. split; [|split; assumption].
    destruct (in_cut limit all m Hm) as [H|H]; [exact H|].
    exfalso. apply (Qlt_not_le _ _ Hlow).
    apply Qle_trans with (score m); [exact Hvm | now apply (Hcut e m)]. }
  assert (Hnew : ~ In (id e) (map id existing)).
  { intros Hin. apply in_map_iff in Hin as (q & Hid & Hq).
    destruct (Hkept q Hq) as (m & Hm & Hidm & Hvm).
    assert (m = e).
    { apply (same_id_same_entry all);
        [exact HndAll | now apply in_firstn in Hm | now apply in_firstn in He | congruence]. }
    subst m. now apply (Qlt_not_le _ _ Hlow). }
  assert (Hincl : incl (id e :: map id existing) (map id (firstn limit all))).
  { intros k [<-|Hk]; [now apply in_map|].
    apply in_map_iff in Hk as (q & <- & Hq).
    destruct (Hkept q Hq) as (m & Hm & Hidm & _). rewrite <- Hidm. now apply in_map. }
  apply NoDup_incl_length in Hincl; [|now constructor].
  simpl in Hincl. rewrite !length_map, Hlen in Hincl.
  pose proof (firstn_le_length limit all). lia.
Qed.

(** *** The pool across the retrieval calls *)

Lemma gather_snoc (batches : list (list SourceSnippet)) (sources : list SourceSnippet) :
  gather (batches ++ [sources]) = mergeSources (gather batches) sources MAX_SOURCES_IN_STATE.
Proof. unfold gather. now rewrite fold_left_app. Qed.

Lemma invariant_step (history pool incoming : list SourceSnippet) :
  PoolInvariant history pool ->
  PoolInvariant (history ++ incoming) (mergeSources pool incoming MAX_SOURCES_IN_STATE).
Proof.
  intros (Hnd & Hlen & Hsorted & Hfrom & Hmax & Hout).
  destruct (merge_spec pool incoming MAX_SOURCES_IN_STATE) as (N & L & S & F & A).
  set (next := mergeSources pool incoming MAX_SOURCES_IN_STATE) in *. cbv zeta in *.
  (* a snippet of the history whose id the pool does not hold *)
  assert (Hfloor : forall h, In h history -> ~ In (id h) (map id pool) ->
            List.length next = MAX_SOURCES_IN_STATE
            /\ forall e, In e next -> score h <= score e).
  { intros h Hh Hnot. destruct (Hout h Hh Hnot) as [Hfull Hlow].
    now apply merge_floor. }
  (* a snippet of the history whose id the pool holds *)
  assert (Hheld : forall h q, In h history -> In q pool -> id q = id h ->
            (exists e, In e next /\ id e = id h /\ score h <= score e)
            \/ (~ In (id h) (map id next)
                /\ List.length next = MAX_SOURCES_IN_STATE
                /\ forall e, In e next -> score h <= score e)).
  { intros h q Hh Hq Hid. pose proof (Hmax h q Hh Hq Hid) as Hle.
    destruct (A q (in_or_app _ _ _ (or_introl Hq))) as [(e & He & Hide & Hqe)|(Hno & Hfull & Hlow)].
    - left. exists e. split; [exact He|]. split; [congruence|].
      eapply Qle_trans; eassumption.
    - right. rewrite <- Hid. split; [exact Hno|]. split; [exact Hfull|].
      intros e He. eapply Qle_trans; [exact Hle | now apply Hlow]. }
  (* every snippet seen so far *)
  assert (Hany : forall h, In h (history ++ incoming)%list ->
            (exists e, In e next /\ id e = id h /\ score h <= score e)
            \/ (~ In (id h) (map id next)
                /\ List.length next = MAX_SOURCES_IN_STATE
                /\ forall e, In e next -> score h <= score e)).
  { intros h Hh. apply in_app_or in Hh as [Hh|Hh].
    - destruct (in_dec string_dec (id h) (map id pool)) as [Hin|Hnot].
      + apply in_map_iff in Hin as (q & Hid & Hq). now apply (Hheld h q).
      + destruct (Hfloor h Hh Hnot) as [Hfull Hlow].
        destruct (in_dec string_dec (id h) (map id next)) as [Hin'|Hnot'].
        * apply in_map_iff in Hin' as (e & Hid & He). left. exists e. auto.
        * right. auto.
    - apply A. apply in_or_app. now right. }
  split; [exact N|]. split; [exact L|]. split; [exact S|]. split; [|split].
  - intros e He. apply F in He. apply in_or_app.
    apply in_app_or in He as [He|He]; [left; now apply Hfrom | now right].
  - intros h e Hh He Hid.
    destruct (Hany h Hh) as [(e' & He' & Hid' & Hle)|(Hno & _)].
    + assert (e' = e) by (apply (same_id_same_entry next); auto; congruence).
      now subst.
    + exfalso. apply Hno. rewrite <- Hid. now apply in_map.
  - intros h Hh Hnot.
    destruct (Hany h Hh) as [(e' & He' & Hid' & Hle)|(_ & Hfull & Hlow)].
    + exfalso. apply Hnot. rewrite <- Hid'. now apply in_map.
    + now split.
Qed.

Lemma gather_invariant (batches : list (list SourceSnippet)) :
  PoolInvariant (List.concat batches) (gather batches).
Proof.
  induction batches as [|sources batches IH] using rev_ind.
  - unfold gather, PoolInvariant. simpl.
    split; [constructor|]. split; [unfold MAX_SOURCES_IN_STATE; lia|].
    split; [constructor|]. split; [intros e []|]. split; [intros h e []|intros h []].
  - rewrite gather_snoc, concat_app. simpl. rewrite app_nil_r.
    now apply invariant_step.
Qed.

(** The first entry of a pool in descending order has its top score. *)
Lemma sorted_head (pool : list SourceSnippet) (top : SourceSnippet) (rest : list SourceSnippet) :
  StronglySorted desc pool -> pool = top :: rest ->
  forall e, In e pool -> score e <= score top.
Proof.
  intros Hs -> e [<-|He]; [apply Qle_refl|].
  inversion Hs as [|? ? _ Hall]; subst. rewrite Forall_forall in Hall. now apply Hall.
Qed.

Lemma merge_same_id_twice (a b : SourceSnippet) :
  id a = id b ->
  gather [[a]; [b]] = [if ltb (score a) (score b) then b else a].
Proof.
  intros Hid. unfold gather, mergeSources, mergeStep. simpl.
  rewrite <- Hid, String.eqb_refl.
  destruct (ltb (score a) (score b)); simpl; now rewrite ?String.eqb_refl.
Qed.

(** C4.  After any sequence of retrieval calls the evidence pool holds
    at most one entry per snippet id and at most 16 entries; every entry
    is a snippet that some call returned, and no call ever returned a
    higher score for its id, so the entry holds the maximum score ever
    observed for that id; a snippet that was returned and whose id is
    not in the pool was evicted from a full pool, all of whose entries
    score at least as much.  In particular merging the same id twice
    leaves one entry, with the larger of the two scores. *)
Theorem pool_invariant (batches : list (list SourceSnippet)) :
  let pool := gather batches in
  NoDup (map id pool)
  /\ (List.length pool <= 16)%nat
  /\ (forall e, In e pool ->
       In e (List.concat batches)
       /\ forall h, In h (List.concat batches) -> id h = id e -> score h <= score e)
  /\ (forall h, In h (List.concat batches) -> ~ In (id h) (map id pool) ->
       List.length pool = 16%nat /\ forall e, In e pool -> score h <= score e)
  /\ (forall a b, id a = id b ->
       exists e, gather [[a]; [b]] = [e]
                 /\ id e = id a /\ score e == Qmax (score a) (score b)).
Proof.
  destruct (gather_invariant batches) as (Hnd & Hlen & _ & Hfrom & Hmax & Hout).
  cbv zeta. split; [exact Hnd|]. split; [exact Hlen|]. split; [|split].
  - intros e He. split; [now apply Hfrom|]. intros h Hh Hid. now apply (Hmax h e).
  - exact Hout.
  - intros a b Hid. rewrite (merge_same_id_twice a b Hid).
    destruct (ltb (score a) (score b)) eqn:E.
    + exists b. split; [reflexivity|]. split; [now symmetry|].
      apply ltb_lt in E. symmetry. apply Q.max_r. now apply Qlt_le_weak.
    + exists a. split; [reflexivity|]. split; [reflexivity|].
      apply ltb_ge in E. symmetry. now apply Q.max_l.
Qed.

End PoolFacts.

(** ** The confidence of an answer *)

Module ConfidenceFacts.
#[local] Set Warnings "-inexact-float".
Import JsNumber Pool Vocabulary NumberFacts PoolFacts.
Local Open Scope Q_scope.

Lemma validCitations_found (pool : list SourceSnippet) (claimed : list string) :
  validCitations pool claimed = citationsFound pool claimed.
Proof.
  unfold validCitations, citationsFound. f_equal. apply filter_ext. intros c.
  unfold setHas, sourceIds. induction pool as [|s pool IH]; simpl; [reflexivity|].
  now rewrite IH, String.eqb_sym.
Qed.

Lemma ofNat_le (a b : nat) : (a <= b)%nat -> ofNat a <= ofNat b.
Proof. intros H. unfold ofNat. rewrite <- Zle_Qle. lia. Qed.

Lemma ofNat_pos (n : nat) : (0 < n)%nat -> 0 < ofNat n.
Proof. intros H. unfold ofNat. change 0 with (inject_Z 0). rewrite <- Zlt_Qlt. lia. Qed.

(** A share of the claimed citations needs no clamping. *)
Lemma citation_share (found total : nat) :
  (found <= total)%nat -> (0 < total)%nat ->
  clamp (ofNat found / ofNat total) 0 1 == ofNat found / ofNat total.
Proof.
  intros Hle Hpos. pose proof (ofNat_pos total Hpos) as Hp.
  apply clamp_inside.
  - apply Qle_shift_div_l; [exact Hp|]. rewrite Qmult_0_l.
    change 0 with (ofNat 0). apply ofNat_le. lia.
  - apply Qle_shift_div_r; [exact Hp|]. rewrite Qmult_1_l. now apply ofNat_le.
Qed.

Lemma citationSignal_share (pool : list SourceSnippet) (claimed : list string) :
  citationSignal pool claimed
  == if (0 <? List.length claimed)%nat
     then ofNat (citationsFound pool claimed) / ofNat (List.length claimed) else 0.
Proof.
  unfold citationSignal. rewrite validCitations_found.
  destruct (0 <? List.length claimed)%nat eqn:E; [|reflexivity].
  apply Nat.ltb_lt in E. apply citation_share; [|exact E].
  unfold citationsFound. apply filter_length_le.
Qed.




Lemma retrievalSignal_mono (p1 p2 : list SourceSnippet) :
  topScore p1 <= topScore p2 -> retrievalSignal p1 <= retrievalSignal p2.
Proof.
  intros H. unfold retrievalSignal. apply clamp_mono.
  unfold Qdiv. apply Qmult_le_compat_r; [exact H | discriminate].
Qed.

(** C6.  With the agreement signal and the citation signal held fixed,
    the confidence does not decrease when the top score grows within
    [0, 2.5]. *)
Theorem confidence_monotone (p1 p2 : list SourceSnippet) (c1 c2 : list string) :
  agreementSignal p1 == agreementSignal p2 ->
  citationSignal p1 c1 == citationSignal p2 c2 ->
  0 <= topScore p1 -> topScore p1 <= topScore p2 -> topScore p2 <= 2.5 ->
  calculateConfidence p1 c1 <= calculateConfidence p2 c2.
Proof.
  intros Ha Hc _ Hle _. unfold calculateConfidence. apply roundTo_mono.
  rewrite Ha, Hc. apply Qplus_le_l, Qplus_le_l.
  apply Qmult_le_l; [reflexivity|]. now apply retrievalSignal_mono.
Qed.

Lemma confidence_monotone_witness :
  calculateConfidence [Samples.snippet "a" 1] ["a"]
  <= calculateConfidence [Samples.snippet "b" 2] ["b"].
Proof.
  apply confidence_monotone; vm_compute; try reflexivity; discriminate.
Defined.

End ConfidenceFacts.

(** ** The monad of the outside calls *)

Module MonadFacts.
Import Effects RunVocabulary.

Lemma bind_inr {A B} (m : M A) (k : A -> M B) env o w w' b :
  bind m k env o w = (w', inr b) ->
  exists w1 a, m env o w = (w1, inr a) /\ k a env o w1 = (w', inr b).
Proof.
  unfold bind. destruct (m env o w) as [w1 [e|a]]; [discriminate|]. eauto.
Qed.

Lemma ret_inr {A} (a : A) env o w w' b :
  ret a env o w = (w', inr b) -> w' = w /\ b = a.
Proof. unfold ret. intros [= -> ->]. now split. Qed.

Lemma extCall_inr {X} (c : Ext X) env o w w' x :
  extCall c env o w = (w', inr x) ->
  w' = record w c (index w) /\ o X (trace w) c = inr x.
Proof. unfold extCall. intros [= <- H]. now split. Qed.

Lemma bind_run {A B} (m : M A) (k : A -> M B) env o w :
  bind m k env o w
  = match m env o w with
    | (w1, inl e) => (w1, inl e)
    | (w1, inr a) => k a env o w1
    end.
Proof. reflexivity. Qed.

Lemma getEnv_run env o w : getEnv env o w = (w, inr env).
Proof. reflexivity. Qed.

Lemma quiet_ret {A} Q (a : A) : Quiet Q (ret a).
Proof.
  intros env o w w' r [= <- <-]. split; [reflexivity|].
  exists []. now rewrite app_nil_r.
Qed.

Lemma quiet_throw {A} Q e : Quiet Q (@throw A e).
Proof.
  intros env o w w' r [= <- <-]. split; [reflexivity|].
  exists []. now rewrite app_nil_r.
Qed.

Lemma quiet_getEnv Q : Quiet Q getEnv.
Proof.
  intros env o w w' r [= <- <-]. split; [reflexivity|].
  exists []. now rewrite app_nil_r.
Qed.

Lemma quiet_extCall {X} (Q : Call -> Prop) (c : Ext X) : Q (MkCall X c) -> Quiet Q (extCall c).
Proof.
  intros HQ env o w w' r [= <- <-]. split; [reflexivity|].
  eexists. split; [reflexivity|]. constructor; [now split | constructor].
Qed.

Lemma quiet_bind {A B} Q (m : M A) (k : A -> M B) :
  Quiet Q m -> (forall a, Quiet Q (k a)) -> Quiet Q (bind m k).
Proof.
  intros Hm Hk env o w w' r H. unfold bind in H.
  destruct (m env o w) as [w1 [e|a]] eqn:E.
  - injection H as <- <-. eapply Hm, E.
  - destruct (Hm _ _ _ _ _ E) as (Hi & ev1 & Ht & Hf).
    destruct (Hk a _ _ _ _ _ H) as (Hi' & ev2 & Ht' & Hf').
    split; [congruence|]. exists (ev1 ++ ev2)%list.
    split; [now rewrite Ht', Ht, app_assoc|].
    apply Forall_app. split; [exact Hf|]. now rewrite Hi in Hf'.
Qed.

Lemma quiet_tryCatch {A} Q (m h : M A) : Quiet Q m -> Quiet Q h -> Quiet Q (tryCatch m h).
Proof.
  intros Hm Hh env o w w' r H. unfold tryCatch in H.
  destruct (m env o w) as [w1 [e|a]] eqn:E.
  - destruct (Hm _ _ _ _ _ E) as (Hi & ev1 & Ht & Hf).
    destruct (Hh _ _ _ _ _ H) as (Hi' & ev2 & Ht' & Hf').
    split; [congruence|]. exists (ev1 ++ ev2)%list.
    split; [now rewrite Ht', Ht, app_assoc|].
    apply Forall_app. split; [exact Hf|]. now rewrite Hi in Hf'.
  - injection H as <- <-. eapply Hm, E.
Qed.

Lemma quiet_weaken {A} (Q Q' : Call -> Prop) (m : M A) :
  (forall c, Q c -> Q' c) -> Quiet Q m -> Quiet Q' m.
Proof.
  intros HQ Hm env o w w' r H. destruct (Hm _ _ _ _ _ H) as (Hi & evs & Ht & Hf).
  split; [exact Hi|]. exists evs. split; [exact Ht|].
  eapply Forall_impl; [|exact Hf]. intros ev [? ?]. auto.
Qed.

End MonadFacts.

(** ** Extraction *)

Module ExtractionFacts.
#[local] Set Warnings "-inexact-float".
Import JsString JsNumber Effects Extraction ExtractionVocabulary NumberFacts MonadFacts.
Local Open Scope Q_scope.

(** *** Trimming *)

Lemma trimStart_head (s : string) c r :
  trimStart s = String c r -> isWhiteSpace c = false.
Proof.
  induction s as [|d s IH]; simpl; [discriminate|].
  destruct (isWhiteSpace d) eqn:E; [exact IH|]. intros [= <- _]. exact E.
Qed.

Lemma trimStart_blank (s : string) : trimStart s = EmptyString <-> allWhiteSpace s = true.
Proof.
  induction s as [|d s IH]; simpl; [tauto|].
  destruct (isWhiteSpace d); simpl; [exact IH|]. split; discriminate.
Qed.

(** [trimEnd] keeps a first character that is not white space. *)
Lemma trimEnd_head (c : ascii) (r : string) :
  isWhiteSpace c = false -> exists r', trimEnd (String c r) = String c r'.
Proof.
  intros H. simpl. destruct (trimEnd r); [rewrite H|]; eauto.
Qed.

Lemma trimEnd_last (s : string) (b : ascii) :
  lastChar (trimEnd s) = Some b -> isWhiteSpace b = false.
Proof.
  induction s as [|c s IH]; simpl; [discriminate|].
  destruct (trimEnd s) as [|d t] eqn:E.
  - destruct (isWhiteSpace c) eqn:W; simpl; [discriminate|]. now intros [= <-].
  - exact IH.
Qed.

Lemma lastChar_some (c : ascii) (r : string) : exists b, lastChar (String c r) = Some b.
Proof.
  revert c. induction r as [|d r IH]; intros c; simpl; [eauto | apply IH].
Qed.

Lemma trim_blank (s : string) : trim s = EmptyString <-> allWhiteSpace s = true.
Proof.
  unfold trim. rewrite <- trimStart_blank.
  destruct (trimStart s) as [|c r] eqn:E; [simpl; tauto|].
  destruct (trimEnd_head c r (trimStart_head s c r E)) as [r' ->]. split; discriminate.
Qed.

Lemma trim_trimmed (s : string) : trim s <> EmptyString -> trimmedNonEmpty (trim s).
Proof.
  unfold trim. intros Hne. destruct (trimStart s) as [|c r] eqn:E; [now elim Hne|].
  pose proof (trimStart_head s c r E) as Hc.
  destruct (trimEnd_head c r Hc) as [r' Hr'].
  rewrite Hr'. destruct (lastChar_some c r') as [b Hb].
  exists c, b. split; [reflexivity|]. split; [exact Hc|]. split; [exact Hb|].
  apply (trimEnd_last (String c r)). now rewrite Hr'.
Qed.

(** *** [toNullableString] *)

Lemma toNullableString_spec (v : JsValue) :
  (carriesNoText v -> toNullableString v = None)
  /\ (forall s, toNullableString v = Some s ->
       trimmedNonEmpty s /\ exists raw, v = JsString raw /\ s = trim raw).
Proof.
  destruct v as [| | b | n | raw]; simpl;
    try (split; [reflexivity | discriminate]).
  destruct (0 <? len (trim raw))%Z eqn:E.
  - apply Z.ltb_lt in E. assert (Hne : trim raw <> EmptyString).
    { intro H. rewrite H in E. unfold len in E. simpl in E. lia. }
    split.
    + intros Hb. apply trim_blank in Hb. contradiction.
    + intros s [= <-]. split; [now apply trim_trimmed | eauto].
  - split; [reflexivity | discriminate].
Qed.

Lemma normalize_strings (output : ExtractionOutput) :
  stringFields (normalize output) = map toNullableString (rawStringFields output).
Proof. reflexivity. Qed.

(** *** The confidence of an extraction *)

Lemma present_count (e : ShipmentExtraction) :
  List.length (filter notNull (fieldValues e)) = non_null_field_count e.
Proof.
  destruct e as [f1 f2 f3 f4 f5 f6 f7 f8 f9 f10 f11]. unfold fieldValues, non_null_field_count.
  cbn [shipment_id shipper consignee pickup_datetime delivery_datetime equipment_type
       mode rate currency weight carrier_name].
  destruct f1, f2, f3, f4, f5, f6, f7, f8, f9, f10, f11; reflexivity.
Qed.

Lemma confidence_of_extraction (e : ShipmentExtraction) (m : Q) :
  computeExtractionConfidence e m
  == roundTo (0.65 * m + 0.35 * (Pool.ofNat (non_null_field_count e) / 11)) 4.
Proof.
  unfold computeExtractionConfidence. rewrite present_count. reflexivity.
Qed.



(** The answer of the model from which a returned extraction was made. *)
Lemma extractShipmentData_answer text fileName env o w w' e c :
  extractShipmentData text fileName env o w = (w', inr (e, c)) ->
  exists output,
    o ExtractionOutput (trace w)
      (ChatExtract (match fileName with Some f => f | None => "unknown" end)
                   (slice text 0 40000)) = inr output
    /\ e = normalize output
    /\ c = computeExtractionConfidence e (self_assessed_confidence output).
Proof.
  unfold extractShipmentData. intros H.
  apply bind_inr in H as (w1 & [] & Hreq & H).
  assert (w1 = w) as ->.
  { unfold Hybrid.requireEnv, bind, getEnv, throw, ret in Hreq.
    destruct (0 <? _)%nat; cbv beta in Hreq; [discriminate Hreq|].
    injection Hreq as Hw. now symmetry. }
  apply bind_inr in H as (w2 & output & Hcall & H).
  apply extCall_inr in Hcall as [_ Hcall].
  apply ret_inr in H as [_ [= -> ->]]. now exists output.
Qed.

(** C10.  In every extraction that [extractShipmentData] returns, each
    of the nine string fields is made of the value that the model gave
    for that very field: it is [null] when that value is absent, not a
    string, empty or made of white space only, and otherwise the trimmed
    text of the model, a non-empty string with no white space at either
    end.  A field that is [null] counts as missing: the completeness
    ratio counts the fields that are not [null], and the confidence
    returned is, to within its rounding to four decimals,
    [0.65 m + 0.35 n / 11] with [n] that count. *)
Theorem extraction_strings_normalized text fileName env o w w' e c :
  extractShipmentData text fileName env o w = (w', inr (e, c)) ->
  exists output,
    o ExtractionOutput (trace w)
      (ChatExtract (match fileName with Some f => f | None => "unknown" end)
                   (slice text 0 40000)) = inr output
    /\ Forall2 (fun raw field =>
                  (carriesNoText raw -> field = None /\ present field = 0%nat)
                  /\ match field with
                     | None => carriesNoText raw
                     | Some s =>
                         trimmedNonEmpty s /\ present field = 1%nat
                         /\ exists r, raw = JsString r /\ s = trim r
                     end)
               (rawStringFields output) (stringFields e)
    /\ List.length (filter notNull (fieldValues e)) = non_null_field_count e
    /\ Qabs (c - (0.65 * self_assessed_confidence output
                  + 0.35 * (Pool.ofNat (non_null_field_count e) / 11))) <= 1 # 10000.
Proof.
  intros H. apply extractShipmentData_answer in H as (output & Hanswer & -> & ->).
  exists output. split; [exact Hanswer|]. split; [|split; [apply present_count|]].
  - rewrite normalize_strings.
    generalize (rawStringFields output). intros l.
    induction l as [|raw l IH]; simpl; constructor; [|exact IH].
    split.
    + intros Hb. now rewrite (proj1 (toNullableString_spec raw) Hb).
    + destruct (toNullableString raw) as [s|] eqn:E.
      * destruct (proj2 (toNullableString_spec raw) s E) as [Htrimmed Hraw].
        split; [exact Htrimmed|]. split; [reflexivity | exact Hraw].
      * destruct raw as [| | | |r]; try exact I. simpl in *.
        destruct (0 <? len (trim r)) eqn:Epos; [discriminate|].
        apply trim_blank. destruct (trim r); [reflexivity | discriminate].
  - rewrite confidence_of_extraction. apply roundTo_near.
Qed.

Lemma extraction_strings_normalized_witness :
  shipment_id (normalize Samples.output) = Some "LD-1042"
  /\ consignee (normalize Samples.output) = None
  /\ Forall2 (fun raw field =>
                match field with
                | None => carriesNoText raw
                | Some s => exists r, raw = JsString r /\ s = trim r
                end)
             (rawStringFields Samples.output) (stringFields (normalize Samples.output)).
Proof.
  destruct (extraction_strings_normalized "Rate: 1200 USD" None Samples.env
              (Samples.oracle (Samples.idle false) []) Samples.start _ _ _ eq_refl)
    as (output & Hanswer & Hfields & _).
  injection Hanswer as <-.
  split; [reflexivity|]. split; [reflexivity|].
  eapply Forall2_impl; [|exact Hfields].
  intros raw [s|] [_ H]; [|exact H]. now destruct H as (_ & _ & H).
Defined.

End ExtractionFacts.

(** ** The guardrails *)

Module WorkflowFacts.
Import JsString JsNumber Effects Hybrid Pool Workflow Vocabulary GuardVocabulary.
Import NumberFacts PoolFacts MonadFacts.
Local Open Scope Q_scope.

Lemma retrieve_inr params g query env o w w' reply g' :
  retrieveDocumentChunks params g query env o w = (w', inr (reply, g')) ->
  exists sources, g' = mergeSources g sources MAX_SOURCES_IN_STATE.
Proof.
  unfold retrieveDocumentChunks. intros H.
  apply bind_inr in H as (w1 & sources & _ & H). exists sources.
  destruct (List.length sources =? 0)%nat; apply ret_inr in H as [_ [= _ ->]]; reflexivity.
Qed.

(** Whatever the controller does, the pool it leaves is the merge of
    the results of its retrieval calls, in order. *)
Lemma runAgent_inr params agent g env o w w' structured g' :
  runAgent params agent g env o w = (w', inr (structured, g')) ->
  exists batches,
    g' = fold_left (fun acc sources => mergeSources acc sources MAX_SOURCES_IN_STATE) batches g.
Proof.
  revert g w. induction agent as [query next IH | response]; intros g w H; simpl in H.
  - apply bind_inr in H as (w1 & [reply g1] & Htool & H).
    apply retrieve_inr in Htool as [sources ->].
    apply IH in H as [batches ->]. now exists (sources :: batches).
  - apply ret_inr in H as [_ [= _ ->]]. now exists [].
Qed.

(** [runRagWorkflow] is the verdict of the guardrails on what the run
    of the controller left. *)
Lemma runRagWorkflow_split params env o w :
  runRagWorkflow params env o w
  = match controllerRun params env o w with
    | (w', inl e) => (w', inl e)
    | (w', inr (rewrittenQuery, structured, pool)) =>
        (w', inr (applyGuardrails env params rewrittenQuery structured pool))
    end.
Proof.
  unfold runRagWorkflow, controllerRun, bind.
  destruct (requireEnv _ env o w) as [w0 [e|[]]]; [reflexivity|].
  destruct (rewriteQuestion _ env o w0) as [w1 [e|rewrittenQuery]]; [reflexivity|].
  destruct (extCall _ env o w1) as [w2 [e|agent]]; [reflexivity|].
  destruct (runAgent params agent [] env o w2) as [w3 [e|[structured pool]]]; reflexivity.
Qed.

Lemma controllerRun_inr params env o w w' rewrittenQuery structured pool :
  controllerRun params env o w = (w', inr (rewrittenQuery, structured, pool)) ->
  exists batches, pool = gather batches.
Proof.
  unfold controllerRun. intros H.
  apply bind_inr in H as (w0 & [] & _ & H).
  apply bind_inr in H as (w1 & rq & _ & H).
  apply bind_inr in H as (w2 & agent & _ & H).
  apply bind_inr in H as (w3 & [structured' g] & Hagent & H).
  apply ret_inr in H as [_ [= _ _ ->]].
  destruct (runAgent_inr _ _ _ _ _ _ _ _ _ Hagent) as [batches Hg].
  exists batches. exact Hg.
Qed.

Lemma applyGuardrails_sources env params rewrittenQuery structured pool :
  sources (applyGuardrails env params rewrittenQuery structured pool) = pool.
Proof.
  unfold applyGuardrails.
  destruct (_ || _)%bool; [reflexivity|].
  destruct (_ || _)%bool; [reflexivity|].
  destruct (ltb _ _); [reflexivity|]. destruct (ltb _ _); reflexivity.
Qed.

(** The first gate. *)
Lemma floor_gate env params rewrittenQuery structured pool :
  (pool = [] \/ topScore pool < guardrailMinTopScore env) ->
  let resp := applyGuardrails env params rewrittenQuery structured pool in
  answer resp = NOT_FOUND_ANSWER /\ confidence resp = 0 /\ guardrail resp = not_found.
Proof.
  intros H. unfold applyGuardrails. fold (topScore pool).
  assert (E : ((List.length pool =? 0)%nat || ltb (topScore pool) (guardrailMinTopScore env))%bool
              = true).
  { destruct H as [->|H]; [reflexivity|]. apply ltb_lt in H. rewrite H. apply orb_true_r. }
  cbv zeta. rewrite E. simpl. auto.
Qed.

(** The second gate, for a pool that passed the first. *)
Lemma grounding_verdict env params rewrittenQuery structured pool :
  pool <> [] -> guardrailMinTopScore env <= topScore pool ->
  match structured with
  | Some a => agent_not_found a = true \/ grounded a = false
  | None => True
  end ->
  let resp := applyGuardrails env params rewrittenQuery structured pool in
  let computed :=
    calculateConfidence pool
      (match structured with Some a => cited_chunk_ids a | None => [] end) in
  guardrail resp = not_found
  /\ answer resp = NOT_FOUND_ANSWER
  /\ confidence resp == Qmin computed 0.35.
Proof.
  intros Hne Hpass Hflag. unfold applyGuardrails. fold (topScore pool).
  assert (E : ((List.length pool =? 0)%nat || ltb (topScore pool) (guardrailMinTopScore env))%bool
              = false).
  { apply ltb_ge in Hpass. rewrite Hpass. destruct pool; [contradiction | reflexivity]. }
  cbv zeta. rewrite E.
  set (a := match structured with Some s => s | None => _ end).
  assert (F : (agent_not_found a || negb (grounded a))%bool = true).
  { subst a. destruct structured as [s|]; [|reflexivity].
    destruct Hflag as [->| ->]; [reflexivity | apply orb_true_r]. }
  rewrite F. simpl.
  assert (C : cited_chunk_ids a
              = match structured with Some s => cited_chunk_ids s | None => [] end).
  { subst a. now destruct structured. }
  rewrite C. split; [reflexivity|]. split; [reflexivity|].
  set (x := calculateConfidence pool _).
  destruct (Q.min_spec x 0.35) as [[_ Hmin]|[_ Hmin]]; rewrite Hmin.
  - subst x. unfold calculateConfidence. apply roundTo_idempotent.
  - reflexivity.
Qed.

Lemma belowFloor_topScore env pool :
  belowFloor env pool -> pool = [] \/ topScore pool < guardrailMinTopScore env.
Proof.
  intros [->|(top & Hin & Hmax & Hlow)]; [now left|]. right.
  destruct pool as [|first rest]; [contradiction|]. unfold topScore. simpl.
  eapply Qle_lt_trans; [|exact Hlow]. apply Hmax. now left.
Qed.

Lemma passesFloor_topScore env batches :
  passesFloor env (gather batches) ->
  gather batches <> [] /\ guardrailMinTopScore env <= topScore (gather batches).
Proof.
  intros (top & Hin & Hmax & Hok).
  destruct (gather_invariant batches) as (_ & _ & Hsorted & _).
  destruct (gather batches) as [|first rest] eqn:E; [contradiction|].
  split; [discriminate|]. unfold topScore. simpl.
  eapply Qle_trans; [exact Hok|]. now apply (sorted_head _ first rest Hsorted eq_refl).
Qed.

(** C1.  If, when the controller has finished, the evidence pool is
    empty or its highest score is below [guardrailMinTopScore], then
    [runRagWorkflow] returns the answer ["Not found in document."], the
    confidence 0 and the guardrail [not_found], whatever structured
    response the controller gave. *)
Theorem retrieval_floor params env o w w' rewrittenQuery structured pool :
  controllerRun params env o w = (w', inr (rewrittenQuery, structured, pool)) ->
  belowFloor env pool ->
  exists resp,
    runRagWorkflow params env o w = (w', inr resp)
    /\ sources resp = pool
    /\ answer resp = "Not found in document."
    /\ confidence resp = 0
    /\ guardrail resp = not_found.
Proof.
  intros Hrun Hlow. rewrite runRagWorkflow_split, Hrun.
  eexists. split; [reflexivity|]. split; [apply applyGuardrails_sources|].
  apply floor_gate. now apply belowFloor_topScore.
Qed.

Lemma retrieval_floor_witness :
  exists w' resp,
    runRagWorkflow Samples.params Samples.env
      (Samples.oracle (Samples.idle false) []) Samples.start = (w', inr resp)
    /\ guardrail resp = not_found.
Proof.
  destruct (retrieval_floor Samples.params Samples.env
              (Samples.oracle (Samples.idle false) []) Samples.start
              _ _ (Some (Samples.reply false)) [] eq_refl)
    as (resp & Hrun & _ & _ & _ & Hg).
  - now left.
  - eexists _, resp. split; [exact Hrun | exact Hg].
Defined.

(** C3.  If the evidence pool passed the retrieval floor and the
    structured response of the controller has [not_found = true] or
    [grounded = false], then [runRagWorkflow] returns the guardrail
    [not_found], the answer ["Not found in document."] and, as
    confidence, the smaller of the computed confidence and 0.35, however
    high the computed confidence is. *)
Theorem grounding_gate params env o w w' rewrittenQuery structured pool :
  controllerRun params env o w = (w', inr (rewrittenQuery, structured, pool)) ->
  passesFloor env pool ->
  disowned structured ->
  exists resp,
    runRagWorkflow params env o w = (w', inr resp)
    /\ guardrail resp = not_found
    /\ answer resp = "Not found in document."
    /\ confidence resp == Qmin (calculateConfidence pool (cited structured)) 0.35.
Proof.
  intros Hrun Hpass Hflag. rewrite runRagWorkflow_split, Hrun.
  destruct (controllerRun_inr _ _ _ _ _ _ _ _ Hrun) as [batches ->].
  apply passesFloor_topScore in Hpass as [Hne Hok].
  eexists. split; [reflexivity|]. now apply grounding_verdict.
Qed.

Lemma grounding_gate_witness :
  exists w' resp,
    runRagWorkflow Samples.params Samples.env
      (Samples.oracle (Samples.once true) [Samples.found "doc-1#p1c1" 0.95])
      Samples.start = (w', inr resp)
    /\ guardrail resp = not_found
    /\ confidence resp == 0.35.
Proof.
  destruct (grounding_gate Samples.params Samples.env
              (Samples.oracle (Samples.once true) [Samples.found "doc-1#p1c1" 0.95])
              Samples.start _ _ (Some (Samples.reply true))
              [Samples.snippet "doc-1#p1c1" (JsNumber.roundTo 0.95 4)] eq_refl)
    as (resp & Hrun & Hg & _ & Hc).
  - exists (Samples.snippet "doc-1#p1c1" (JsNumber.roundTo 0.95 4)).
    split; [now left|]. split.
    + intros e [<-|[]]. apply Qle_refl.
    + vm_compute. discriminate.
  - now left.
  - eexists _, resp. split; [exact Hrun|]. split; [exact Hg|].
    rewrite Hc. reflexivity.
Defined.

End WorkflowFacts.

(** ** The service: scope of a question *)

Module ScopeFacts.
Import JsString Effects Hybrid Registry Service RunVocabulary MonadFacts StringFacts.

Lemma quiet_requireEnv Q keys : Quiet Q (requireEnv keys).
Proof.
  unfold requireEnv. apply quiet_bind; [apply quiet_getEnv|]. intros env.
  destruct (_ <? _)%nat; [apply quiet_throw | apply quiet_ret].
Qed.

Lemma quiet_getIndex Q : Quiet Q getIndex.
Proof. apply quiet_requireEnv. Qed.

Lemma quiet_indexFetch (Q : Call -> Prop) namespace ids :
  Q (MkCall unit (IndexFetch namespace ids)) -> Quiet Q (indexFetch namespace ids).
Proof.
  intros HQ env o w w' r H. unfold indexFetch in H.
  destruct (o unit (trace w) (IndexFetch namespace ids)); injection H as <- <-;
    (split; [reflexivity|]; eexists; split; [reflexivity|];
     constructor; [now split | constructor]).
Qed.

Lemma quiet_getRegistryItem documentId : Quiet isFetch (getRegistryItem documentId).
Proof.
  unfold getRegistryItem. apply quiet_bind; [apply quiet_getIndex|]. intros _.
  apply quiet_bind; [apply quiet_getEnv|]. intros env.
  apply quiet_bind; [now apply quiet_indexFetch|]. intros fetched.
  destruct (toRegistryItem _); apply quiet_ret.
Qed.

Lemma quiet_forEachM {A B} Q (f : A -> M B) (l : list A) :
  (forall a, Quiet Q (f a)) -> Quiet Q (forEachM f l).
Proof.
  intros Hf. induction l as [|a l IH]; simpl; [apply quiet_ret|].
  apply quiet_bind; [apply Hf|]. intros b.
  apply quiet_bind; [exact IH|]. intros bs. apply quiet_ret.
Qed.

Lemma forEachM_length {A B} (f : A -> M B) (l : list A) env o w w' bs :
  forEachM f l env o w = (w', inr bs) -> List.length bs = List.length l.
Proof.
  revert w w' bs. induction l as [|a l IH]; intros w w' bs H; simpl in H.
  - apply ret_inr in H as [_ ->]. reflexivity.
  - apply bind_inr in H as (w1 & b & _ & H).
    apply bind_inr in H as (w2 & bs' & Hrest & H).
    apply ret_inr in H as [_ ->]. simpl. f_equal. eapply IH, Hrest.
Qed.

Lemma unique_nonempty (ids : list string) : ids <> [] -> unique ids [] <> [].
Proof. destruct ids as [|x r]; [contradiction|]. simpl. discriminate. Qed.

Lemma none_missing (ids : list string) (items : list DocumentRegistryItem) :
  map fst (filter (fun p => isNull (snd p)) (combine ids (map Some items))) = [].
Proof.
  revert items. induction ids as [|x ids IH]; intros [|i items]; simpl; auto.
Qed.

Lemma all_resolved (items : list DocumentRegistryItem) :
  filterMap (fun item => item) (map Some items) = items.
Proof. induction items as [|i items IH]; simpl; [reflexivity | now rewrite IH]. Qed.

Lemma allSame_spec (first : DocumentRegistryItem) (rest : list DocumentRegistryItem) :
  forallb (fun item => String.eqb (namespace item) (namespace first)) (first :: rest) = true
  <-> sameNamespace (first :: rest).
Proof.
  rewrite forallb_forall. split.
  - intros H. exists (namespace first). intros item Hin. now apply String.eqb_eq, H.
  - intros [ns H] item Hin. apply String.eqb_eq.
    rewrite (H item Hin). symmetry. apply H. now left.
Qed.

Lemma nonblank (question : string) :
  trim question <> EmptyString -> (len (trim question) =? 0) = false.
Proof.
  intros H. apply Z.eqb_neq. intro E. apply len_zero in E. contradiction.
Qed.

(** An empty question is turned down before anything is looked up. *)
Lemma blank_question_rejected question documentId documentIds env o w :
  trim question = EmptyString ->
  askDocumentQuestion question documentId documentIds env o w
  = (w, inl (DocIntelligenceError "Question cannot be empty." 400)).
Proof. intros H. unfold askDocumentQuestion. now rewrite H. Qed.

(** C7.  In a question that names documents, all of them found in the
    registry, the lookups are the only calls made so far.  If the
    documents do not share one namespace, [resolveAskContext] throws the
    error of an inconsistent scope there, and so does
    [askDocumentQuestion]: no embedding and no index query has been
    issued.  If they share one namespace, [resolveAskContext] returns it
    with the ids, and [askDocumentQuestion] goes on with
    [runRagWorkflow]. *)
Theorem scope_consistency question documentId documentIds env o w w1 items :
  let rawIds := filter Chunking.nonEmpty (map trim documentIds) in
  let uniqueIds := unique rawIds [] in
  rawIds <> [] ->
  trim question <> EmptyString ->
  forEachM getRegistryItem uniqueIds env o w = (w1, inr (map Some items)) ->
  (exists events,
      trace w1 = (trace w ++ events)%list
      /\ Forall (fun ev => isFetch (call ev) /\ ~ isRetrieval (call ev)) events)
  /\ (~ sameNamespace items ->
      resolveAskContext documentId (Some documentIds) env o w = (w1, inl InconsistentScope)
      /\ askDocumentQuestion question documentId (Some documentIds) env o w
         = (w1, inl InconsistentScope))
  /\ (sameNamespace items ->
      exists first,
        hd_error items = Some first
        /\ resolveAskContext documentId (Some documentIds) env o w
           = (w1, inr {| ask_namespace := namespace first;
                         ask_tenantId := tenantId first;
                         ask_documentIds := uniqueIds |})
        /\ askDocumentQuestion question documentId (Some documentIds) env o w
           = Workflow.runRagWorkflow
               {| Workflow.question := trim question;
                  Workflow.rag_namespace := namespace first;
                  Workflow.rag_documentIds := uniqueIds |} env o w1).
Proof.
  intros rawIds uniqueIds Hids Hq Hrun.
  assert (Hsome : exists first rest, items = first :: rest).
  { apply forEachM_length in Hrun. rewrite length_map in Hrun.
    pose proof (unique_nonempty rawIds Hids) as Hu. fold uniqueIds in Hu.
    destruct items as [|first rest]; [|eauto].
    destruct uniqueIds; [contradiction | discriminate]. }
  destruct Hsome as (first & rest & ->).
  assert (Hpos : (0 <? List.length rawIds)%nat = true).
  { apply Nat.ltb_lt. destruct rawIds; [contradiction | simpl; lia]. }
  assert (Hresolve : resolveAskContext documentId (Some documentIds) env o w
            = if negb (forallb (fun item => String.eqb (namespace item) (namespace first))
                         (first :: rest))
              then (w1, inl InconsistentScope)
              else (w1, inr {| ask_namespace := namespace first;
                               ask_tenantId := tenantId first;
                               ask_documentIds := uniqueIds |})).
  { unfold resolveAskContext. fold rawIds. rewrite Hpos. fold uniqueIds.
    unfold bind at 1. rewrite Hrun. rewrite none_missing, all_resolved.
    cbn [List.length Nat.ltb Nat.leb].
    destruct (negb _); reflexivity. }
  assert (Hask : askDocumentQuestion question documentId (Some documentIds) env o w
            = match resolveAskContext documentId (Some documentIds) env o w with
              | (w', inl e) => (w', inl e)
              | (w', inr context) =>
                  Workflow.runRagWorkflow
                    {| Workflow.question := trim question;
                       Workflow.rag_namespace := ask_namespace context;
                       Workflow.rag_documentIds := ask_documentIds context |} env o w'
              end).
  { unfold askDocumentQuestion. rewrite (nonblank question Hq). unfold bind.
    destruct (resolveAskContext _ _ env o w) as [w' [e|context]]; reflexivity. }
  split; [|split].
  - destruct (quiet_forEachM isFetch getRegistryItem uniqueIds quiet_getRegistryItem
                _ _ _ _ _ Hrun) as (_ & events & Ht & Hf).
    exists events. split; [exact Ht|].
    eapply Forall_impl; [|exact Hf]. intros [c a] [_ HQ]. simpl in *.
    split; [exact HQ|]. destruct c as [X []]; simpl in *; tauto.
  - intros Hdiff.
    assert (E : forallb (fun item => String.eqb (namespace item) (namespace first))
                  (first :: rest) = false).
    { destruct (forallb _ _) eqn:E; [|reflexivity].
      apply allSame_spec in E. contradiction. }
    rewrite Hask, Hresolve, E. simpl. now split.
  - intros Hsame. apply allSame_spec in Hsame.
    exists first. split; [reflexivity|].
    rewrite Hask, Hresolve, Hsame. simpl. now split.
Qed.

Lemma scope_consistency_witness :
  exists w1,
    askDocumentQuestion "What is the rate?" None (Some ["doc-1"; " doc-2 "; "doc-1"])
      Samples.env (Samples.oracle (Samples.once false) []) Samples.twoTenants
    = (w1, inl InconsistentScope)
    /\ List.length (trace w1) = 2%nat.
Proof.
  destruct (scope_consistency "What is the rate?" None ["doc-1"; " doc-2 "; "doc-1"]
              Samples.env (Samples.oracle (Samples.once false) []) Samples.twoTenants
              (fst (forEachM getRegistryItem ["doc-1"; "doc-2"] Samples.env
                      (Samples.oracle (Samples.once false) []) Samples.twoTenants))
              [Samples.item "doc-1" "tenant-demo:acme" "acme";
               Samples.item "doc-2" "tenant-demo:globex" "globex"])
    as (_ & Hdiff & _).
  - discriminate.
  - discriminate.
  - vm_compute. reflexivity.
  - destruct Hdiff as [_ Hask].
    + intros [ns H].
      pose proof (H _ (or_introl eq_refl)) as H1.
      pose proof (H _ (or_intror (or_introl eq_refl))) as H2.
      rewrite <- H2 in H1. discriminate.
    + eexists. split; [exact Hask | reflexivity].
Defined.

End ScopeFacts.

(** ** The service: upload *)

Module UploadFacts.
Import JsString Effects Hybrid Registry Service RunVocabulary MonadFacts ScopeFacts.

(** *** Rules for [Triple] *)

Lemma triple_quiet {A} env Q (P S : Index -> Prop) (m : M A) :
  Quiet Q m -> (forall i, P i -> S i) -> Triple env P m S (fun _ i => P i).
Proof.
  intros Hq HPS o w w' r HP H. destruct (Hq _ _ _ _ _ H) as (Hi & events & Ht & Hf).
  rewrite Hi. split; [|split; auto].
  exists events. split; [exact Ht|].
  eapply Forall_impl; [|exact Hf]. intros ev [-> _]. auto.
Qed.

Lemma triple_bind {A B} env (P S : Index -> Prop) (R : A -> Index -> Prop)
    (R' : B -> Index -> Prop) (m : M A) (k : A -> M B) :
  Triple env P m S R -> (forall a, Triple env (R a) (k a) S R') ->
  Triple env P (bind m k) S R'.
Proof.
  intros Hm Hk o w w' r HP H. unfold bind in H.
  destruct (m env o w) as [w1 [e|a]] eqn:E.
  - injection H as <- <-. destruct (Hm _ _ _ _ HP E) as (Hev & HS & _).
    split; [exact Hev|]. split; [exact HS | discriminate].
  - destruct (Hm _ _ _ _ HP E) as ((ev1 & Ht1 & Hf1) & _ & HR).
    destruct (Hk a _ _ _ _ (HR a eq_refl) H) as ((ev2 & Ht2 & Hf2) & HS & HR').
    split; [|split; assumption].
    exists (ev1 ++ ev2)%list. split; [now rewrite Ht2, Ht1, app_assoc|].
    apply Forall_app. now split.
Qed.

Lemma triple_getEnv env (P S : Index -> Prop) :
  (forall i, P i -> S i) -> Triple env P getEnv S (fun a i => a = env /\ P i).
Proof.
  intros HPS o w w' r HP [= <- <-]. split; [|split].
  - exists []. now rewrite app_nil_r.
  - auto.
  - intros a [= <-]. now split.
Qed.

Lemma triple_ret {A} env (P S : Index -> Prop) (a : A) :
  (forall i, P i -> S i) -> Triple env P (ret a) S (fun _ i => P i).
Proof. intros HPS. now apply (triple_quiet env (fun _ => True)); [apply quiet_ret|]. Qed.

Lemma triple_upsert env (P S R : Index -> Prop) namespace records :
  (forall i, P i -> S i /\ S (putRecords i namespace records)
                    /\ R (putRecords i namespace records)) ->
  Triple env P (indexUpsert namespace records) S (fun _ i => R i).
Proof.
  intros Hstep o w w' r HP H. destruct (Hstep _ HP) as (HS & HS' & HR).
  unfold indexUpsert in H.
  destruct (o unit (trace w) (IndexUpsert namespace records)); injection H as <- <-; simpl.
  - split; [|split; [exact HS | discriminate]].
    eexists. split; [reflexivity|]. now repeat constructor.
  - split; [|split; [exact HS' | intros _ _; exact HR]].
    eexists. split; [reflexivity|]. now repeat constructor.
Qed.

(** *** Records in the index *)

Lemma putRecord_has i namespace r : indexed (putRecord i namespace r) namespace (record_id r).
Proof.
  induction i as [|entry rest IH]; simpl.
  - exists r. split; [now left | reflexivity].
  - destruct (sameSlot _ _ entry).
    + exists r. split; [now left | reflexivity].
    + destruct IH as (r' & Hin & Hid). exists r'. split; [now right | exact Hid].
Qed.

Lemma putRecord_keeps i namespace r ns id :
  indexed i ns id -> indexed (putRecord i namespace r) ns id.
Proof.
  intros (r0 & Hin & Hid). induction i as [|entry rest IH]; [contradiction|]. simpl.
  destruct (sameSlot namespace (record_id r) entry) eqn:E.
  - destruct Hin as [->|Hin].
    + unfold sameSlot in E. simpl in E. apply andb_true_iff in E as [E1 E2].
      apply String.eqb_eq in E1, E2. subst.
      exists r. split; [now left | congruence].
    + exists r0. split; [now right | exact Hid].
  - destruct Hin as [->|Hin].
    + exists r0. split; [now left | exact Hid].
    + destruct (IH Hin) as (r' & Hin' & Hid'). exists r'. split; [now right | exact Hid'].
Qed.

Lemma putRecords_keeps records i namespace ns id :
  indexed i ns id -> indexed (putRecords i namespace records) ns id.
Proof.
  unfold putRecords. revert i. induction records as [|r records IH]; intros i H; simpl.
  - exact H.
  - apply IH. now apply putRecord_keeps.
Qed.

Lemma putRecords_has records i namespace r :
  In r records -> indexed (putRecords i namespace records) namespace (record_id r).
Proof.
  unfold putRecords. revert i. induction records as [|r0 records IH]; intros i H; simpl.
  - contradiction.
  - destruct H as [->|H].
    + apply (putRecords_keeps records). apply putRecord_has.
    + now apply IH.
Qed.

Lemma covered_keeps namespace chunks i ns records :
  covered namespace chunks i -> covered namespace chunks (putRecords i ns records).
Proof. intros H c Hc. apply putRecords_keeps. now apply H. Qed.

Lemma numbered {A} (l : list A) (a : A) (start : nat) :
  In a l -> exists idx, In (idx, a) (combine (seq start (List.length l)) l).
Proof.
  revert start. induction l as [|x l IH]; intros start H; [contradiction|]. simpl.
  destruct H as [->|H].
  - exists start. now left.
  - destruct (IH (S start) H) as [idx Hidx]. exists idx. now right.
Qed.

(** *** The steps of an upload *)

Lemma quiet_embedDenseBatch texts : Quiet noWrite (embedDenseBatch texts).
Proof.
  unfold embedDenseBatch. apply quiet_bind; [apply quiet_requireEnv|]. intros _.
  apply quiet_extCall. exact (fun H => H).
Qed.

Lemma quiet_embedSparseBatch texts inputType : Quiet noWrite (embedSparseBatch texts inputType).
Proof.
  unfold embedSparseBatch. apply quiet_bind; [apply quiet_requireEnv|]. intros _.
  apply quiet_extCall. exact (fun H => H).
Qed.

Lemma quiet_batchLoop {TInput TOutput} (fn : list TInput -> M (list TOutput))
    fuel items size i output :
  (forall piece, Quiet noWrite (fn piece)) ->
  Quiet noWrite (batchLoop fuel items size i fn output).
Proof.
  intros Hfn. revert i output. induction fuel as [|fuel IH]; intros i output; simpl.
  - apply quiet_ret.
  - destruct (i <? List.length items)%nat; [|apply quiet_ret].
    apply quiet_bind; [apply Hfn|]. intros result. apply IH.
Qed.

Lemma quiet_batch {TInput TOutput} (fn : list TInput -> M (list TOutput)) items size :
  (forall piece, Quiet noWrite (fn piece)) -> Quiet noWrite (batch items size fn).
Proof. intros Hfn. now apply quiet_batchLoop. Qed.

Lemma quiet_parseFile file documentId tenantId fileName uploadedAt :
  Quiet noWrite (parseFile file documentId tenantId fileName uploadedAt).
Proof.
  unfold parseFile. destruct (String.eqb _ _); [apply quiet_ret|].
  apply quiet_extCall. exact (fun H => H).
Qed.

Lemma quiet_uploadInputs file tenantId : Quiet noWrite (uploadInputs file tenantId).
Proof.
  unfold uploadInputs. apply quiet_bind.
  - destruct (String.eqb _ _); [|apply quiet_ret].
    apply quiet_bind; [apply quiet_extCall; exact (fun H => H)|]. intros now.
    apply quiet_ret.
  - intros fileName. destruct (negb _); [apply quiet_throw|].
    apply quiet_bind; [apply quiet_extCall; exact (fun H => H)|]. intros documentId.
    apply quiet_bind; [apply quiet_extCall; exact (fun H => H)|]. intros uploadedAt.
    apply quiet_bind; [apply quiet_parseFile|]. intros parsed. apply quiet_ret.
Qed.

(** [uploadDocument] is its two halves in sequence. *)
Lemma uploadDocument_split file tenantId env o w :
  uploadDocument file tenantId env o w
  = match uploadInputs file tenantId env o w with
    | (w0, inl e) => (w0, inl e)
    | (w0, inr p) => indexAndRegister p env o w0
    end.
Proof.
  unfold uploadDocument, uploadInputs. rewrite !bind_run.
  destruct ((if String.eqb (file_name file) "" then bind _ _ else ret _) env o w)
    as [w1 [e|fileName]]; [reflexivity|].
  destruct (negb _); [reflexivity|]. rewrite !bind_run.
  destruct (extCall RandomUUID env o w1) as [w2 [e|documentId]]; [reflexivity|].
  rewrite !bind_run.
  destruct (extCall DateToISOString env o w2) as [w3 [e|uploadedAt]]; [reflexivity|].
  rewrite !bind_run.
  destruct (parseFile _ _ _ _ _ env o w3) as [w4 [e|parsed]]; reflexivity.
Qed.

(** The chunk records reach the index in one write: before it the index
    is as it was, after it every chunk is there. *)
Lemma triple_upsertHybridChunks env chunks namespace (i0 : Index) :
  chunks <> [] ->
  Triple env (eq i0) (upsertHybridChunks chunks namespace)
    (fun s => s = i0 \/ covered namespace chunks s)
    (fun _ s => covered namespace chunks s).
Proof.
  intros Hne. unfold upsertHybridChunks.
  destruct (List.length chunks =? 0)%nat eqn:E.
  { apply Nat.eqb_eq in E. destruct chunks; [contradiction | discriminate]. }
  apply triple_bind with (R := fun _ i => i0 = i).
  { apply (triple_quiet env noWrite); [apply quiet_getIndex | intros i <-; now left]. }
  intros _. apply triple_bind with (R := fun _ i => i0 = i).
  { apply (triple_quiet env noWrite);
      [apply quiet_batch, quiet_embedDenseBatch | intros i <-; now left]. }
  intros denseEmbeddings. apply triple_bind with (R := fun _ i => i0 = i).
  { apply (triple_quiet env noWrite); [|intros i <-; now left].
    apply quiet_batch. intros piece. apply quiet_embedSparseBatch. }
  intros sparseEmbeddings.
  apply triple_bind with (R := fun _ i => covered namespace chunks i).
  - apply triple_upsert. intros i <-.
    assert (Hc : covered namespace chunks (putRecords i0 namespace
              (map (fun '(idx, chunk) =>
                      {| record_id := chunk_id chunk;
                         dense := nth_error denseEmbeddings idx;
                         sparse := nth_error sparseEmbeddings idx;
                         record_metadata := ChunkMeta (chunk_metadata chunk) |})
                   (combine (seq 0 (List.length chunks)) chunks)))).
    { intros c Hc. destruct (numbered chunks c 0 Hc) as [idx Hidx].
      apply (putRecords_has _ i0 namespace
               {| record_id := chunk_id c;
                  dense := nth_error denseEmbeddings idx;
                  sparse := nth_error sparseEmbeddings idx;
                  record_metadata := ChunkMeta (chunk_metadata c) |}).
      apply in_map_iff. now exists (idx, c). }
    split; [now left|]. split; [now right | exact Hc].
  - intros _. apply (triple_quiet env noWrite).
    + apply quiet_extCall. exact (fun H => H).
    + intros i Hi. now right.
Qed.

(** The registry entry is written on an index that holds the chunks. *)
Lemma triple_saveRegistryItem env namespace chunks item (i0 : Index) :
  Triple env (covered namespace chunks) (saveRegistryItem item)
    (fun s => s = i0 \/ covered namespace chunks s)
    (fun _ s => covered namespace chunks s /\ registered env s (documentId item)).
Proof.
  unfold saveRegistryItem.
  apply triple_bind with (R := fun a i => a = env /\ covered namespace chunks i).
  { apply triple_getEnv. intros i Hi. now right. }
  intros env' . apply triple_bind with (R := fun _ i => env' = env /\ covered namespace chunks i).
  { apply (triple_quiet env noWrite); [apply quiet_getIndex | intros i [_ Hi]; now right]. }
  intros _. apply triple_bind with (R := fun _ i => env' = env /\ covered namespace chunks i).
  { apply (triple_quiet env noWrite); [apply quiet_embedDenseBatch | intros i [_ Hi]; now right]. }
  intros embeddings. apply triple_upsert. intros i [-> Hi].
  split; [now right|]. split; [right; now apply covered_keeps|].
  split; [now apply covered_keeps|]. unfold registered.
  match goal with
  | |- indexed (putRecords _ _ [?r]) _ _ => apply (putRecords_has [r] i _ r); now left
  end.
Qed.

Lemma triple_assume {A} env (fact : Prop) (P S : Index -> Prop) (R : A -> Index -> Prop)
    (m : M A) :
  (fact -> Triple env P m S R) -> Triple env (fun i => fact /\ P i) m S R.
Proof. intros H o w w' r [Hf HP]. now apply H. Qed.

(** The second half of an upload that has chunks. *)
Lemma triple_indexAndRegister env p (i0 : Index) :
  let chunks := Chunking.createChunksFromPages p in
  let namespace := buildNamespace env (Chunking.tenantId p) in
  chunks <> [] ->
  Triple env (eq i0) (indexAndRegister p)
    (fun s => s = i0 \/ covered namespace chunks s)
    (fun _ s => covered namespace chunks s /\ registered env s (Chunking.documentId p)).
Proof.
  intros chunks namespace Hne. unfold indexAndRegister. fold chunks.
  destruct (List.length chunks =? 0)%nat eqn:E.
  { apply Nat.eqb_eq in E. destruct chunks; [contradiction | discriminate]. }
  apply triple_bind with (R := fun a i => a = env /\ i0 = i).
  { apply triple_getEnv. intros i <-. now left. }
  intros env'. apply triple_assume. intros ->. fold namespace.
  apply triple_bind with (R := fun _ i => covered namespace chunks i).
  { now apply triple_upsertHybridChunks. }
  intros _.
  apply triple_bind
    with (R := fun _ i => covered namespace chunks i
                          /\ registered env i (Chunking.documentId p)).
  { exact (triple_saveRegistryItem env namespace chunks
             {| Registry.documentId := Chunking.documentId p;
                Registry.fileName := Chunking.fileName p;
                Registry.uploadedAt := Chunking.uploadedAt p;
                Registry.namespace := namespace;
                Registry.tenantId := Chunking.tenantId p;
                Registry.chunkCount := Z.of_nat (List.length chunks) |} i0). }
  intros _. apply triple_ret. intros i [Hi _]. now right.
Qed.

(** An upload that fails before the chunker runs leaves the index as it
    was and attempts no write. *)
Lemma upload_rejected_early file tenantId env o w w0 e :
  uploadInputs file tenantId env o w = (w0, inl e) ->
  uploadDocument file tenantId env o w = (w0, inl e)
  /\ index w0 = index w
  /\ exists events,
       trace w0 = (trace w ++ events)%list
       /\ Forall (fun ev => after ev = index w /\ ~ isUpsert (call ev)) events.
Proof.
  intros H. rewrite uploadDocument_split, H. split; [reflexivity|].
  exact (quiet_uploadInputs file tenantId _ _ _ _ _ H).
Qed.

(** C9.  Once the upload has its document id and its pages, and the
    registry has no entry for that id yet: in every state of the index
    that the upload goes through, the registry holds an entry for the
    document only if every chunk of the document has its record in the
    namespace of the tenant; when the chunker returns no chunk the
    upload fails with the index untouched, no write having been
    attempted; and an upload that returns has saved the entry. *)
Theorem upload_never_partial file tenantId env o w w0 p :
  uploadInputs file tenantId env o w = (w0, inr p) ->
  ~ registered env (index w) (Chunking.documentId p) ->
  let chunks := Chunking.createChunksFromPages p in
  let namespace := buildNamespace env (Chunking.tenantId p) in
  exists w' r events,
    uploadDocument file tenantId env o w = (w', r)
    /\ trace w' = (trace w ++ events)%list
    /\ (forall s, In s (index w :: map after events ++ [index w'])%list ->
        registered env s (Chunking.documentId p) -> covered namespace chunks s)
    /\ (chunks = [] ->
        r = inl NO_USABLE_TEXT
        /\ Forall (fun ev => after ev = index w /\ ~ isUpsert (call ev)) events)
    /\ (forall resp, r = inr resp ->
        chunks <> [] /\ registered env (index w') (Chunking.documentId p)).
Proof.
  intros Hinputs Hfresh chunks namespace.
  rewrite uploadDocument_split, Hinputs.
  destruct (quiet_uploadInputs file tenantId _ _ _ _ _ Hinputs) as (Hi0 & ev0 & Ht0 & Hf0).
  destruct (indexAndRegister p env o w0) as [w' r] eqn:E. exists w', r.
  destruct chunks as [|c0 rest] eqn:Hchunks.
  - (* the chunker returned nothing *)
    unfold indexAndRegister in E. fold chunks in E. rewrite Hchunks in E.
    injection E as <- <-. exists ev0.
    split; [reflexivity|]. split; [exact Ht0|]. split; [|split].
    + intros s Hs Hreg. exfalso. apply Hfresh.
      destruct Hs as [<-|Hs]; [exact Hreg|].
      apply in_app_or in Hs as [Hs|[<-|[]]]; [|now rewrite <- Hi0].
      apply in_map_iff in Hs as (ev & <- & Hev).
      rewrite Forall_forall in Hf0. now rewrite <- (proj1 (Hf0 ev Hev)).
    + intros _. split; [reflexivity | exact Hf0].
    + discriminate.
  - (* there are chunks *)
    assert (Hne : Chunking.createChunksFromPages p <> []).
    { fold chunks. rewrite Hchunks. discriminate. }
    destruct (triple_indexAndRegister env p (index w) Hne o w0 w' r (eq_sym Hi0) E)
      as ((ev1 & Ht1 & Hf1) & HS & HR).
    fold chunks namespace in Hf1, HS, HR. rewrite Hchunks in Hf1, HS, HR.
    exists (ev0 ++ ev1)%list.
    split; [reflexivity|]. split; [now rewrite Ht1, Ht0, app_assoc|]. split; [|split].
    + intros s Hs Hreg.
      assert (Hstate : s = index w \/ covered namespace (c0 :: rest) s).
      { destruct Hs as [<-|Hs]; [now left|].
        apply in_app_or in Hs as [Hs|[<-|[]]]; [|exact HS].
        apply in_map_iff in Hs as (ev & <- & Hev).
        apply in_app_or in Hev as [Hev|Hev].
        - left. rewrite Forall_forall in Hf0. exact (proj1 (Hf0 ev Hev)).
        - rewrite Forall_forall in Hf1. now apply Hf1. }
      destruct Hstate as [->|Hcov]; [contradiction | exact Hcov].
    + discriminate.
    + intros resp ->. split; [discriminate|]. exact (proj2 (HR resp eq_refl)).
Qed.

Lemma upload_never_partial_witness :
  exists w' resp,
    uploadDocument {| file_name := "rate.txt"; file_text := "Rate: 1200 USD" |} None
      Samples.env (Samples.oracle (Samples.idle false) []) Samples.start = (w', inr resp)
    /\ registered Samples.env (index w') "doc-1".
Proof.
  destruct (upload_never_partial
              {| file_name := "rate.txt"; file_text := "Rate: 1200 USD" |} None
              Samples.env (Samples.oracle (Samples.idle false) []) Samples.start
              (fst (uploadInputs {| file_name := "rate.txt"; file_text := "Rate: 1200 USD" |}
                      None Samples.env (Samples.oracle (Samples.idle false) [])
                      Samples.start))
              {| Chunking.documentId := "doc-1";
                 Chunking.tenantId := "tenant-demo";
                 Chunking.fileName := "rate.txt";
                 Chunking.uploadedAt := "2024-01-01T00:00:00.000Z";
                 Chunking.pageTexts := [{| pageNumber := 1; text := "Rate: 1200 USD" |}];
                 Chunking.targetChars := None;
                 Chunking.overlapChars := None |})
    as (w' & r & events & Hrun & _ & _ & _ & Hok).
  - vm_compute. reflexivity.
  - intros (r & [] & _).
  - destruct r as [e|resp].
    + vm_compute in Hrun. discriminate.
    + exists w', resp. split; [exact Hrun|]. exact (proj2 (Hok resp eq_refl)).
Defined.

End UploadFacts.

(** * Further properties *)

(** ** Chunking *)

Module ChunkingExtras.
Import JsString Chunking Vocabulary ExtraVocabulary StringFacts ChunkingFacts.

Lemma append_assoc (a b c : string) : (a ++ b) ++ c = a ++ b ++ c.
Proof. induction a as [|x a IH]; simpl; [reflexivity | now rewrite IH]. Qed.

Lemma len_pos (s : string) : s <> EmptyString -> 0 < len s.
Proof. destruct s; [contradiction | unfold len; simpl; lia]. Qed.

Lemma slice_prefix_len (s : string) (n : Z) : 0 <= n -> len (slice s 0 n) = Z.min n (len s).
Proof.
  intros Hn. pose proof (len_nonneg s) as Hl. unfold slice, relIndex.
  assert (E0 : (0 <? 0) = false) by reflexivity.
  assert (En : (n <? 0) = false) by (apply Z.ltb_ge; exact Hn).
  rewrite E0, En. replace (Z.min 0 (len s)) with 0 by lia.
  unfold len at 1. rewrite substring_length; unfold len in *; lia.
Qed.

(** A step of the loop pushes no empty chunk. *)
Lemma chunkStep_no_empty (targetChars overlapChars : Z) chunks current paragraph :
  0 < targetChars ->
  Forall (fun c => c <> EmptyString) chunks ->
  Forall (fun c => c <> EmptyString)
    (fst (chunkStep targetChars overlapChars (chunks, current) paragraph)).
Proof.
  intros Ht Hall. unfold chunkStep.
  destruct (len current =? 0) eqn:E; [exact Hall|].
  destruct (len (current ++ sep ++ paragraph) <=? targetChars); [exact Hall|].
  assert (Hcur : current <> EmptyString).
  { intros ->. discriminate. }
  set (seed := if nonEmpty _ then _ else paragraph).
  destruct (3 * targetChars <? 2 * len seed) eqn:L; simpl.
  - apply Z.ltb_lt in L. apply Forall_app. split.
    + apply Forall_app. split; [exact Hall | now repeat constructor].
    + constructor; [|constructor]. intros Hempty.
      pose proof (slice_prefix_len seed targetChars ltac:(lia)) as Hlen.
      rewrite Hempty in Hlen. unfold len at 1 in Hlen. simpl in Hlen. lia.
  - apply Forall_app. split; [exact Hall | now repeat constructor].
Qed.

Lemma fold_no_empty (targetChars overlapChars : Z) paragraphs st :
  0 < targetChars ->
  Forall (fun c => c <> EmptyString) (fst st) ->
  Forall (fun c => c <> EmptyString)
    (fst (fold_left (chunkStep targetChars overlapChars) paragraphs st)).
Proof.
  intros Ht. revert st. induction paragraphs as [|p ps IH]; intros [chunks current] H; simpl.
  - exact H.
  - apply IH. now apply chunkStep_no_empty.
Qed.

(** X1.  With a positive target size, [buildOverlappingChunks] returns
    no empty chunk, whatever the paragraphs and the overlap. *)
Theorem chunks_never_empty (paragraphs : list string) (targetChars overlapChars : Z) :
  0 < targetChars ->
  Forall (fun c => c <> EmptyString)
    (buildOverlappingChunks paragraphs targetChars overlapChars).
Proof.
  intros Ht. unfold buildOverlappingChunks.
  destruct paragraphs as [|p ps]; [constructor|].
  pose proof (fold_no_empty targetChars overlapChars (p :: ps) ([], EmptyString) Ht
                (Forall_nil _)) as H.
  destruct (fold_left _ (p :: ps) _) as [chunks current]. simpl in H.
  destruct (0 <? len current) eqn:E; [|exact H].
  apply Forall_app. split; [exact H|]. constructor; [|constructor].
  intros ->. discriminate.
Qed.

Lemma chunks_never_empty_witness :
  Forall (fun c => c <> EmptyString) (buildOverlappingChunks ["a"; "b"] 1 0)
  /\ In EmptyString (buildOverlappingChunks ["a"; "b"] 0 0).
Proof.
  split; [apply chunks_never_empty; reflexivity | right; left; reflexivity].
Defined.

(** *** Paragraphs that fit *)

Lemma concat_merge (a b : string) (l : list string) :
  String.concat sep ((a ++ sep ++ b) :: l) = String.concat sep (a :: b :: l).
Proof. destruct l as [|c l]; simpl; [reflexivity|]. now rewrite !append_assoc. Qed.

Lemma concat_head (a : string) (l : list string) :
  exists rest, String.concat sep (a :: l) = a ++ rest.
Proof.
  destruct l as [|b l]; simpl.
  - exists EmptyString. clear. induction a; simpl; congruence.
  - eauto.
Qed.

Lemma append_nonempty (a b : string) : a <> EmptyString -> a ++ b <> EmptyString.
Proof. destruct a; [contradiction | discriminate]. Qed.

Lemma fold_fits (targetChars overlapChars : Z) (ps : list string) (current : string) :
  current <> EmptyString ->
  len (String.concat sep (current :: ps)) <= targetChars ->
  fold_left (chunkStep targetChars overlapChars) ps ([], current)
  = ([], String.concat sep (current :: ps)).
Proof.
  revert current. induction ps as [|p ps IH]; intros current Hne Hlen; [reflexivity|].
  cbn [fold_left].
  destruct (concat_head p ps) as [rest Hrest].
  assert (Hfit : len current + 2 + len p <= targetChars).
  { change (String.concat sep (current :: p :: ps))
      with (current ++ sep ++ String.concat sep (p :: ps)) in Hlen.
    rewrite Hrest, !len_append, len_sep in Hlen. pose proof (len_nonneg rest). lia. }
  rewrite chunkStep_fits by assumption.
  rewrite IH.
  - now rewrite concat_merge.
  - now apply append_nonempty.
  - now rewrite concat_merge.
Qed.

(** X2.  Paragraphs that fit together in the target size (separators
    counted) make one chunk: the paragraphs joined by blank lines. *)
Theorem fitting_page_one_chunk (p : string) (ps : list string) (targetChars overlapChars : Z) :
  p <> EmptyString ->
  len (String.concat sep (p :: ps)) <= targetChars ->
  buildOverlappingChunks (p :: ps) targetChars overlapChars = [String.concat sep (p :: ps)].
Proof.
  intros Hne Hlen. unfold buildOverlappingChunks.
  change (fold_left (chunkStep targetChars overlapChars) (p :: ps) ([], EmptyString))
    with (fold_left (chunkStep targetChars overlapChars) ps ([], p)).
  rewrite fold_fits by assumption.
  destruct (concat_head p ps) as [rest Hrest].
  assert (Hpos : 0 < len (String.concat sep (p :: ps))).
  { apply len_pos. rewrite Hrest. now apply append_nonempty. }
  apply Z.ltb_lt in Hpos. now rewrite Hpos.
Qed.

Lemma fitting_page_one_chunk_witness :
  buildOverlappingChunks ["Shipper: ACME"; "Rate: 1200 USD"] 1200 180
  = ["Shipper: ACME" ++ sep ++ "Rate: 1200 USD"].
Proof.
  apply (fitting_page_one_chunk "Shipper: ACME" ["Rate: 1200 USD"] 1200 180).
  - discriminate.
  - vm_compute. discriminate.
Defined.

(** *** A page without a blank line *)

Lemma split_no_blank (s cur : string) :
  noBlankLine s = true ->
  splitBlankLines s cur 0 = [cur ++ s]
  /\ (forall c r, s = String c r -> Ascii.eqb c LF = false ->
      splitBlankLines s cur 1 = [cur ++ String LF EmptyString ++ s]).
Proof.
  revert cur. induction s as [|c r IH]; intros cur Hnb.
  - split; [simpl; f_equal; clear; induction cur; simpl; congruence | discriminate].
  - assert (Hr : noBlankLine r = true).
    { simpl in Hnb. destruct r; [reflexivity|]. now apply andb_true_iff in Hnb. }
    assert (Hnext : Ascii.eqb c LF = true -> forall d r', r = String d r' -> Ascii.eqb d LF = false).
    { intros Hc d r' ->. simpl in Hnb. rewrite Hc in Hnb.
      destruct (Ascii.eqb d LF); [discriminate | reflexivity]. }
    assert (Hzero : splitBlankLines (String c r) cur 0 = [cur ++ String c r]).
    { simpl. destruct (Ascii.eqb c LF) eqn:Hc.
      - specialize (Hnext eq_refl). apply Ascii.eqb_eq in Hc. subst c.
        destruct r as [|d r'].
        + reflexivity.
        + rewrite (proj2 (IH cur Hr) d r' eq_refl (Hnext d r' eq_refl)).
          reflexivity.
      - rewrite (proj1 (IH _ Hr)). now rewrite append_assoc. }
    split; [exact Hzero|].
    intros c' r' [= <- <-] Hc. simpl. rewrite Hc.
    rewrite (proj1 (IH _ Hr)). now rewrite append_assoc.
Qed.

Lemma collapse_keeps_text (s : string) :
  ExtractionVocabulary.trimmedNonEmpty s ->
  trim (collapseWhiteSpace s false) <> EmptyString.
Proof.
  intros (a & b & Hfirst & Ha & _). destruct s as [|c r]; [discriminate|].
  injection Hfirst as ->. simpl. rewrite Ha. unfold trim. simpl. rewrite Ha.
  destruct (ExtractionFacts.trimEnd_head a (collapseWhiteSpace r false) Ha) as [r' Hr'].
  rewrite Hr'. discriminate.
Qed.

(** X3.  A page whose text has something but no blank line is one
    paragraph, and one chunk whatever its length: its text with every
    run of white space turned into one space. *)
Theorem unbroken_page_one_chunk (page : PageText) (targetChars overlapChars : Z) :
  let normalized := trim (replaceCRLF (text page)) in
  normalized <> EmptyString ->
  noBlankLine normalized = true ->
  pageChunks page targetChars overlapChars = [trim (collapseWhiteSpace normalized false)].
Proof.
  intros normalized Hne Hnb. unfold pageChunks, splitIntoParagraphs. fold normalized.
  assert (E : nonEmpty normalized = true).
  { unfold nonEmpty. apply Z.ltb_lt. now apply len_pos. }
  rewrite E. simpl negb. cbv iota.
  rewrite (proj1 (split_no_blank normalized EmptyString Hnb)). simpl.
  assert (Hkeep : trim (collapseWhiteSpace normalized false) <> EmptyString).
  { apply collapse_keeps_text. now apply ExtractionFacts.trim_trimmed. }
  assert (E' : nonEmpty (trim (collapseWhiteSpace normalized false)) = true).
  { unfold nonEmpty. apply Z.ltb_lt. now apply len_pos. }
  rewrite E'. unfold buildOverlappingChunks. simpl.
  fold (nonEmpty (trim (collapseWhiteSpace normalized false))). now rewrite E'.
Qed.

Lemma unbroken_page_one_chunk_witness :
  pageChunks {| pageNumber := 1; text := "  Rate:   1200 USD " |} 5 2 = ["Rate: 1200 USD"].
Proof.
  apply (unbroken_page_one_chunk {| pageNumber := 1; text := "  Rate:   1200 USD " |} 5 2).
  - discriminate.
  - reflexivity.
Defined.

(** *** Records *)

Lemma seq_from (g : Z) (a n : nat) :
  map (fun k => g + Z.of_nat k) (seq a n) = map (fun k => g + Z.of_nat a + Z.of_nat k) (seq 0 n).
Proof.
  revert a. induction n as [|n IH]; intros a; [reflexivity|]. simpl. f_equal; [lia|].
  rewrite (IH (S a)), <- seq_shift, map_map.
  apply map_ext. intros k. lia.
Qed.

(** What [forEach] makes of the chunks of one page. *)
Lemma pageRecords_spec p page chunks idx g :
  snd (pageRecords p page chunks idx g) = g + Z.of_nat (List.length chunks)
  /\ map chunk_body (fst (pageRecords p page chunks idx g)) = chunks
  /\ map numberOf (fst (pageRecords p page chunks idx g))
     = map (fun k => g + Z.of_nat k) (seq 0 (List.length chunks))
  /\ Forall (fun r =>
        chunk_text (chunk_metadata r) = chunk_body r
        /\ document_id (chunk_metadata r) = documentId p
        /\ page_number (chunk_metadata r) = pageNumber page
        /\ exists k, idx < k <= idx + Z.of_nat (List.length chunks)
                     /\ chunk_id r = (documentId p ++ "#p" ++ showZ (pageNumber page)
                                      ++ "c" ++ showZ k)%string)
       (fst (pageRecords p page chunks idx g)).
Proof.
  revert idx g. induction chunks as [|c chunks IH]; intros idx g.
  - simpl. split; [lia|]. repeat split; constructor.
  - cbn [pageRecords].
    destruct (pageRecords p page chunks (idx + 1) (g + 1)) as [records next] eqn:E.
    destruct (IH (idx + 1) (g + 1)) as (Hnext & Hbody & Hnum & Hall). rewrite E in *.
    cbn [fst snd] in *. split; [|split; [|split]].
    + rewrite Hnext. cbn [List.length]. lia.
    + cbn [map chunk_body]. now rewrite Hbody.
    + cbn [map List.length seq]. unfold numberOf at 1. cbn [chunk_metadata chunk_number].
      f_equal; [lia|]. rewrite Hnum, <- seq_shift, map_map. apply map_ext. intros k. lia.
    + constructor.
      * cbn. repeat split. exists (idx + 1). split; [cbn [List.length]; lia | reflexivity].
      * eapply Forall_impl; [|exact Hall]. intros r (H1 & H2 & H3 & k & Hk & Hid).
        repeat split; try assumption. exists k. split; [cbn [List.length]; lia | exact Hid].
Qed.

Lemma pagesLoop_spec p target overlap pages g :
  map chunk_body (pagesLoop p target overlap pages g)
  = List.concat (map (fun page => pageChunks page target overlap) pages)
  /\ map numberOf (pagesLoop p target overlap pages g)
     = map (fun k => g + Z.of_nat k)
           (seq 0 (List.length (pagesLoop p target overlap pages g))).
Proof.
  revert g. induction pages as [|page pages IH]; intros g; [split; reflexivity|].
  cbn [pagesLoop]. fold (pageChunks page target overlap).
  destruct (pageRecords_spec p page (pageChunks page target overlap) 0 g)
    as (Hnext & Hbody & Hnum & _).
  destruct (pageRecords p page (pageChunks page target overlap) 0 g) as [records next].
  cbn [fst snd] in *. destruct (IH next) as [IHbody IHnum]. split.
  - rewrite map_app, Hbody, IHbody. reflexivity.
  - rewrite map_app, length_app, seq_app, map_app, Hnum, IHnum.
    assert (Hlen : List.length records = List.length (pageChunks page target overlap)).
    { rewrite <- Hbody. now rewrite length_map. }
    rewrite Hlen. f_equal. cbn [Nat.add].
    rewrite (seq_from g (List.length (pageChunks page target overlap))).
    now rewrite Hnext.
Qed.

Lemma chunks_of_pages (p : ChunkParams) :
  map chunk_body (createChunksFromPages p)
  = List.concat (map (fun page => pageChunks page (targetOf p) (overlapOf p)) (pageTexts p))
  /\ map numberOf (createChunksFromPages p)
     = map Z.of_nat (seq 1 (List.length (createChunksFromPages p))).
Proof.
  unfold createChunksFromPages. fold (targetOf p) (overlapOf p).
  destruct (pagesLoop_spec p (targetOf p) (overlapOf p) (pageTexts p) 1) as [Hbody Hnum].
  split; [exact Hbody|]. rewrite Hnum, <- seq_shift, map_map.
  apply map_ext. intros k. lia.
Qed.

(** X4.  [createChunksFromPages] loses and reorders nothing: the texts
    of its records are the chunks of the pages, page after page, and
    their [chunk_number]s are 1, 2, ... in that order, across pages. *)
Theorem chunks_in_document_order (p : ChunkParams) :
  map chunk_body (createChunksFromPages p)
  = List.concat (map (fun page => pageChunks page (targetOf p) (overlapOf p)) (pageTexts p))
  /\ map numberOf (createChunksFromPages p)
     = map Z.of_nat (seq 1 (List.length (createChunksFromPages p))).
Proof. apply chunks_of_pages. Qed.

Lemma pagesLoop_provenance p target overlap pages g r :
  In r (pagesLoop p target overlap pages g) ->
  exists page k,
    In page pages
    /\ page_number (chunk_metadata r) = pageNumber page
    /\ In (chunk_body r) (pageChunks page target overlap)
    /\ chunk_text (chunk_metadata r) = chunk_body r
    /\ document_id (chunk_metadata r) = documentId p
    /\ 1 <= k <= Z.of_nat (List.length (pageChunks page target overlap))
    /\ chunk_id r = (documentId p ++ "#p" ++ showZ (pageNumber page) ++ "c" ++ showZ k)%string.
Proof.
  revert g. induction pages as [|page pages IH]; intros g Hin; [contradiction|].
  cbn [pagesLoop] in Hin. fold (pageChunks page target overlap) in Hin.
  destruct (pageRecords_spec p page (pageChunks page target overlap) 0 g)
    as (_ & Hbody & _ & Hall).
  destruct (pageRecords p page (pageChunks page target overlap) 0 g) as [records next].
  cbn [fst snd] in *. apply in_app_or in Hin as [Hin|Hin].
  - rewrite Forall_forall in Hall. destruct (Hall r Hin) as (H1 & H2 & H3 & k & Hk & Hid).
    exists page, k. split; [now left|]. split; [exact H3|]. split.
    { rewrite <- Hbody. now apply in_map. }
    repeat split; try assumption; lia.
  - destruct (IH next Hin) as (page' & k & Hp & Hrest).
    exists page', k. split; [now right | exact Hrest].
Qed.

(** X5.  Every record of [createChunksFromPages] belongs to one page of
    the input: it carries the number of that page and the id of the
    document, its text is one of the chunks of that page, stored again
    as [chunk_text], and its id is the document id, ["#p"], the page
    number, ["c"] and an ordinal between 1 and the number of chunks of
    the page. *)
Theorem chunk_belongs_to_page (p : ChunkParams) (r : ChunkRecord) :
  In r (createChunksFromPages p) ->
  exists page k,
    In page (pageTexts p)
    /\ page_number (chunk_metadata r) = pageNumber page
    /\ In (chunk_body r) (pageChunks page (targetOf p) (overlapOf p))
    /\ chunk_text (chunk_metadata r) = chunk_body r
    /\ document_id (chunk_metadata r) = documentId p
    /\ 1 <= k <= Z.of_nat (List.length (pageChunks page (targetOf p) (overlapOf p)))
    /\ chunk_id r = (documentId p ++ "#p" ++ showZ (pageNumber page) ++ "c" ++ showZ k)%string.
Proof. apply pagesLoop_provenance. Qed.

Lemma chunk_belongs_to_page_witness :
  exists page k,
    In page (pageTexts ExtraSamples.twoPages)
    /\ pageNumber page = 2
    /\ chunk_id ExtraSamples.secondChunk
       = ("doc-1" ++ "#p" ++ showZ (pageNumber page) ++ "c" ++ showZ k)%string.
Proof.
  destruct (chunk_belongs_to_page ExtraSamples.twoPages ExtraSamples.secondChunk)
    as (page & k & Hpage & Hnum & _ & _ & _ & _ & Hid).
  - right. left. reflexivity.
  - exists page, k. split; [exact Hpage|]. split; [now rewrite <- Hnum | exact Hid].
Defined.

(** *** Blank pages *)

Lemma replaceCRLF_blank (s : string) :
  ExtractionVocabulary.allWhiteSpace s = true ->
  ExtractionVocabulary.allWhiteSpace (replaceCRLF s) = true.
Proof.
  induction s as [|c r IH]; [reflexivity|]. intros H.
  simpl in H. apply andb_true_iff in H as [Hc Hr]. specialize (IH Hr).
  simpl. destruct r as [|d r']; [simpl; now rewrite Hc|].
  destruct (Ascii.eqb c CR && Ascii.eqb d LF)%bool; [exact IH|].
  cbn [ExtractionVocabulary.allWhiteSpace]. now rewrite Hc, IH.
Qed.

Lemma blank_text_no_paragraph (input : string) :
  ExtractionVocabulary.allWhiteSpace input = true -> splitIntoParagraphs input = [].
Proof.
  intros H. unfold splitIntoParagraphs.
  now rewrite (proj2 (ExtractionFacts.trim_blank _) (replaceCRLF_blank input H)).
Qed.

Lemma blank_pages_no_record p target overlap pages g :
  Forall (fun page => ExtractionVocabulary.allWhiteSpace (text page) = true) pages ->
  pagesLoop p target overlap pages g = [].
Proof.
  intros H. revert g. induction H as [|page pages Hpage _ IH]; intros g; [reflexivity|].
  cbn [pagesLoop]. rewrite (blank_text_no_paragraph _ Hpage). simpl. apply IH.
Qed.

Lemma blank_app (a b : string) :
  ExtractionVocabulary.allWhiteSpace (a ++ b)
  = (ExtractionVocabulary.allWhiteSpace a && ExtractionVocabulary.allWhiteSpace b)%bool.
Proof.
  induction a as [|c a IH]; [reflexivity|]. simpl. now rewrite IH, andb_assoc.
Qed.

Lemma replaceCRLF_visible (s : string) :
  ExtractionVocabulary.allWhiteSpace (replaceCRLF s) = ExtractionVocabulary.allWhiteSpace s.
Proof.
  induction s as [|c r IH]; [reflexivity|].
  cbn [replaceCRLF]. destruct r as [|d r']; [reflexivity|].
  destruct (Ascii.eqb c CR && Ascii.eqb d LF)%bool eqn:E.
  - apply andb_true_iff in E as [Ec _]. apply Ascii.eqb_eq in Ec. subst c.
    rewrite IH. reflexivity.
  - cbn [ExtractionVocabulary.allWhiteSpace] in *. now rewrite IH.
Qed.

Lemma trim_visible (s : string) :
  ExtractionVocabulary.allWhiteSpace s = false ->
  ExtractionVocabulary.allWhiteSpace (trim s) = false.
Proof.
  intros H.
  assert (Hne : trim s <> EmptyString).
  { intros E. apply ExtractionFacts.trim_blank in E. congruence. }
  destruct (ExtractionFacts.trim_trimmed s Hne) as (a & b & Hfirst & Ha & _).
  destruct (trim s) as [|c r]; [discriminate|].
  injection Hfirst as ->. simpl. now rewrite Ha.
Qed.

Lemma collapse_visible (s : string) (ws : bool) :
  ExtractionVocabulary.allWhiteSpace (collapseWhiteSpace s ws)
  = ExtractionVocabulary.allWhiteSpace s.
Proof.
  revert ws. induction s as [|c r IH]; intros ws; [reflexivity|].
  simpl. destruct (isWhiteSpace c) eqn:E.
  - destruct ws; [apply IH|]. simpl. apply IH.
  - simpl. now rewrite E.
Qed.

(** Text that shows is in one of the pieces between the blank lines. *)
Lemma split_visible (s cur : string) (nl : nat) :
  ExtractionVocabulary.allWhiteSpace cur = false
  \/ ExtractionVocabulary.allWhiteSpace s = false ->
  Exists (fun part => ExtractionVocabulary.allWhiteSpace part = false)
         (splitBlankLines s cur nl).
Proof.
  revert cur nl. induction s as [|c r IH]; intros cur nl H.
  - destruct H as [H|H]; [|discriminate]. simpl.
    destruct nl as [|[|nl]]; constructor; [exact H | | exact H].
    rewrite blank_app, H. reflexivity.
  - cbn [splitBlankLines]. destruct (Ascii.eqb c LF) eqn:E.
    + apply IH. destruct H as [H|H]; [now left|]. right.
      apply Ascii.eqb_eq in E. subst c. exact H.
    + assert (Hnext : forall pre,
                ExtractionVocabulary.allWhiteSpace (pre ++ String c EmptyString) = false
                \/ ExtractionVocabulary.allWhiteSpace r = false
                \/ ExtractionVocabulary.allWhiteSpace cur = false /\ isWhiteSpace c = true
                   /\ ExtractionVocabulary.allWhiteSpace r = true).
      { intros pre. rewrite blank_app. destruct H as [H|H].
        - destruct (isWhiteSpace c) eqn:Ec.
          + destruct (ExtractionVocabulary.allWhiteSpace r) eqn:Er; auto.
          + left. simpl. rewrite Ec. apply andb_false_r.
        - simpl in H. apply andb_false_iff in H as [H|H]; [|auto].
          left. simpl. rewrite H. apply andb_false_r. }
      destruct nl as [|[|nl]].
      * apply IH. destruct (Hnext cur) as [H1|[H1|(H1 & _)]]; auto.
        left. rewrite blank_app, H1. reflexivity.
      * apply IH.
        destruct (Hnext (cur ++ String LF EmptyString)) as [H1|[H1|(H1 & _)]].
        -- left. rewrite append_assoc in H1. exact H1.
        -- now right.
        -- left. rewrite blank_app, H1. reflexivity.
      * destruct (Hnext EmptyString) as [H1|[H1|(H1 & _)]].
        -- apply Exists_cons_tl, IH. now left.
        -- apply Exists_cons_tl, IH. now right.
        -- now apply Exists_cons_hd.
Qed.

Lemma visible_text_paragraph (input : string) :
  ExtractionVocabulary.allWhiteSpace input = false -> splitIntoParagraphs input <> [].
Proof.
  intros H. unfold splitIntoParagraphs.
  set (normalized := trim (replaceCRLF input)).
  assert (Hn : ExtractionVocabulary.allWhiteSpace normalized = false).
  { apply trim_visible. now rewrite replaceCRLF_visible. }
  assert (Hne : nonEmpty normalized = true).
  { destruct normalized; [discriminate | reflexivity]. }
  rewrite Hne. cbn [negb].
  pose proof (split_visible normalized EmptyString O (or_intror Hn)) as Hex.
  apply Exists_exists in Hex as (part & Hin & Hpart).
  intros E.
  assert (Hmem : In (trim (collapseWhiteSpace part false))
                   (filter nonEmpty
                      (map (fun part => trim (collapseWhiteSpace part false))
                           (splitBlankLines normalized EmptyString O)))).
  { apply filter_In. split.
    - apply in_map_iff. now exists part.
    - assert (Hv : ExtractionVocabulary.allWhiteSpace (trim (collapseWhiteSpace part false))
                   = false).
      { apply trim_visible. now rewrite collapse_visible. }
      destruct (trim (collapseWhiteSpace part false)); [discriminate | reflexivity]. }
  rewrite E in Hmem. contradiction.
Qed.

Lemma paragraphs_nonempty (input : string) :
  Forall (fun paragraph => paragraph <> EmptyString) (splitIntoParagraphs input).
Proof.
  unfold splitIntoParagraphs. destruct (negb _); [constructor|].
  apply Forall_forall. intros paragraph Hin. apply filter_In in Hin as [_ Hin].
  intros ->. discriminate.
Qed.

Lemma chunkStep_output (targetChars overlapChars : Z) st paragraph :
  paragraph <> EmptyString ->
  fst (chunkStep targetChars overlapChars st paragraph) <> []
  \/ snd (chunkStep targetChars overlapChars st paragraph) <> EmptyString.
Proof.
  intros Hp. destruct st as [chunks current]. unfold chunkStep.
  destruct (len current =? 0) eqn:E0; [now right|].
  assert (Hcur : current <> EmptyString).
  { intros ->. discriminate. }
  destruct (len (current ++ sep ++ paragraph) <=? targetChars).
  - right. simpl. now apply append_nonempty.
  - left. destruct (3 * targetChars <? _); simpl; intros E;
      apply (f_equal (@List.length string)) in E; rewrite ?length_app in E;
      simpl in E; lia.
Qed.

Lemma fold_output (targetChars overlapChars : Z) paragraphs st :
  paragraphs <> [] -> Forall (fun paragraph => paragraph <> EmptyString) paragraphs ->
  fst (fold_left (chunkStep targetChars overlapChars) paragraphs st) <> []
  \/ snd (fold_left (chunkStep targetChars overlapChars) paragraphs st) <> EmptyString.
Proof.
  revert st. induction paragraphs as [|p ps IH]; intros st Hne Hall; [contradiction|].
  inversion Hall as [|? ? Hp Hps]; subst. cbn [fold_left].
  destruct ps as [|q ps'].
  - cbn [fold_left]. now apply chunkStep_output.
  - apply IH; [discriminate | exact Hps].
Qed.

Lemma visible_page_chunk (page : PageText) (targetChars overlapChars : Z) :
  ExtractionVocabulary.allWhiteSpace (text page) = false ->
  pageChunks page targetChars overlapChars <> [].
Proof.
  intros H. unfold pageChunks, buildOverlappingChunks.
  pose proof (visible_text_paragraph _ H) as Hne.
  pose proof (paragraphs_nonempty (text page)) as Hall.
  destruct (splitIntoParagraphs (text page)) as [|p ps] eqn:E; [contradiction|].
  destruct (fold_output targetChars overlapChars (p :: ps) ([], EmptyString) Hne Hall)
    as [Hout|Hout];
    destruct (fold_left _ (p :: ps) _) as [chunks current]; cbn [fst snd] in Hout.
  - destruct (0 <? len current); [|exact Hout].
    intros E'. apply app_eq_nil in E' as [E' _]. contradiction.
  - assert (Hpos : (0 <? len current) = true).
    { apply Z.ltb_lt. now apply len_pos. }
    rewrite Hpos. intros E'. apply app_eq_nil in E' as [_ E']. discriminate.
Qed.

Lemma empty_iff_blank (p : ChunkParams) :
  createChunksFromPages p = []
  <-> Forall (fun page => ExtractionVocabulary.allWhiteSpace (text page) = true) (pageTexts p).
Proof.
  split.
  - intros E. destruct (chunks_of_pages p) as [Hbody _]. rewrite E in Hbody.
    symmetry in Hbody. apply Forall_forall. intros page Hin.
    destruct (ExtractionVocabulary.allWhiteSpace (text page)) eqn:Hblank; [reflexivity|].
    exfalso. apply (visible_page_chunk page (targetOf p) (overlapOf p) Hblank).
    assert (Hall : Forall (fun l : list string => l = [])
                     (map (fun page => pageChunks page (targetOf p) (overlapOf p))
                          (pageTexts p))).
    { apply Forall_forall. intros l Hl.
      destruct l as [|c l']; [reflexivity|]. exfalso.
      assert (Hc : In c (List.concat (map (fun page => pageChunks page (targetOf p) (overlapOf p))
                                          (pageTexts p)))).
      { apply in_concat. exists (c :: l'). split; [exact Hl | now left]. }
      rewrite Hbody in Hc. exact Hc. }
    rewrite Forall_forall in Hall. apply Hall. apply in_map_iff. now exists page.
  - intros H. unfold createChunksFromPages. now apply blank_pages_no_record.
Qed.

(** X6.  [createChunksFromPages] returns no chunk exactly when every page
    holds nothing but white space: one page with some text that shows
    is enough for a chunk, whatever the target and overlap sizes. *)
Theorem no_chunk_iff_blank (p : ChunkParams) :
  createChunksFromPages p = []
  <-> Forall (fun page => ExtractionVocabulary.allWhiteSpace (text page) = true) (pageTexts p).
Proof. apply empty_iff_blank. Qed.

End ChunkingExtras.

(** ** The evidence pool and the confidence *)

Module PoolExtras.
Import JsNumber Pool Vocabulary ExtraVocabulary NumberFacts PoolFacts ConfidenceFacts.
Local Open Scope Q_scope.

Lemma mapSet_new (m : JsMap) k v : mapGet m k = None -> mapSet m k v = (m ++ [(k, v)])%list.
Proof.
  induction m as [|[k' v'] m IH]; simpl; [reflexivity|].
  destruct (String.eqb k' k); [discriminate|]. intros H. now rewrite IH.
Qed.

Lemma mapGet_app (m1 m2 : JsMap) k :
  mapGet (m1 ++ m2)%list k = match mapGet m1 k with Some v => Some v | None => mapGet m2 k end.
Proof.
  induction m1 as [|[k' v'] m1 IH]; simpl; [reflexivity|].
  destruct (String.eqb k' k); [reflexivity | exact IH].
Qed.

Lemma mapGet_entries_None (l : list SourceSnippet) k :
  ~ In k (map id l) -> mapGet (entries l) k = None.
Proof.
  induction l as [|s l IH]; simpl; [reflexivity|]. intros H.
  destruct (String.eqb (id s) k) eqn:E.
  - apply String.eqb_eq in E. exfalso. apply H. now left.
  - apply IH. intro Hin. apply H. now right.
Qed.

Lemma mapGet_entries_Some (l : list SourceSnippet) e :
  NoDup (map id l) -> In e l -> mapGet (entries l) (id e) = Some e.
Proof.
  induction l as [|s l IH]; simpl; [intros _ []|]. intros Hnd [->|Hin].
  - now rewrite String.eqb_refl.
  - inversion Hnd as [|? ? Hnot Hnd']; subst.
    destruct (String.eqb (id s) (id e)) eqn:E; [|now apply IH].
    apply String.eqb_eq in E. exfalso. apply Hnot. rewrite E. now apply in_map.
Qed.

(** Distinct ids go into the map one behind the other. *)
Lemma fold_distinct (l done : list SourceSnippet) :
  NoDup (map id (done ++ l)%list) ->
  fold_left mergeStep l (entries done) = entries (done ++ l)%list.
Proof.
  revert done. induction l as [|s l IH]; intros done Hnd; simpl.
  - now rewrite app_nil_r.
  - assert (Hnew : ~ In (id s) (map id done)).
    { rewrite map_app in Hnd. simpl in Hnd. apply NoDup_remove_2 in Hnd.
      intro Hin. apply Hnd. apply in_or_app. now left. }
    unfold mergeStep at 2. rewrite (mapGet_entries_None done _ Hnew).
    rewrite (mapSet_new _ _ _ (mapGet_entries_None done _ Hnew)).
    change (entries done ++ [(id s, s)])%list with (entries done ++ entries [s])%list.
    unfold entries at 1 2. rewrite <- map_app. fold (entries (done ++ [s])).
    rewrite IH; rewrite <- app_assoc; [reflexivity | exact Hnd].
Qed.

(** A known snippet leaves the map as it is. *)
Lemma fold_known (pool incoming : list SourceSnippet) :
  NoDup (map id pool) -> Forall (known pool) incoming ->
  fold_left mergeStep incoming (entries pool) = entries pool.
Proof.
  intros Hnd H. induction H as [|s incoming (e & He & Hid & Hle) _ IH]; [reflexivity|].
  simpl. unfold mergeStep at 2. rewrite <- Hid, (mapGet_entries_Some pool e Hnd He).
  apply ltb_ge in Hle. now rewrite Hle.
Qed.

Lemma sort_sorted_fixed (l : list SourceSnippet) :
  StronglySorted desc l -> sort byScoreDesc l = l.
Proof.
  induction 1 as [|x l Hs IH Hall]; [reflexivity|].
  unfold sort in *. simpl. rewrite IH.
  destruct l as [|y r]; [reflexivity|]. simpl.
  inversion Hall as [|? ? Hxy _]; subst.
  assert (E : ltb 0 (byScoreDesc x y) = false).
  { destruct (ltb 0 (byScoreDesc x y)) eqn:E; [|reflexivity].
    apply byScoreDesc_pos in E. unfold desc in Hxy.
    exfalso. exact (Qlt_not_le _ _ E Hxy). }
  now rewrite E.
Qed.

Lemma mapValues_entries (l : list SourceSnippet) : mapValues (entries l) = l.
Proof. unfold mapValues, entries. rewrite map_map. simpl. apply map_id. Qed.

Lemma merge_known (pool incoming : list SourceSnippet) :
  NoDup (map id pool) -> StronglySorted desc pool ->
  (List.length pool <= MAX_SOURCES_IN_STATE)%nat ->
  Forall (known pool) incoming ->
  mergeSources pool incoming MAX_SOURCES_IN_STATE = pool.
Proof.
  intros Hnd Hs Hlen Hknown.
  unfold mergeSources. rewrite fold_left_app.
  change (@nil (string * SourceSnippet)) with (entries []).
  rewrite (fold_distinct pool [] Hnd). cbn [app].
  rewrite (fold_known pool incoming Hnd Hknown), mapValues_entries, (sort_sorted_fixed _ Hs).
  now apply firstn_all2.
Qed.

(** X7.  A retrieval call that returns nothing, or only snippets that
    the pool already holds with a score at least as high, leaves the
    evidence pool exactly as it was: same entries, same order. *)
Theorem known_results_keep_pool (batches : list (list SourceSnippet))
    (incoming : list SourceSnippet) :
  Forall (known (gather batches)) incoming ->
  gather (batches ++ [incoming]) = gather batches.
Proof.
  intros H. rewrite gather_snoc.
  destruct (gather_invariant batches) as (Hnd & Hlen & Hs & _).
  now apply merge_known.
Qed.

Lemma known_results_keep_pool_witness :
  gather ([[Samples.snippet "a" 0.9; Samples.snippet "b" 0.7]]
          ++ [[Samples.snippet "b" 0.5; Samples.snippet "a" 0.9]])
  = gather [[Samples.snippet "a" 0.9; Samples.snippet "b" 0.7]].
Proof.
  apply known_results_keep_pool. constructor; [|constructor; [|constructor]].
  - exists (Samples.snippet "b" 0.7). split; [right; left; reflexivity|].
    split; [reflexivity | vm_compute; discriminate].
  - exists (Samples.snippet "a" 0.9). split; [left; reflexivity|].
    split; [reflexivity | vm_compute; discriminate].
Defined.

Lemma clamp_unit (x : Q) : 0 <= clamp x 0 1 <= 1.
Proof.
  unfold clamp. split; [apply Q.le_max_l|].
  apply Q.max_lub; [discriminate | apply Q.le_min_l].
Qed.

Lemma retrievalSignal_unit sources : 0 <= retrievalSignal sources <= 1.
Proof. apply clamp_unit. Qed.

Lemma agreementSignal_unit sources : 0 <= agreementSignal sources <= 1.
Proof.
  unfold agreementSignal. destruct (ltb _ _); [apply clamp_unit|].
  split; [apply Qle_refl | discriminate].
Qed.

Lemma citationSignal_unit sources cited : 0 <= citationSignal sources cited <= 1.
Proof.
  unfold citationSignal. destruct (_ <? _)%nat; [apply clamp_unit|].
  split; [apply Qle_refl | discriminate].
Qed.

Lemma roundTo_unit (x : Q) : 0 <= x <= 1 -> 0 <= roundTo x 4 <= 1.
Proof.
  intros [H0 H1]. split.
  - assert (E : roundTo 0 4 == 0) by reflexivity.
    rewrite <- E. now apply roundTo_mono.
  - assert (E : roundTo 1 4 == 1) by reflexivity.
    rewrite <- E. now apply roundTo_mono.
Qed.

Lemma weighted_unit (a b c r s t : Q) :
  0 <= a -> 0 <= b -> 0 <= c -> a + b + c == 1 ->
  0 <= r <= 1 -> 0 <= s <= 1 -> 0 <= t <= 1 ->
  0 <= a * r + b * s + c * t <= 1.
Proof.
  intros Ha Hb Hc Hsum [Hr0 Hr1] [Hs0 Hs1] [Ht0 Ht1]. split.
  - repeat first [apply (Qplus_le_compat 0 _ 0 _) | apply Qmult_le_0_compat]; assumption.
  - rewrite <- Hsum.
    repeat apply Qplus_le_compat.
    + rewrite <- (Qmult_1_r a) at 2. rewrite !(Qmult_comm a). now apply Qmult_le_compat_r.
    + rewrite <- (Qmult_1_r b) at 2. rewrite !(Qmult_comm b). now apply Qmult_le_compat_r.
    + rewrite <- (Qmult_1_r c) at 2. rewrite !(Qmult_comm c). now apply Qmult_le_compat_r.
Qed.

Lemma confidence_bounds (sources : list SourceSnippet) (cited : list string) :
  0 <= calculateConfidence sources cited <= 1.
Proof.
  unfold calculateConfidence. apply roundTo_unit.
  apply weighted_unit; try discriminate; try reflexivity.
  - apply retrievalSignal_unit.
  - apply agreementSignal_unit.
  - apply citationSignal_unit.
Qed.

(** X8.  The confidence that [calculateConfidence] computes is a number
    between 0 and 1, whatever the scores of the sources (negative, above
    2.5) and whatever is cited. *)
Theorem confidence_in_range (sources : list SourceSnippet) (cited : list string) :
  0 <= calculateConfidence sources cited <= 1.
Proof. apply confidence_bounds. Qed.

End PoolExtras.

(** ** The workflow of a question *)

Module WorkflowExtras.
Import JsString JsNumber Effects Hybrid Pool Workflow Service.
Import Vocabulary GuardVocabulary RunVocabulary ExtraVocabulary.
Import NumberFacts PoolFacts MonadFacts WorkflowFacts ScopeFacts StringFacts.
Local Open Scope Q_scope.

Lemma floor_passed env pool :
  pool <> [] -> guardrailMinTopScore env <= topScore pool ->
  ((List.length pool =? 0)%nat || ltb (topScore pool) (guardrailMinTopScore env))%bool = false.
Proof.
  intros Hne Hpass. apply ltb_ge in Hpass. rewrite Hpass.
  destruct pool; [contradiction | reflexivity].
Qed.

(** The third gate, for a pool that passed the first and a reply that
    passed the second. *)
Lemma confidence_verdict env params rewrittenQuery reply pool :
  pool <> [] -> guardrailMinTopScore env <= topScore pool ->
  agent_not_found reply = false -> grounded reply = true ->
  let resp := applyGuardrails env params rewrittenQuery (Some reply) pool in
  let computed := calculateConfidence pool (cited_chunk_ids reply) in
  confidence resp == computed
  /\ (computed < guardrailLowConfidence env ->
      guardrail resp = not_found /\ answer resp = NOT_FOUND_ANSWER)
  /\ (guardrailLowConfidence env <= computed ->
      computed < guardrailCautionConfidence env ->
      guardrail resp = caution
      /\ answer resp = (trim (agent_answer reply) ++ Chunking.sep ++ CAUTION_NOTICE)%string)
  /\ (guardrailLowConfidence env <= computed ->
      guardrailCautionConfidence env <= computed ->
      guardrail resp = ok /\ answer resp = trim (agent_answer reply)).
Proof.
  intros Hne Hpass Hfound Hgrounded. unfold applyGuardrails. fold (topScore pool).
  cbv zeta. rewrite (floor_passed env pool Hne Hpass). cbn [agent_not_found grounded].
  rewrite Hfound, Hgrounded. cbn [negb orb].
  set (computed := calculateConfidence pool (cited_chunk_ids reply)).
  destruct (ltb computed (guardrailLowConfidence env)) eqn:Elow;
    [|destruct (ltb computed (guardrailCautionConfidence env)) eqn:Ecaution];
    cbn [confidence guardrail answer];
    (split; [subst computed; unfold calculateConfidence; apply roundTo_idempotent|]).
  - apply ltb_lt in Elow. split; [now split|]. split; intros Hge; exfalso;
      exact (Qlt_not_le _ _ Elow Hge).
  - apply ltb_ge in Elow. apply ltb_lt in Ecaution. split; [|split].
    + intros Hlt. exfalso. exact (Qlt_not_le _ _ Hlt Elow).
    + intros _ _. now split.
    + intros _ Hge. exfalso. exact (Qlt_not_le _ _ Ecaution Hge).
  - apply ltb_ge in Elow. apply ltb_ge in Ecaution. split; [|split].
    + intros Hlt. exfalso. exact (Qlt_not_le _ _ Hlt Elow).
    + intros _ Hlt. exfalso. exact (Qlt_not_le _ _ Hlt Ecaution).
    + intros _ _. now split.
Qed.

(** X9.  When the evidence pool passed the retrieval floor and the
    controller stands by its answer (grounded, not [not_found]), the
    computed confidence alone decides: below [guardrailLowConfidence]
    the response is [not_found] with the fixed answer; from there up to
    [guardrailCautionConfidence] it is [caution] and the trimmed answer
    carries the caution notice behind a blank line; from there on it is
    [ok] with the trimmed answer.  The response reports the computed
    confidence in all three cases. *)
Theorem confidence_gate params env o w w' rewrittenQuery reply pool :
  controllerRun params env o w = (w', inr (rewrittenQuery, Some reply, pool)) ->
  passesFloor env pool ->
  agent_not_found reply = false -> grounded reply = true ->
  let computed := calculateConfidence pool (cited_chunk_ids reply) in
  exists resp,
    runRagWorkflow params env o w = (w', inr resp)
    /\ confidence resp == computed
    /\ (computed < guardrailLowConfidence env ->
        guardrail resp = not_found /\ answer resp = NOT_FOUND_ANSWER)
    /\ (guardrailLowConfidence env <= computed ->
        computed < guardrailCautionConfidence env ->
        guardrail resp = caution
        /\ answer resp = (trim (agent_answer reply) ++ Chunking.sep ++ CAUTION_NOTICE)%string)
    /\ (guardrailLowConfidence env <= computed ->
        guardrailCautionConfidence env <= computed ->
        guardrail resp = ok /\ answer resp = trim (agent_answer reply)).
Proof.
  intros Hrun Hpass Hfound Hgrounded. rewrite runRagWorkflow_split, Hrun.
  destruct (controllerRun_inr _ _ _ _ _ _ _ _ Hrun) as [batches ->].
  apply passesFloor_topScore in Hpass as [Hne Hok].
  eexists. split; [reflexivity|]. now apply confidence_verdict.
Qed.

Lemma confidence_gate_witness :
  exists w' resp,
    runRagWorkflow Samples.params Samples.env
      (Samples.oracle (Samples.once false) [Samples.found "doc-1#p1c1" 0.95])
      Samples.start = (w', inr resp)
    /\ guardrail resp = ok
    /\ answer resp = "The rate is 1200 USD."%string.
Proof.
  destruct (confidence_gate Samples.params Samples.env
              (Samples.oracle (Samples.once false) [Samples.found "doc-1#p1c1" 0.95])
              Samples.start _ _ (Samples.reply false)
              [Samples.snippet "doc-1#p1c1" (JsNumber.roundTo 0.95 4)] eq_refl)
    as (resp & Hrun & _ & _ & _ & Hok).
  - exists (Samples.snippet "doc-1#p1c1" (JsNumber.roundTo 0.95 4)).
    split; [now left|]. split.
    + intros e [<-|[]]. apply Qle_refl.
    + vm_compute. discriminate.
  - reflexivity.
  - reflexivity.
  - destruct Hok as [Hg Ha]; [vm_compute; discriminate | vm_compute; discriminate|].
    eexists _, resp. split; [exact Hrun|]. split; [exact Hg | exact Ha].
Defined.






(** X11.  [rewriteQuestion] never fails and never writes: it makes its
    one call to the model, and what it returns is fixed by the model's
    answer.  When the model fails the question itself is returned; when
    the model answers, the result is the trimmed answer if that is not
    empty and the question itself if it is, which is the case for an
    answer of white space only.  So a question that is not empty is
    never rewritten into an empty query. *)
Theorem rewrite_falls_back (question : string) env o w :
  exists q,
    rewriteQuestion question env o w
    = (record w (ChatRewrite question) (index w), inr q)
    /\ (forall e, o string (trace w) (ChatRewrite question) = inl e -> q = question)
    /\ (forall output, o string (trace w) (ChatRewrite question) = inr output ->
        trim output <> EmptyString -> q = trim output)
    /\ (forall output, o string (trace w) (ChatRewrite question) = inr output ->
        trim output = EmptyString -> q = question)
    /\ (forall output, o string (trace w) (ChatRewrite question) = inr output ->
        ExtractionVocabulary.allWhiteSpace output = true -> q = question)
    /\ (question <> EmptyString -> q <> EmptyString).
Proof.
  unfold rewriteQuestion, tryCatch, bind, extCall, ret.
  destruct (o string (trace w) (ChatRewrite question)) as [e|output] eqn:E.
  - exists question. split; [reflexivity|]. repeat split; try discriminate; auto.
  - destruct (0 <? len (trim output))%Z eqn:Epos.
    + assert (Hne : trim output <> EmptyString).
      { intros H. rewrite H in Epos. discriminate. }
      exists (trim output). split; [reflexivity|].
      split; [discriminate|]. split; [now intros ? [= <-]|].
      split; [intros ? [= <-] H; now destruct Hne|].
      split; [|auto]. intros ? [= <-] Hblank. exfalso. apply Hne.
      now apply ExtractionFacts.trim_blank, Hblank.
    + exists question. split; [reflexivity|].
      split; [discriminate|]. split; [|repeat split; auto].
      intros ? [= <-] Hne. exfalso. apply Hne.
      destruct (trim output); [reflexivity|].
      unfold len in Epos. cbn [String.length] in Epos. apply Z.ltb_ge in Epos. lia.
Qed.

Lemma quiet_embedDense (Q : Call -> Prop) texts :
  Q (MkCall _ (EmbedDense texts)) -> Quiet Q (embedDenseBatch texts).
Proof.
  intros HQ. unfold embedDenseBatch. apply quiet_bind; [apply quiet_requireEnv|].
  intros _. now apply quiet_extCall.
Qed.

Lemma quiet_embedSparse (Q : Call -> Prop) texts inputType :
  Q (MkCall _ (EmbedSparse texts inputType)) -> Quiet Q (embedSparseBatch texts inputType).
Proof.
  intros HQ. unfold embedSparseBatch. apply quiet_bind; [apply quiet_requireEnv|].
  intros _. now apply quiet_extCall.
Qed.

Lemma quiet_retrieve params gatheredSources query :
  rag_documentIds params <> [] ->
  Quiet (inScope params) (retrieveDocumentChunks params gatheredSources query).
Proof.
  intros Hids. unfold retrieveDocumentChunks. apply quiet_bind.
  - unfold queryHybrid. cbn [Hybrid.query Hybrid.namespace Hybrid.documentId
                              Hybrid.documentIds Hybrid.topK Hybrid.alpha].
    apply quiet_bind; [apply quiet_getIndex|]. intros _.
    apply quiet_bind; [apply quiet_getEnv|]. intros env.
    apply quiet_bind; [now apply quiet_embedDense|]. intros denseAll.
    apply quiet_bind; [now apply quiet_embedSparse|]. intros sparseAll.
    apply quiet_bind; [|intros matches; apply quiet_ret].
    apply quiet_extCall. cbn [inScope].
    destruct (rag_documentIds params); [contradiction | auto].
  - intros sources. destruct (_ =? _)%nat; apply quiet_ret.
Qed.

Lemma quiet_runAgent params agent gatheredSources :
  rag_documentIds params <> [] ->
  Quiet (inScope params) (runAgent params agent gatheredSources).
Proof.
  intros Hids. revert gatheredSources.
  induction agent as [query next IH|structuredResponse]; intros gatheredSources; simpl.
  - apply quiet_bind; [now apply quiet_retrieve|]. intros r. apply IH.
  - apply quiet_ret.
Qed.

Lemma quiet_runRagWorkflow params :
  rag_documentIds params <> [] -> Quiet (inScope params) (runRagWorkflow params).
Proof.
  intros Hids. unfold runRagWorkflow.
  apply quiet_bind; [apply quiet_requireEnv|]. intros _.
  apply quiet_bind.
  { unfold rewriteQuestion. apply quiet_tryCatch; [|apply quiet_ret].
    apply quiet_bind; [now apply quiet_extCall|]. intros output. apply quiet_ret. }
  intros rewrittenQuery.
  apply quiet_bind; [now apply quiet_extCall|]. intros agent.
  apply quiet_bind; [now apply quiet_runAgent|]. intros agentResult.
  apply quiet_bind; [apply quiet_getEnv|]. intros env. apply quiet_ret.
Qed.

(** X12.  Whatever the controller asks for and however often, a
    question on a non-empty list of documents leaves the index as it
    was, and every query of the index that it makes goes to the
    namespace of the request, asks for 6 matches and is filtered on
    exactly the documents of the request. *)
Theorem retrieval_stays_in_scope params env o w w' r :
  rag_documentIds params <> [] ->
  runRagWorkflow params env o w = (w', r) ->
  index w' = index w
  /\ exists events,
       trace w' = (trace w ++ events)%list
       /\ Forall (fun ev => after ev = index w /\ inScope params (call ev)) events.
Proof. intros Hids. now apply quiet_runRagWorkflow. Qed.

Lemma retrieval_stays_in_scope_witness :
  exists events,
    trace (fst (runRagWorkflow Samples.params Samples.env
                  (Samples.oracle (Samples.once false) [Samples.found "doc-1#p1c1" 0.95])
                  Samples.start))
    = events
    /\ List.length events = 5%nat
    /\ Forall (fun ev => inScope Samples.params (call ev)) events.
Proof.
  destruct (retrieval_stays_in_scope Samples.params Samples.env
              (Samples.oracle (Samples.once false) [Samples.found "doc-1#p1c1" 0.95])
              Samples.start _ _ ltac:(discriminate) eq_refl) as (_ & events & Ht & Hf).
  exists events. split; [exact Ht|]. split.
  - apply (f_equal (@List.length Event)) in Ht. vm_compute in Ht. now symmetry.
  - eapply Forall_impl; [|exact Hf]. now intros ev [_ H].
Defined.

Lemma trim_nonblank (s : string) : Chunking.nonEmpty (trim s) = true -> trim s <> EmptyString.
Proof. intros H E. rewrite E in H. discriminate. Qed.

Lemma resolveAskContext_ids documentId documentIds env o w w' context :
  resolveAskContext documentId documentIds env o w = (w', inr context) ->
  ask_documentIds context <> [].
Proof.
  unfold resolveAskContext.
  set (rawIds := filter Chunking.nonEmpty _).
  destruct (0 <? List.length rawIds)%nat eqn:Epos.
  - intros H. apply bind_inr in H as (w1 & items & _ & H).
    unfold throw in H.
    destruct (0 <? List.length (map fst _))%nat; [discriminate|].
    destruct (filterMap _ items) as [|first rest]; [discriminate|].
    destruct (negb _); [discriminate|].
    apply ret_inr in H as [_ ->]. cbn [ask_documentIds].
    apply unique_nonempty. intros E. rewrite E in Epos. discriminate.
  - intros H. apply bind_inr in H as (w1 & single & _ & H).
    apply ret_inr in H as [_ ->]. discriminate.
Qed.

Lemma quiet_resolveDocumentContext documentId :
  Quiet readsSelectedDocuments (resolveDocumentContext documentId).
Proof.
  unfold resolveDocumentContext. apply quiet_bind.
  - destruct documentId; [apply quiet_ret|].
    unfold Registry.getLatestDocumentId. now apply quiet_extCall.
  - intros [selected|]; [|apply quiet_throw].
    destruct (String.eqb selected ""); [apply quiet_throw|].
    apply quiet_bind.
    + eapply quiet_weaken; [|apply quiet_getRegistryItem].
      intros [X []]; simpl; tauto.
    + intros [item|]; [apply quiet_ret | apply quiet_throw].
Qed.

Lemma quiet_resolveAskContext documentId documentIds :
  Quiet readsSelectedDocuments (resolveAskContext documentId documentIds).
Proof.
  unfold resolveAskContext. destruct (0 <? _)%nat.
  - apply quiet_bind.
    + apply quiet_forEachM. intros a.
      eapply quiet_weaken; [|apply quiet_getRegistryItem].
      intros [X []]; simpl; tauto.
    + intros items. destruct (0 <? _)%nat; [apply quiet_throw|].
      destruct (filterMap _ items); [apply quiet_throw|].
      destruct (negb _); [apply quiet_throw | apply quiet_ret].
  - apply quiet_bind; [apply quiet_resolveDocumentContext|]. intros single. apply quiet_ret.
Qed.

(** X13.  Asking a question never writes to the index, whatever the
    request and whatever the outside answers; and no query of the index
    goes out unfiltered: each one carries a non-empty list of document
    ids. *)
Theorem ask_never_writes (question : string) documentId documentIds env o w w' r :
  askDocumentQuestion question documentId documentIds env o w = (w', r) ->
  index w' = index w
  /\ exists events,
       trace w' = (trace w ++ events)%list
       /\ Forall (fun ev => after ev = index w /\ readsSelectedDocuments (call ev)) events.
Proof.
  unfold askDocumentQuestion. destruct (len (trim question) =? 0)%Z.
  { now apply quiet_throw. }
  rewrite bind_run.
  destruct (resolveAskContext documentId documentIds env o w) as [w1 [e|context]] eqn:E.
  { intros [= <- <-]. exact (quiet_resolveAskContext _ _ _ _ _ _ _ E). }
  intros Hrun.
  destruct (quiet_resolveAskContext _ _ _ _ _ _ _ E) as (Hi & ev1 & Ht & Hf).
  pose proof (resolveAskContext_ids _ _ _ _ _ _ _ E) as Hids.
  destruct (quiet_runRagWorkflow
              {| Workflow.question := trim question;
                 rag_namespace := ask_namespace context;
                 rag_documentIds := ask_documentIds context |} Hids _ _ _ _ _ Hrun)
    as (Hi' & ev2 & Ht' & Hf').
  split; [congruence|]. exists (ev1 ++ ev2)%list.
  split; [now rewrite Ht', Ht, app_assoc|].
  apply Forall_app. split; [exact Hf|].
  eapply Forall_impl; [|exact Hf']. intros [c a] [Ha Hc]. cbn [after call] in *.
  split; [congruence|].
  destruct c as [X []]; simpl in *; try tauto.
  destruct Hc as (_ & _ & ->).
  destruct (ask_documentIds context) as [|d ds]; [contradiction | eauto].
Qed.

Lemma ask_never_writes_witness :
  index (fst (askDocumentQuestion "What is the rate?" None (Some ["doc-1"%string])
                Samples.env
                (Samples.oracle (Samples.once false) [Samples.found "doc-1#p1c1" 0.95])
                Samples.twoTenants))
  = index Samples.twoTenants.
Proof.
  exact (proj1 (ask_never_writes "What is the rate?" None (Some ["doc-1"%string])
                  Samples.env
                  (Samples.oracle (Samples.once false) [Samples.found "doc-1#p1c1" 0.95])
                  Samples.twoTenants _ _ (surjective_pairing _))).
Defined.

End WorkflowExtras.

(** ** The extraction *)

Module ExtractionExtras.
Import JsString JsNumber Effects Hybrid Extraction ExtractionVocabulary ExtraVocabulary.
Import NumberFacts MonadFacts StringFacts ExtractionFacts.

(** [requireEnv] reads the environment only. *)
Lemma requireEnv_world keys env o w w' r : requireEnv keys env o w = (w', r) -> w' = w.
Proof.
  unfold requireEnv, bind, getEnv, throw, ret.
  destruct (0 <? _)%nat; intros [= <- _]; reflexivity.
Qed.

Lemma readDigits_noDigit (s : string) (acc : Z) (count : nat) :
  noDigit s = true -> readDigits s acc count = (acc, count, s).
Proof.
  destruct s as [|c r]; [reflexivity|]. simpl. intros H.
  apply andb_true_iff in H as [Hc _]. apply negb_true_iff in Hc. now rewrite Hc.
Qed.

Lemma keepNumeric_noDigit (s : string) : noDigit s = true -> noDigit (keepNumeric s) = true.
Proof.
  induction s as [|c r IH]; [reflexivity|]. simpl. intros H.
  apply andb_true_iff in H as [Hc Hr].
  destruct (isDigit c || Ascii.eqb c "." || Ascii.eqb c "-")%bool; [|now apply IH].
  simpl. now rewrite Hc, IH.
Qed.

Lemma trimStart_noDigit (s : string) : noDigit s = true -> noDigit (trimStart s) = true.
Proof.
  induction s as [|c r IH]; [reflexivity|]. intros H. simpl.
  destruct (isWhiteSpace c); [|exact H].
  simpl in H. apply andb_true_iff in H as [_ Hr]. now apply IH.
Qed.

Lemma trimEnd_noDigit (s : string) : noDigit s = true -> noDigit (trimEnd s) = true.
Proof.
  induction s as [|c r IH]; [reflexivity|]. intros H.
  simpl in H. apply andb_true_iff in H as [Hc Hr]. specialize (IH Hr).
  simpl. destruct (trimEnd r) as [|d r'].
  - destruct (isWhiteSpace c); [reflexivity|]. simpl. now rewrite Hc.
  - change (noDigit (String c (String d r')))
      with (negb (isDigit c) && noDigit (String d r'))%bool.
    now rewrite Hc, IH.
Qed.

Lemma parseFloat_noDigit (s : string) : noDigit s = true -> parseFloat s = None.
Proof.
  intros H. unfold parseFloat.
  assert (Hbody : forall body, noDigit body = true ->
            (let '(intValue, intCount, rest) := readDigits body 0 O in
             let '(fracValue, fracCount) :=
               match rest with
               | String c r =>
                   if Ascii.eqb c "."
                   then let '(v, n, _) := readDigits r 0 O in (v, n) else (0, O)
               | EmptyString => (0, O)
               end in
             if (intCount + fracCount =? 0)%nat then None
             else
               Some (inject_Z intValue
                     + inject_Z fracValue / inject_Z (10 ^ Z.of_nat fracCount))%Q)
            = None).
  { intros body Hb. rewrite (readDigits_noDigit body 0 O Hb).
    destruct body as [|c r]; [reflexivity|].
    destruct (Ascii.eqb c "."); [|reflexivity].
    simpl in Hb. apply andb_true_iff in Hb as [_ Hr].
    now rewrite (readDigits_noDigit r 0 O Hr). }
  destruct s as [|c r].
  - reflexivity.
  - destruct (Ascii.eqb c "-").
    + simpl in H. apply andb_true_iff in H as [_ Hr].
      specialize (Hbody r Hr). cbv zeta in Hbody.
      destruct (readDigits r 0 O) as [[intValue intCount] rest].
      destruct (match rest with String _ _ => _ | EmptyString => _ end) as [fracValue fracCount].
      destruct (intCount + fracCount =? 0)%nat; [reflexivity | discriminate].
    + specialize (Hbody (String c r) H). cbv zeta in Hbody.
      destruct (readDigits (String c r) 0 O) as [[intValue intCount] rest].
      destruct (match rest with String _ _ => _ | EmptyString => _ end) as [fracValue fracCount].
      destruct (intCount + fracCount =? 0)%nat; [reflexivity | discriminate].
Qed.

(** X14.  A text with no digit in it never becomes a number: whatever
    signs, dots, words or symbols it holds, [toNullableNumber] returns
    [null] for it, so that [rate] and [weight] are [null] and count as
    missing. *)
Theorem number_without_digit_is_null (s : string) :
  noDigit s = true -> toNullableNumber (JsString s) = None.
Proof.
  intros H. unfold toNullableNumber.
  destruct (len (trim (keepNumeric s)) =? 0); [reflexivity|].
  rewrite parseFloat_noDigit; [reflexivity|]. unfold trim.
  now apply trimEnd_noDigit, trimStart_noDigit, keepNumeric_noDigit.
Qed.

Lemma number_without_digit_is_null_witness :
  toNullableNumber (JsString "TBD - call for quote.") = None.
Proof. apply number_without_digit_is_null. reflexivity. Defined.

(** A number too large for binary64 is given up as well: 400 nines are
    read as [Infinity], which is not finite, while 300 nines are kept. *)
Example overflowing_number_is_null :
  toNullableNumber (JsString (ExtraSamples.nines 400)) = None
  /\ toNullableNumber (JsString (ExtraSamples.nines 300))
     = Some (inject_Z (10 ^ 300 - 1)).
Proof. split; vm_compute; reflexivity. Qed.

Lemma field_count_bound (e : ShipmentExtraction) : (non_null_field_count e <= 11)%nat.
Proof.
  destruct e as [f1 f2 f3 f4 f5 f6 f7 f8 f9 f10 f11]. unfold non_null_field_count.
  cbn [shipment_id shipper consignee pickup_datetime delivery_datetime equipment_type
       mode rate currency weight carrier_name].
  destruct f1, f2, f3, f4, f5, f6, f7, f8, f9, f10, f11; simpl; lia.
Qed.

(** X15.  For a self-assessed confidence of the model between 0 and 1,
    the range that the schema of the answer enforces, the confidence of
    an extraction lies between 0 and 1 whatever fields are present. *)
Theorem extraction_confidence_in_range (e : ShipmentExtraction) (m : Q) :
  (0 <= m <= 1)%Q -> (0 <= computeExtractionConfidence e m <= 1)%Q.
Proof.
  intros [Hm0 Hm1]. rewrite confidence_of_extraction.
  apply PoolExtras.roundTo_unit.
  assert (Hk : (0 <= Pool.ofNat (non_null_field_count e) / 11 <= 1)%Q).
  { split.
    - apply Qle_shift_div_l; [reflexivity|]. rewrite Qmult_0_l.
      change 0%Q with (Pool.ofNat 0). apply ConfidenceFacts.ofNat_le. lia.
    - apply Qle_shift_div_r; [reflexivity|]. rewrite Qmult_1_l.
      change 11%Q with (Pool.ofNat 11). apply ConfidenceFacts.ofNat_le, field_count_bound. }
  destruct Hk as [Hk0 Hk1]. split.
  - apply (Qplus_le_compat 0 _ 0 _); apply Qmult_le_0_compat; try discriminate; assumption.
  - assert (E : (1 == 0.65 * 1 + 0.35 * 1)%Q) by reflexivity.
    rewrite E. apply Qplus_le_compat.
    + rewrite !(Qmult_comm 0.65). apply Qmult_le_compat_r; [exact Hm1 | discriminate].
    + rewrite !(Qmult_comm 0.35). apply Qmult_le_compat_r; [exact Hk1 | discriminate].
Qed.

Lemma extraction_confidence_in_range_witness :
  (0 <= computeExtractionConfidence (normalize Samples.output) 0.9 <= 1)%Q.
Proof.
  apply extraction_confidence_in_range. split; vm_compute; discriminate.
Defined.

Lemma slice_prefix (s : string) (n : Z) :
  0 <= n -> exists rest, s = slice s 0 n ++ rest.
Proof.
  intros Hn. pose proof (len_nonneg s) as Hl. unfold slice, relIndex.
  assert (E0 : (0 <? 0) = false) by reflexivity.
  assert (En : (n <? 0) = false) by (apply Z.ltb_ge; exact Hn).
  rewrite E0, En. replace (Z.min 0 (len s)) with 0 by lia. cbn [Z.to_nat].
  eexists. apply substring_split. unfold len in *. lia.
Qed.

(** X16.  [extractShipmentData] never writes to the index and makes at
    most one call to the outside: the request to the model, which
    carries the first 40000 characters of the text, the whole text when
    it is shorter, and the file name, or ["unknown"] without one. *)
Theorem extraction_prompt_bounded (text : string) (fileName : option string) env o w w' r :
  extractShipmentData text fileName env o w = (w', r) ->
  w' = w
  \/ exists documentText rest,
       w' = record w (ChatExtract (match fileName with Some f => f | None => "unknown" end)
                                  documentText) (index w)
       /\ text = documentText ++ rest
       /\ len documentText = Z.min 40000 (len text).
Proof.
  unfold extractShipmentData. rewrite bind_run.
  destruct (requireEnv _ env o w) as [w0 [e|[]]] eqn:Ereq;
    apply requireEnv_world in Ereq; subst w0.
  - intros [= <- <-]. now left.
  - rewrite bind_run. unfold extCall at 1.
    intros H. right. destruct (slice_prefix text 40000 ltac:(lia)) as [rest Hrest].
    exists (slice text 0 40000), rest. split; [|split].
    + destruct (o ExtractionOutput (trace w) _); injection H as <- _; reflexivity.
    + exact Hrest.
    + apply ChunkingExtras.slice_prefix_len. lia.
Qed.

Lemma extraction_prompt_bounded_witness :
  exists w', fst (extractShipmentData "Rate: 1200 USD" None Samples.env
                    (Samples.oracle (Samples.idle false) []) Samples.start) = w'
             /\ List.length (trace w') = 1%nat.
Proof.
  destruct (extraction_prompt_bounded "Rate: 1200 USD" None Samples.env
              (Samples.oracle (Samples.idle false) []) Samples.start _ _ eq_refl)
    as [H|(documentText & rest & H & _)].
  - discriminate H.
  - eexists. split; [exact H | reflexivity].
Defined.

End ExtractionExtras.

(** ** The registry of documents *)

Module RegistryExtras.
Import JsString Effects Hybrid Registry Service RunVocabulary ExtraVocabulary.
Import MonadFacts StringFacts ScopeFacts ExtractionExtras.

Lemma indexFetch_inr namespace ids env o w w' fetched :
  indexFetch namespace ids env o w = (w', inr fetched) ->
  index w' = index w
  /\ fetched
     = map snd (filter (fun entry =>
                          (String.eqb (fst entry) namespace
                           && existsb (String.eqb (record_id (snd entry))) ids)%bool)
                       (index w)).
Proof.
  unfold indexFetch. destruct (o unit (trace w) _); [discriminate|].
  intros [= <- <-]. now split.
Qed.

Lemma toRegistryItem_complete (item : DocumentRegistryItem) :
  complete item = true ->
  toRegistryItem (Some (RegistryMeta
                          {| record_type := "document_registry";
                             reg_document_id := documentId item;
                             reg_file_name := fileName item;
                             reg_uploaded_at := uploadedAt item;
                             reg_namespace := namespace item;
                             reg_tenant_id := tenantId item;
                             reg_chunk_count := chunkCount item |}))
  = Some (trimmed item).
Proof.
  unfold complete, toRegistryItem, trimmed. cbn [forallb]. intros H.
  cbn [reg_document_id reg_file_name reg_uploaded_at reg_namespace reg_tenant_id
       reg_chunk_count].
  repeat (apply andb_true_iff in H as [? H]).
  assert (Hne : forall f, Chunking.nonEmpty (trim f) = true -> String.eqb (trim f) "" = false).
  { intros f Hf. destruct (trim f); [discriminate | reflexivity]. }
  now rewrite !Hne by assumption.
Qed.

Lemma toRegistryItem_incomplete (item : DocumentRegistryItem) :
  complete item = false ->
  toRegistryItem (Some (RegistryMeta
                          {| record_type := "document_registry";
                             reg_document_id := documentId item;
                             reg_file_name := fileName item;
                             reg_uploaded_at := uploadedAt item;
                             reg_namespace := namespace item;
                             reg_tenant_id := tenantId item;
                             reg_chunk_count := chunkCount item |}))
  = None.
Proof.
  unfold complete, toRegistryItem. cbn [forallb]. intros H.
  cbn [reg_document_id reg_file_name reg_uploaded_at reg_namespace reg_tenant_id
       reg_chunk_count].
  assert (Hne : forall f, String.eqb (trim f) "" = negb (Chunking.nonEmpty (trim f))).
  { intros f. now destruct (trim f). }
  rewrite !Hne.
  destruct (Chunking.nonEmpty (trim (documentId item))); [|reflexivity].
  destruct (Chunking.nonEmpty (trim (fileName item))); [|reflexivity].
  destruct (Chunking.nonEmpty (trim (uploadedAt item))); [|reflexivity].
  destruct (Chunking.nonEmpty (trim (namespace item))); [|reflexivity].
  destruct (Chunking.nonEmpty (trim (tenantId item))); [discriminate H | reflexivity].
Qed.

(** The two calls of [saveRegistryItem]: the embedding of the summary
    of the entry and the write of its record. *)
Lemma saveRegistryItem_inr (item : DocumentRegistryItem) env o w w1 u :
  saveRegistryItem item env o w = (w1, inr u) ->
  exists embeddings,
    o (list Vector) (trace w) (EmbedDense [registryEmbeddingInput item]) = inr embeddings
    /\ trace w1
       = (trace w
          ++ [event (index w) (EmbedDense [registryEmbeddingInput item]);
              event (index w1)
                (IndexUpsert (getRegistryNamespace env)
                   [registryRecord item (nth_error embeddings 0)])])%list.
Proof.
  intros Hsave. unfold saveRegistryItem in Hsave.
  apply bind_inr in Hsave as (w0 & env' & Henv & Hsave).
  rewrite getEnv_run in Henv. injection Henv as <- <-.
  apply bind_inr in Hsave as (w0 & [] & Hindex & Hsave).
  apply requireEnv_world in Hindex. subst w0.
  apply bind_inr in Hsave as (w3 & embeddings & Hdense & Hsave).
  unfold embedDenseBatch in Hdense.
  apply bind_inr in Hdense as (w0 & [] & Hkey & Hdense).
  apply requireEnv_world in Hkey. subst w0.
  apply extCall_inr in Hdense as [-> Hdense].
  exists embeddings. split; [exact Hdense|].
  unfold indexUpsert in Hsave.
  destruct (o unit _ _); [discriminate|].
  injection Hsave as <- _. cbn [trace index record]. rewrite <- app_assoc. reflexivity.
Qed.

(** X17.  What [saveRegistryItem] hands to the store is what the
    registry reads back as the entry.  A save that returns has made two
    calls, the embedding of the summary of the entry and then one write,
    to the registry namespace, of one record; that record has the
    registry id of the document and the embedding received, and
    [toRegistryItem] reads its metadata as the entry with its five texts
    trimmed when none of them is blank, and as no entry when one is.
    Nothing is said of when a later lookup is shown the record. *)
Theorem saved_record_reads_back (item : DocumentRegistryItem) env o w w1 :
  saveRegistryItem item env o w = (w1, inr tt) ->
  exists embeddings,
    o (list Vector) (trace w) (EmbedDense [registryEmbeddingInput item]) = inr embeddings
    /\ trace w1
       = (trace w
          ++ [event (index w) (EmbedDense [registryEmbeddingInput item]);
              event (index w1)
                (IndexUpsert (getRegistryNamespace env)
                   [registryRecord item (nth_error embeddings 0)])])%list
    /\ record_id (registryRecord item (nth_error embeddings 0))
       = toRegistryId (documentId item)
    /\ (complete item = true ->
        toRegistryItem (Some (record_metadata (registryRecord item (nth_error embeddings 0))))
        = Some (trimmed item))
    /\ (complete item = false ->
        toRegistryItem (Some (record_metadata (registryRecord item (nth_error embeddings 0))))
        = None).
Proof.
  intros Hsave. destruct (saveRegistryItem_inr item env o w w1 tt Hsave)
    as (embeddings & Hcall & Htrace).
  exists embeddings. split; [exact Hcall|]. split; [exact Htrace|].
  split; [reflexivity|]. split.
  - apply toRegistryItem_complete.
  - apply toRegistryItem_incomplete.
Qed.

Lemma saved_record_reads_back_witness :
  exists embedding,
    toRegistryItem
      (Some (record_metadata
               (registryRecord (Samples.item "doc-1" "tenant-demo:acme" " acme ") embedding)))
    = Some (Samples.item "doc-1" "tenant-demo:acme" "acme").
Proof.
  destruct (saved_record_reads_back (Samples.item "doc-1" "tenant-demo:acme" " acme ")
              Samples.env (Samples.oracle (Samples.idle false) []) Samples.start _ eq_refl)
    as (embeddings & _ & _ & _ & Hback & _).
  exists (nth_error embeddings 0). exact (Hback eq_refl).
Defined.

(** A document that the registry does not hold is not found. *)
Lemma unregistered_lookup (d : string) env o w w' found :
  ~ registered env (index w) d ->
  getRegistryItem d env o w = (w', inr found) -> found = None.
Proof.
  intros Hnot H. unfold getRegistryItem in H.
  apply bind_inr in H as (w0 & [] & Hindex & H).
  apply requireEnv_world in Hindex. subst w0.
  apply bind_inr in H as (w0 & env' & Henv & H).
  rewrite getEnv_run in Henv. injection Henv as <- <-.
  apply bind_inr in H as (w1 & fetched & Hfetch & H).
  apply indexFetch_inr in Hfetch as [_ ->].
  destruct (find _ _) as [r|] eqn:Efind.
  - exfalso. apply Hnot. apply find_some in Efind as [Hin Hid].
    apply String.eqb_eq in Hid.
    apply in_map_iff in Hin as ([ns r'] & Hr & Hin). simpl in Hr. subst r'.
    apply filter_In in Hin as [Hin Hslot]. simpl in Hslot.
    apply andb_true_iff in Hslot as [Hns _]. apply String.eqb_eq in Hns. subst ns.
    exists r. now split.
  - cbn [option_map toRegistryItem] in H. now apply ret_inr in H as [_ ->].
Qed.

Lemma lookups_of_unregistered (ids : list string) (d : string) env o w w' items :
  forEachM getRegistryItem ids env o w = (w', inr items) ->
  In d ids -> ~ registered env (index w) d ->
  In (d, None) (combine ids items).
Proof.
  revert w w' items.
  induction ids as [|x ids IH]; intros w w' items H Hin Hnot; [contradiction|].
  simpl in H.
  apply bind_inr in H as (w1 & found & Hx & H).
  apply bind_inr in H as (w2 & rest & Hrest & H).
  apply ret_inr in H as [_ ->].
  destruct Hin as [->|Hin].
  - left. now rewrite (unregistered_lookup d env o w w1 found Hnot Hx).
  - right. apply (IH w1 w2 rest Hrest Hin).
    destruct (quiet_getRegistryItem x _ _ _ _ _ Hx) as [Hi _]. now rewrite Hi.
Qed.

Lemma in_unique (ids seen : list string) (d : string) :
  In d ids -> ~ In d seen -> In d (unique ids seen).
Proof.
  revert seen. induction ids as [|x ids IH]; intros seen Hin Hseen; [contradiction|].
  simpl. destruct (existsb (String.eqb x) seen) eqn:E.
  - destruct Hin as [->|Hin]; [|now apply IH].
    exfalso. apply existsb_exists in E as (y & Hy & Heq).
    apply String.eqb_eq in Heq. now subst y.
  - destruct (string_dec x d) as [->|Hne]; [now left|].
    right. destruct Hin as [Hx|Hin]; [contradiction|].
    apply IH; [exact Hin|]. intros [Hx|Hs]; contradiction.
Qed.

(** X18.  A question that names, among its documents, one that the
    registry does not hold is never answered: [askDocumentQuestion]
    fails, having only looked documents up in the registry: no text was
    embedded, the index was not queried and nothing was written. *)
Theorem unknown_document_rejected (question : string) documentId (documentIds : list string)
    (d : string) env o w w' r :
  In d (namedIds documentIds) ->
  ~ registered env (index w) d ->
  askDocumentQuestion question documentId (Some documentIds) env o w = (w', r) ->
  (exists e, r = inl e)
  /\ index w' = index w
  /\ exists events,
       trace w' = (trace w ++ events)%list
       /\ Forall (fun ev => isFetch (call ev)) events.
Proof.
  intros Hin Hnot. unfold askDocumentQuestion.
  destruct (len (trim question) =? 0)%Z.
  { intros [= <- <-]. split; [eauto|]. split; [reflexivity|].
    exists []. split; [now rewrite app_nil_r | constructor]. }
  rewrite bind_run. unfold resolveAskContext. fold (namedIds documentIds).
  assert (Hpos : (0 <? List.length (namedIds documentIds))%nat = true).
  { destruct (namedIds documentIds); [contradiction | reflexivity]. }
  rewrite Hpos, bind_run.
  destruct (forEachM getRegistryItem (unique (namedIds documentIds) []) env o w)
    as [w1 [e|items]] eqn:E.
  - intros [= <- <-]. split; [eauto|].
    destruct (quiet_forEachM isFetch getRegistryItem _ quiet_getRegistryItem _ _ _ _ _ E)
      as (Hi & events & Ht & Hf).
    split; [exact Hi|]. exists events. split; [exact Ht|].
    eapply Forall_impl; [|exact Hf]. now intros ev [_ H].
  - pose proof (lookups_of_unregistered _ d env o w w1 items E
                  (in_unique _ [] d Hin (fun H => H)) Hnot) as Hmissing.
    assert (Hsome : (0 <? List.length
                            (map fst (filter (fun p => isNull (snd p))
                                        (combine (unique (namedIds documentIds) []) items))))%nat
                    = true).
    { apply Nat.ltb_lt. rewrite length_map.
      assert (Hmem : In (d, @None DocumentRegistryItem)
                       (filter (fun p => isNull (snd p))
                          (combine (unique (namedIds documentIds) []) items))).
      { apply filter_In. now split. }
      destruct (filter _ _); [contradiction | simpl; lia]. }
    rewrite Hsome. intros [= <- <-]. split; [eauto|].
    destruct (quiet_forEachM isFetch getRegistryItem _ quiet_getRegistryItem _ _ _ _ _ E)
      as (Hi & events & Ht & Hf).
    split; [exact Hi|]. exists events. split; [exact Ht|].
    eapply Forall_impl; [|exact Hf]. now intros ev [_ H].
Qed.

Lemma unknown_document_rejected_witness :
  exists e,
    snd (askDocumentQuestion "What is the rate?" None (Some ["doc-1"; " doc-9 "]%string)
           Samples.env (Samples.oracle (Samples.once false) []) Samples.twoTenants)
    = inl e.
Proof.
  destruct (unknown_document_rejected "What is the rate?" None ["doc-1"; " doc-9 "]%string
              "doc-9" Samples.env (Samples.oracle (Samples.once false) [])
              Samples.twoTenants
              (fst (askDocumentQuestion "What is the rate?" None
                      (Some ["doc-1"; " doc-9 "]%string) Samples.env
                      (Samples.oracle (Samples.once false) []) Samples.twoTenants))
              (snd (askDocumentQuestion "What is the rate?" None
                      (Some ["doc-1"; " doc-9 "]%string) Samples.env
                      (Samples.oracle (Samples.once false) []) Samples.twoTenants)))
    as ([e He] & _).
  - right. left. reflexivity.
  - intros (r & [H|[H|[]]] & Hid); apply (f_equal snd) in H; simpl in H; subst r;
      vm_compute in Hid; discriminate Hid.
  - reflexivity.
  - exists e. exact He.
Defined.

End RegistryExtras.

(** ** The hybrid index *)

Module HybridExtras.
Import JsString JsNumber Effects Hybrid RunVocabulary ExtraVocabulary.
Import NumberFacts MonadFacts ScopeFacts ExtractionExtras.
Local Open Scope Q_scope.

Lemma toSnippet_shape (m : ScoredMatch) (s : SourceSnippet) :
  toSnippet m = Some s ->
  id s <> EmptyString
  /\ id s = match_id m
  /\ roundTo (score s) 4 == score s
  /\ Qabs (score s - rawScore m) <= 1 # 10000
  /\ match_metadata m = Some (metadata s)
  /\ snippet_text s = chunk_text (metadata s).
Proof.
  unfold toSnippet. destruct (match_metadata m) as [meta|]; [|discriminate].
  destruct (String.eqb (match_id m) "") eqn:E; [discriminate|].
  intros [= <-]. cbn [id score snippet_text metadata].
  split; [intros H; rewrite H in E; discriminate|].
  split; [reflexivity|]. split; [apply roundTo_idempotent|].
  split; [apply roundTo_near|]. now split.
Qed.

Lemma filterMap_in {A B} (f : A -> option B) (l : list A) (b : B) :
  In b (filterMap f l) -> exists a, In a l /\ f a = Some b.
Proof.
  induction l as [|a l IH]; simpl; [intros []|].
  destruct (f a) as [b'|] eqn:E.
  - intros [<-|H]; [eauto|]. destruct (IH H) as (a' & Ha & Hf). eauto.
  - intros H. destruct (IH H) as (a' & Ha & Hf). eauto.
Qed.

Lemma filterMap_length {A B} (f : A -> option B) (l : list A) :
  (List.length (filterMap f l) <= List.length l)%nat.
Proof.
  induction l as [|a l IH]; simpl; [lia|]. destruct (f a); simpl; lia.
Qed.

Lemma Forall2_left {A B} (P : A -> B -> Prop) (Q : A -> Prop) (l : list A) (l' : list B) :
  (forall a b, P a b -> Q a) -> Forall2 P l l' -> Forall Q l.
Proof.
  intros HPQ H. induction H as [|a b l l' Hab _ IH]; constructor; eauto.
Qed.

Lemma usableMatch_spec (m : ScoredMatch) :
  usableMatch m = match toSnippet m with Some _ => true | None => false end.
Proof.
  unfold usableMatch, toSnippet. destruct (match_metadata m).
  - rewrite Bool.andb_true_r. now destruct (String.eqb (match_id m) "").
  - apply Bool.andb_false_r.
Qed.

(** The snippets are the usable matches, one for one and in order. *)
Lemma snippets_of_matches (matches : list ScoredMatch) :
  Forall2 (fun s m => toSnippet m = Some s)
          (filterMap toSnippet matches) (List.filter usableMatch matches).
Proof.
  induction matches as [|m r IH]; [constructor|].
  cbn [filterMap List.filter]. rewrite usableMatch_spec.
  destruct (toSnippet m) as [s|] eqn:E; [|exact IH].
  constructor; [exact E | exact IH].
Qed.

(** X19.  The snippets that [queryHybrid] returns are, one for one and
    in order, the matches that the index gave in answer to the query, the
    last call of the run, less those with no id or no metadata.  Each
    snippet has the id of its match, which is not empty, and the
    metadata of its match, its text is the [chunk_text] of that
    metadata, and its score has at most four decimals and lies within
    one ten-thousandth of the score of the match (0 when the match has
    none).  The query leaves the index as it was. *)
Theorem query_snippets_well_formed (params : QueryParams) env o w w' snippets :
  queryHybrid params env o w = (w', inr snippets) ->
  index w' = index w
  /\ exists log vector sparseVector topK filter matches,
       trace w'
       = (log ++ [event (index w)
                    (IndexQuery (namespace params) vector sparseVector topK filter)])%list
       /\ o (list ScoredMatch) log
            (IndexQuery (namespace params) vector sparseVector topK filter) = inr matches
       /\ Forall2 (fun s m => id s = match_id m
                              /\ id s <> EmptyString
                              /\ match_metadata m = Some (metadata s)
                              /\ snippet_text s = chunk_text (metadata s)
                              /\ roundTo (score s) 4 == score s
                              /\ Qabs (score s - rawScore m) <= 1 # 10000)
                  snippets (List.filter usableMatch matches).
Proof.
  intros H. unfold queryHybrid in H.
  apply bind_inr in H as (w0 & [] & Hindex & H).
  apply requireEnv_world in Hindex. subst w0.
  apply bind_inr in H as (w0 & env' & Henv & H).
  rewrite getEnv_run in Henv. injection Henv as <- <-.
  apply bind_inr in H as (w1 & denseAll & Hdense & H).
  apply bind_inr in H as (w2 & sparseAll & Hsparse & H).
  apply bind_inr in H as (w3 & matches & Hquery & H).
  apply ret_inr in H as [-> ->].
  destruct (UploadFacts.quiet_embedDenseBatch _ _ _ _ _ _ Hdense) as [H1 _].
  destruct (UploadFacts.quiet_embedSparseBatch _ _ _ _ _ _ _ Hsparse) as [H2 _].
  apply extCall_inr in Hquery as [-> Hquery].
  split; [cbn [index record]; congruence|].
  eexists (trace w2), _, _, _, _, matches.
  split; [cbn [trace record]; unfold event; now rewrite H2, H1|].
  split; [exact Hquery|].
  eapply Forall2_impl; [|apply snippets_of_matches].
  intros s m Hm.
  destruct (toSnippet_shape m s Hm) as (Hne & Hid & Hround & Hnear & Hmeta & Htext).
  auto 7.
Qed.

Lemma query_snippets_well_formed_witness :
  exists w' snippets,
    queryHybrid {| query := "rate"; namespace := "tenant-demo:acme"; documentId := None;
                   documentIds := Some ["doc-1"%string]; topK := None; alpha := None |}
      Samples.env
      (Samples.oracle (Samples.idle false)
         [Samples.found "doc-1#p1c1" 0.91237; Samples.found "" 0.5])
      Samples.start = (w', inr snippets)
    /\ map id snippets = ["doc-1#p1c1"%string]
    /\ map score snippets = [0.9124]
    /\ Forall (fun s => id s <> EmptyString /\ roundTo (score s) 4 == score s) snippets.
Proof.
  eexists _, _. split; [vm_compute; reflexivity|].
  split; [reflexivity|]. split; [reflexivity|].
  destruct (query_snippets_well_formed
              {| query := "rate"; namespace := "tenant-demo:acme"; documentId := None;
                 documentIds := Some ["doc-1"%string]; topK := None; alpha := None |}
              Samples.env
              (Samples.oracle (Samples.idle false)
                 [Samples.found "doc-1#p1c1" 0.91237; Samples.found "" 0.5])
              Samples.start _ _ eq_refl)
    as [_ (log & vector & sparseVector & k & f & matches & _ & _ & H)].
  eapply Forall2_left; [|exact H].
  intros s m (_ & Hid & _ & _ & Hround & _). now split.
Defined.




Lemma requireEnv_present (key : string) (get : Env -> option string) env o w :
  missingValue (get env) = false -> requireEnv [(key, get)] env o w = (w, inr tt).
Proof.
  intros H. unfold requireEnv. rewrite bind_run, getEnv_run.
  cbn [filter snd]. now rewrite H.
Qed.

Lemma slice_cover {T} (items : list T) (i size : nat) :
  (sliceList items i (i + size) ++ skipn (i + size) items)%list = skipn i items.
Proof.
  unfold sliceList. replace (i + size - i)%nat with size by lia.
  rewrite Nat.add_comm, <- skipn_skipn. apply firstn_skipn.
Qed.

Lemma slice_size {T} (items : list T) (i size : nat) :
  (i < List.length items)%nat -> (1 <= size)%nat ->
  (1 <= List.length (sliceList items i (i + size)) <= size)%nat.
Proof.
  intros Hi Hsize. unfold sliceList. replace (i + size - i)%nat with size by lia.
  rewrite length_firstn, length_skipn. lia.
Qed.

(** The loop of [batch] over the dense embeddings, for a provider that
    answers every request with one vector per text. *)
Lemma batchLoop_dense (f : string -> Vector) env (o : Oracle) (size : nat) :
  missingValue (openAiApiKey env) = false ->
  (forall log texts, o (list Vector) log (EmbedDense texts) = inr (map f texts)) ->
  (1 <= size)%nat ->
  forall fuel (items : list string) i output w,
    (List.length items <= fuel + i)%nat ->
    exists w' requests,
      batchLoop fuel items size i embedDenseBatch output env o w
      = (w', inr (output ++ map f (skipn i items))%list)
      /\ index w' = index w
      /\ trace w' = (trace w ++ map (denseRequest (index w)) requests)%list
      /\ List.concat requests = skipn i items
      /\ Forall (fun texts => (1 <= List.length texts <= size)%nat) requests.
Proof.
  intros Hkey Ho Hsize. induction fuel as [|fuel IH]; intros items i output w Hfuel.
  - exists w, []. cbn [batchLoop].
    rewrite (skipn_all2 items) by lia. cbn [map List.concat]. rewrite !app_nil_r.
    repeat split; constructor.
  - cbn [batchLoop]. destruct (i <? List.length items)%nat eqn:Ei.
    + apply Nat.ltb_lt in Ei.
      set (texts := sliceList items i (i + size)).
      rewrite bind_run. unfold embedDenseBatch at 1. rewrite bind_run.
      rewrite (requireEnv_present _ _ env o w Hkey).
      unfold extCall at 1. rewrite Ho.
      destruct (IH items (i + size)%nat (output ++ map f texts)%list
                  (record w (EmbedDense texts) (index w)))
        as (w' & requests & Hrun & Hi & Ht & Hc & Hf); [lia|].
      exists w', (texts :: requests). rewrite Hrun.
      split; [|split; [|split; [|split]]].
      * f_equal. f_equal. rewrite <- app_assoc, <- map_app. f_equal. f_equal.
        apply slice_cover.
      * exact Hi.
      * rewrite Ht. cbn [record trace index map]. now rewrite <- app_assoc.
      * cbn [List.concat]. rewrite Hc. apply slice_cover.
      * constructor; [now apply slice_size | exact Hf].
    + apply Nat.ltb_ge in Ei. exists w, [].
      rewrite (skipn_all2 items) by lia. cbn [map List.concat]. rewrite !app_nil_r.
      repeat split; constructor.
Qed.

(** X21.  Batching does not lose, repeat or misalign anything.  With the
    API key set and a provider that answers each request with one
    vector per text, [batch] over [embedDenseBatch] in batches of 50
    returns the vectors of the texts, one per text and in their order;
    the requests that it sends hold each at least 1 and at most 50
    texts and, put end to end, are the texts; the index is untouched. *)
Theorem batched_embeddings_aligned (f : string -> Vector) (texts : list string) env (o : Oracle) w :
  missingValue (openAiApiKey env) = false ->
  (forall log request, o (list Vector) log (EmbedDense request) = inr (map f request)) ->
  exists w' requests,
    batch texts EMBED_BATCH_SIZE embedDenseBatch env o w = (w', inr (map f texts))
    /\ index w' = index w
    /\ trace w' = (trace w ++ map (denseRequest (index w)) requests)%list
    /\ List.concat requests = texts
    /\ Forall (fun request => (1 <= List.length request <= 50)%nat) requests.
Proof.
  intros Hkey Ho. unfold batch.
  destruct (batchLoop_dense f env o EMBED_BATCH_SIZE Hkey Ho ltac:(unfold EMBED_BATCH_SIZE; lia)
              (List.length texts) texts 0%nat [] w ltac:(lia))
    as (w' & requests & Hrun & Hi & Ht & Hc & Hf).
  exists w', requests. cbn [skipn app] in Hrun, Hc. auto.
Qed.

Lemma batched_embeddings_aligned_witness :
  exists w' requests,
    batch (repeat "text"%string 120) EMBED_BATCH_SIZE embedDenseBatch Samples.env
      (Samples.oracle (Samples.idle false) []) Samples.start
    = (w', inr (repeat [1] 120))
    /\ List.concat requests = repeat "text"%string 120
    /\ Forall (fun request => (1 <= List.length request <= 50)%nat) requests.
Proof.
  destruct (batched_embeddings_aligned (fun _ => [1]) (repeat "text"%string 120) Samples.env
              (Samples.oracle (Samples.idle false) []) Samples.start eq_refl
              (fun _ _ => eq_refl))
    as (w' & requests & Hrun & _ & _ & Hc & Hf).
  exists w', requests. split; [exact Hrun|]. now split.
Defined.

End HybridExtras.

(** ** The service *)

Module ServiceExtras.
Import JsString Effects Hybrid Registry Service RunVocabulary ExtraVocabulary.
Import MonadFacts StringFacts ScopeFacts ExtractionExtras RegistryExtras.
Local Open Scope Z_scope.

Lemma lastSegment_plain (ext cur : string) :
  noDot ext = true -> lastSegment ext cur = cur ++ ext.
Proof.
  revert cur. induction ext as [|c r IH]; intros cur H; simpl.
  - clear H. induction cur as [|d cur IHc]; simpl; [reflexivity | now rewrite <- IHc].
  - simpl in H. apply andb_true_iff in H as [Hc Hr]. apply negb_true_iff in Hc.
    rewrite Hc, (IH _ Hr), ChunkingExtras.append_assoc. reflexivity.
Qed.

Lemma lastSegment_dotted (name ext cur : string) :
  noDot ext = true -> lastSegment (name ++ String "." ext) cur = ext.
Proof.
  intros H. revert cur. induction name as [|c name IH]; intros cur; simpl.
  - now rewrite (lastSegment_plain ext EmptyString H).
  - destruct (Ascii.eqb c "."); apply IH.
Qed.

(** X22.  The type of an upload is read from what follows the last dot
    of the file name, whatever its letter case and whatever precedes it
    (other dots included).  When that, in lower case, is not [pdf],
    [docx] or [txt], [uploadDocument] fails with status 400 before
    anything leaves the process: no id is drawn, nothing is parsed,
    embedded or written. *)
Theorem unsupported_type_rejected (file : File) (name ext : string) tenantId env o w :
  file_name file = name ++ String "." ext ->
  noDot ext = true ->
  existsb (String.eqb (toLowerCase ext)) SUPPORTED_FILE_TYPES = false ->
  getExtension (file_name file) = toLowerCase ext
  /\ uploadDocument file tenantId env o w = (w, inl (unsupportedType (toLowerCase ext))).
Proof.
  intros Hname Hext Hbad.
  assert (E : getExtension (file_name file) = toLowerCase ext).
  { unfold getExtension. now rewrite Hname, lastSegment_dotted. }
  split; [exact E|]. unfold uploadDocument.
  assert (Hne : String.eqb (file_name file) "" = false).
  { rewrite Hname. destruct name; reflexivity. }
  rewrite Hne, bind_run. unfold ret at 1. cbv beta iota. rewrite E, Hbad. reflexivity.
Qed.

Lemma unsupported_type_rejected_witness :
  uploadDocument {| file_name := "rates.2024.XLSX"; file_text := "Rate: 1200 USD" |} None
    Samples.env (Samples.oracle (Samples.idle false) []) Samples.start
  = (Samples.start,
     inl (DocIntelligenceError
            "Unsupported file type 'xlsx'. Supported: pdf, docx, txt." 400)).
Proof.
  apply (proj2 (unsupported_type_rejected
                  {| file_name := "rates.2024.XLSX"; file_text := "Rate: 1200 USD" |}
                  "rates.2024" "XLSX" None Samples.env
                  (Samples.oracle (Samples.idle false) []) Samples.start
                  eq_refl eq_refl eq_refl)).
Defined.

Lemma unique_spec (ids seen : list string) :
  NoDup (unique ids seen)
  /\ forall d, In d (unique ids seen) <-> In d ids /\ ~ In d seen.
Proof.
  revert seen. induction ids as [|x ids IH]; intros seen; simpl.
  - split; [constructor|]. intros d. tauto.
  - destruct (existsb (String.eqb x) seen) eqn:E.
    + destruct (IH seen) as [Hnd Hmem]. split; [exact Hnd|]. intros d.
      rewrite Hmem. split; [tauto|]. intros [[->|Hin] Hseen]; [|tauto].
      exfalso. apply Hseen. apply existsb_exists in E as (y & Hy & Heq).
      apply String.eqb_eq in Heq. now subst y.
    + destruct (IH (x :: seen)) as [Hnd Hmem]. split.
      * constructor; [|exact Hnd]. rewrite Hmem. intros [_ Hnot]. apply Hnot. now left.
      * intros d. simpl. rewrite Hmem. simpl. split.
        -- intros [->|[Hin Hnot]].
           ++ split; [now left|]. intros Hseen.
              assert (Hex : existsb (String.eqb d) seen = true).
              { apply existsb_exists. exists d. split; [exact Hseen | apply String.eqb_refl]. }
              congruence.
           ++ split; [now right|]. tauto.
        -- intros [[->|Hin] Hseen]; [now left|].
           destruct (string_dec x d) as [->|Hne]; [now left|]. right. tauto.
Qed.

(** A lookup that finds an entry found it in the registry. *)
Lemma found_is_registered (d : string) env o w w' item :
  getRegistryItem d env o w = (w', inr (Some item)) -> registered env (index w) d.
Proof.
  intros H. unfold getRegistryItem in H.
  apply bind_inr in H as (w0 & [] & Hindex & H).
  apply requireEnv_world in Hindex. subst w0.
  apply bind_inr in H as (w0 & env' & Henv & H).
  rewrite getEnv_run in Henv. injection Henv as <- <-.
  apply bind_inr in H as (w1 & fetched & Hfetch & H).
  apply indexFetch_inr in Hfetch as [_ ->].
  destruct (find _ _) as [r|] eqn:Efind.
  - apply find_some in Efind as [Hin Hid]. apply String.eqb_eq in Hid.
    apply in_map_iff in Hin as ([ns r'] & Hr & Hin). simpl in Hr. subst r'.
    apply filter_In in Hin as [Hin Hslot]. simpl in Hslot.
    apply andb_true_iff in Hslot as [Hns _]. apply String.eqb_eq in Hns. subst ns.
    exists r. now split.
  - cbn [option_map toRegistryItem] in H. apply ret_inr in H as [_ [=]].
Qed.

Lemma lookups_registered (ids : list string) env o w w' items :
  forEachM getRegistryItem ids env o w = (w', inr items) ->
  filter (fun p => isNull (snd p)) (combine ids items) = [] ->
  Forall (registered env (index w)) ids.
Proof.
  revert w w' items. induction ids as [|x ids IH]; intros w w' items H Hnone; [constructor|].
  simpl in H.
  apply bind_inr in H as (w1 & found & Hx & H).
  apply bind_inr in H as (w2 & rest & Hrest & H).
  apply ret_inr in H as [_ ->]. cbn [combine filter snd] in Hnone.
  destruct found as [item|]; [|discriminate]. cbn [isNull] in Hnone.
  constructor; [now apply (found_is_registered x env o w w1 item)|].
  destruct (quiet_getRegistryItem x _ _ _ _ _ Hx) as [Hi _]. rewrite <- Hi.
  now apply (IH w1 w2 rest).
Qed.

(** X23.  The documents that [resolveAskContext] hands to the workflow
    are never empty ids, contain no id twice and all have their entry
    in the registry.  When the request names documents, they are
    exactly the named ones, trimmed, each once. *)
Theorem asked_documents_exist documentId documentIds env o w w' context :
  resolveAskContext documentId documentIds env o w = (w', inr context) ->
  NoDup (ask_documentIds context)
  /\ Forall (fun d => d <> EmptyString /\ registered env (index w) d) (ask_documentIds context)
  /\ (forall ids, documentIds = Some ids -> namedIds ids <> [] ->
      forall d, In d (ask_documentIds context) <-> In d (namedIds ids)).
Proof.
  unfold resolveAskContext.
  set (rawIds := filter Chunking.nonEmpty _).
  destruct (0 <? List.length rawIds)%nat eqn:Epos.
  - intros H. apply bind_inr in H as (w1 & items & Hitems & H). unfold throw in H.
    destruct (0 <? List.length (map fst _))%nat eqn:Emissing; [discriminate|].
    destruct (filterMap _ items) as [|first rest]; [discriminate|].
    destruct (negb _); [discriminate|].
    apply ret_inr in H as [_ ->]. cbn [ask_documentIds].
    destruct (unique_spec rawIds []) as [Hnd Hmem].
    split; [exact Hnd|]. split.
    + assert (Hnone : filter (fun p => isNull (snd p)) (combine (unique rawIds []) items) = []).
      { apply Nat.ltb_ge in Emissing. rewrite length_map in Emissing.
        apply length_zero_iff_nil. lia. }
      pose proof (lookups_registered _ env o w w1 items Hitems Hnone) as Hreg.
      rewrite Forall_forall in *. intros d Hd. split; [|now apply Hreg].
      apply Hmem in Hd as [Hd _]. subst rawIds. apply filter_In in Hd as [_ Hd].
      intros ->. discriminate.
    + intros ids -> _ d. unfold namedIds. fold rawIds. rewrite Hmem. tauto.
  - intros H. apply bind_inr in H as (w1 & single & Hsingle & H).
    apply ret_inr in H as [_ ->]. cbn [ask_documentIds].
    split; [constructor; [intros [] | constructor]|]. split.
    + constructor; [|constructor].
      unfold resolveDocumentContext in Hsingle.
      apply bind_inr in Hsingle as (w2 & selected & Hselected & Hsingle).
      assert (Hw : index w2 = index w).
      { destruct documentId.
        - now apply ret_inr in Hselected as [-> _].
        - unfold getLatestDocumentId in Hselected.
          now apply extCall_inr in Hselected as [-> _]. }
      destruct selected as [selected|]; [|discriminate].
      destruct (String.eqb selected "") eqn:Eempty; [discriminate|].
      apply bind_inr in Hsingle as (w3 & found & Hfound & Hsingle).
      destruct found as [item|]; [|discriminate].
      apply ret_inr in Hsingle as [_ ->]. cbn [ctx_documentId].
      split; [intros ->; discriminate|].
      rewrite <- Hw. now apply (found_is_registered selected env o w2 w3 item).
    + intros ids -> Hne. exfalso. apply Hne. unfold namedIds. fold rawIds.
      destruct rawIds; [reflexivity | discriminate].
Qed.

Lemma asked_documents_exist_witness :
  exists w' context,
    resolveAskContext None (Some ["doc-1"; " doc-1 "; ""]%string) Samples.env
      (Samples.oracle (Samples.idle false) []) Samples.twoTenants = (w', inr context)
    /\ ask_documentIds context = ["doc-1"%string]
    /\ NoDup (ask_documentIds context).
Proof.
  eexists _, _. split; [vm_compute; reflexivity|]. split; [reflexivity|].
  exact (proj1 (asked_documents_exist None (Some ["doc-1"; " doc-1 "; ""]%string) Samples.env
                  (Samples.oracle (Samples.idle false) []) Samples.twoTenants _ _ eq_refl)).
Defined.

Lemma indexAndRegister_inr p env o w w' resp :
  indexAndRegister p env o w = (w', inr resp) ->
  Chunking.createChunksFromPages p <> []
  /\ resp = {| up_document_id := Chunking.documentId p;
               up_file_name := Chunking.fileName p;
               up_chunk_count := Z.of_nat (List.length (Chunking.createChunksFromPages p));
               up_namespace := buildNamespace env (Chunking.tenantId p);
               up_uploaded_at := Chunking.uploadedAt p |}
  /\ exists w1, saveRegistryItem (entryOf env p) env o w1 = (w', inr tt).
Proof.
  unfold indexAndRegister.
  destruct (List.length (Chunking.createChunksFromPages p) =? 0)%nat eqn:E; [discriminate|].
  intros H. split; [intros E'; rewrite E' in E; discriminate|].
  apply bind_inr in H as (w0 & env' & Henv & H).
  rewrite getEnv_run in Henv. injection Henv as <- <-.
  apply bind_inr in H as (w1 & [] & _ & H).
  apply bind_inr in H as (w2 & [] & Hsave & H).
  apply ret_inr in H as [-> ->]. split; [reflexivity|]. now exists w1.
Qed.

(** X24.  An upload reports what it has registered.  When
    [uploadDocument] returns, its response holds the id that was drawn
    for the document, the file name, the time of the upload, the
    namespace of the tenant and the number of chunks, which is at least
    one; and the last call of the run is the write, to the registry
    namespace, of one record: the record of the entry that the response
    describes for the tenant.  [toRegistryItem] reads the metadata of
    that record as that entry with its texts trimmed, when none of them
    is blank.  Nothing is said of when a later lookup is shown the
    record. *)
Theorem upload_reports_its_registry_record file tenantId env o w w0 p w1 resp :
  uploadInputs file tenantId env o w = (w0, inr p) ->
  uploadDocument file tenantId env o w = (w1, inr resp) ->
  up_document_id resp = Chunking.documentId p
  /\ up_file_name resp = Chunking.fileName p
  /\ up_uploaded_at resp = Chunking.uploadedAt p
  /\ up_namespace resp = buildNamespace env (Chunking.tenantId p)
  /\ up_chunk_count resp = Z.of_nat (List.length (Chunking.createChunksFromPages p))
  /\ 1 <= up_chunk_count resp
  /\ exists log embedding,
       trace w1
       = (log ++ [event (index w1)
                    (IndexUpsert (getRegistryNamespace env)
                       [registryRecord (reportedEntry resp (Chunking.tenantId p))
                          embedding])])%list
       /\ (complete (reportedEntry resp (Chunking.tenantId p)) = true ->
           toRegistryItem
             (Some (record_metadata
                      (registryRecord (reportedEntry resp (Chunking.tenantId p)) embedding)))
           = Some (trimmed (reportedEntry resp (Chunking.tenantId p)))).
Proof.
  intros Hinputs Hupload.
  rewrite UploadFacts.uploadDocument_split, Hinputs in Hupload.
  apply indexAndRegister_inr in Hupload as (Hchunks & -> & wa & Hsave).
  cbn [up_document_id up_file_name up_uploaded_at up_chunk_count up_namespace].
  repeat (split; [reflexivity|]). split.
  { destruct (Chunking.createChunksFromPages p); [contradiction | simpl; lia]. }
  destruct (RegistryExtras.saveRegistryItem_inr _ env o wa w1 tt Hsave)
    as (embeddings & _ & Htrace).
  exists (trace wa ++ [event (index wa) (EmbedDense [registryEmbeddingInput (entryOf env p)])])%list,
         (nth_error embeddings 0).
  split.
  - rewrite Htrace, <- app_assoc. reflexivity.
  - intros Hcomplete. exact (RegistryExtras.toRegistryItem_complete (entryOf env p) Hcomplete).
Qed.

Lemma upload_reports_its_registry_record_witness :
  exists w1 resp,
    uploadDocument {| file_name := "rate.txt"; file_text := "Rate: 1200 USD" |}
      (Some " acme "%string) Samples.env (Samples.oracle (Samples.idle false) [])
      Samples.start = (w1, inr resp)
    /\ up_document_id resp = "doc-1"%string
    /\ up_namespace resp = "tenant-demo:acme"%string
    /\ 1 <= up_chunk_count resp.
Proof.
  eexists _, _. split; [vm_compute; reflexivity|].
  destruct (upload_reports_its_registry_record
              {| file_name := "rate.txt"; file_text := "Rate: 1200 USD" |}
              (Some " acme "%string)
              Samples.env (Samples.oracle (Samples.idle false) []) Samples.start
              _ _ _ _ eq_refl eq_refl) as (Hid & _ & _ & Hns & _ & Hcount & _).
  split; [exact Hid|]. split; [exact Hns | exact Hcount].
Defined.

Lemma buildContext_shows (sources : list SourceSnippet) :
  Forall2 shows (Workflow.buildContext sources) (firstn 6 sources).
Proof.
  unfold Workflow.buildContext. induction (firstn 6 sources) as [|source rest IH];
    [constructor|].
  cbn [map]. constructor; [|exact IH]. unfold shows.
  cbn [ctx_chunk_id ctx_score ctx_page ctx_text].
  split; [reflexivity|]. split; [reflexivity|]. split; [reflexivity|].
  pose proof (ChunkingExtras.slice_prefix_len (snippet_text source) 900 ltac:(lia)) as Hlen.
  destruct (900 <? len (snippet_text source)) eqn:E.
  - apply Z.ltb_lt in E. split; [|split].
    + rewrite len_append, Hlen. change (len "...") with 3. lia.
    + intros Hshort. lia.
    + intros _. destruct (slice_prefix (snippet_text source) 900 ltac:(lia)) as [tail Htail].
      exists tail. now split.
  - apply Z.ltb_ge in E. split; [lia|]. split; [reflexivity|]. intros Hlong. lia.
Qed.

(** X25.  What the retrieval tool shows to the controller is bounded:
    [buildContext] gives one block for each of the first six sources, in
    their order, with the id, score and page of the source; the text of
    a block is the text of the source when that has at most 900
    characters, and otherwise its first 900 characters followed by
    ["..."], so never more than 903 characters. *)
Theorem context_is_bounded (sources : list SourceSnippet) :
  (List.length (Workflow.buildContext sources) <= 6)%nat
  /\ Forall2 shows (Workflow.buildContext sources) (firstn 6 sources).
Proof.
  split; [|apply buildContext_shows].
  unfold Workflow.buildContext. rewrite length_map, length_firstn. lia.
Qed.

(** X26.  The ids of the registry go back and forth: [fromRegistryId]
    gives back the document id from which [toRegistryId] made a registry
    id, whatever the document id (empty, or itself starting with the
    prefix), and leaves alone an id that does not start with the
    prefix. *)
Theorem registry_id_round_trip (documentId : string) :
  RegistryIds.fromRegistryId (toRegistryId documentId) = documentId
  /\ forall registryId,
       RegistryIds.startsWith registryId REGISTRY_ID_PREFIX = false ->
       RegistryIds.fromRegistryId registryId = registryId.
Proof.
  split.
  - unfold RegistryIds.fromRegistryId, RegistryIds.startsWith, toRegistryId, REGISTRY_ID_PREFIX.
    assert (Hprefix : String.prefix "docmeta#" ("docmeta#" ++ documentId) = true).
    { simpl. now destruct documentId. }
    rewrite Hprefix. unfold sliceFrom, slice, relIndex.
    assert (Hlen : len ("docmeta#" ++ documentId) = 8 + len documentId).
    { rewrite len_append. reflexivity. }
    pose proof (len_nonneg documentId) as Hd.
    rewrite Hlen. change (len "docmeta#") with 8.
    assert (E1 : (8 <? 0) = false) by reflexivity.
    assert (E2 : (8 + len documentId <? 0) = false) by (apply Z.ltb_ge; lia).
    rewrite E1, E2.
    replace (Z.min 8 (8 + len documentId)) with 8 by lia.
    replace (Z.min (8 + len documentId) (8 + len documentId)) with (8 + len documentId) by lia.
    replace (Z.max 0 (8 + len documentId - 8)) with (len documentId) by lia.
    unfold len. rewrite Nat2Z.id. change (Z.to_nat 8) with 8%nat.
    cbn [append substring]. apply substring_all.
  - intros registryId H. unfold RegistryIds.fromRegistryId. now rewrite H.
Qed.

End ServiceExtras.

(** ** The answer of the parser *)

Module ParsingExtras.
Import JsString Effects Chunking Parsing ExtractionVocabulary ExtraVocabulary.
Import StringFacts ExtractionFacts ChunkingExtras.

Lemma trimmed_visible (s : string) : trimmedNonEmpty s -> allWhiteSpace s = false.
Proof.
  intros (a & b & Hfirst & Ha & _). destruct s as [|c r]; [discriminate|].
  injection Hfirst as ->. simpl. now rewrite Ha.
Qed.

Lemma toPageText_usable maybePages : Forall usablePage (toPageText maybePages).
Proof.
  destruct maybePages as [pages|]; [|constructor]. apply Forall_forall. intros page Hin.
  apply HybridExtras.filterMap_in in Hin as ([raw|] & _ & Hraw); cbv beta zeta in Hraw;
    [|discriminate].
  destruct (orElse (text_page_number raw) 0 <=? 0) eqn:Enum; [discriminate|].
  destruct (len (trim (orElse (text_page_text raw) "")) =? 0) eqn:Elen; [discriminate|].
  injection Hraw as <-. split; cbn [pageNumber text].
  - now apply Z.leb_gt in Enum.
  - apply trim_trimmed. intros E. rewrite E in Elen. discriminate.
Qed.

Lemma concat_visible (l : list string) :
  Forall (fun s => allWhiteSpace s = false) l -> emptyOrVisible (String.concat sep l).
Proof.
  intros H. destruct H as [|x l Hx Hl]; [now left|]. right.
  destruct l as [|y l']; [exact Hx|].
  change (String.concat sep (x :: y :: l')) with (x ++ sep ++ String.concat sep (y :: l')).
  rewrite blank_app, Hx. reflexivity.
Qed.

Lemma usable_visible (value : option string) :
  match value with Some s => 0 <? len (trim s) | None => false end = true ->
  allWhiteSpace (orElse value "") = false.
Proof.
  destruct value as [s|]; [|discriminate]. intros H. cbn [orElse].
  destruct (allWhiteSpace s) eqn:E; [|reflexivity].
  apply trim_blank in E. rewrite E in H. discriminate.
Qed.

Lemma toMarkdown_visible maybePages : emptyOrVisible (toMarkdown maybePages).
Proof.
  destruct maybePages as [pages|]; [|now left]. apply concat_visible.
  apply Forall_forall. intros s Hin. apply filter_In in Hin as [Hin Hne].
  apply in_map_iff in Hin as ([page|] & <- & _); [|discriminate].
  destruct (negb _); [discriminate|].
  apply trimmed_visible, trim_trimmed. intros E. rewrite E in Hne. discriminate.
Qed.

Lemma markdownFull_visible (parsed : ParseResult) documentId tenantId fileName uploadedAt :
  emptyOrVisible (markdownFull (toPayload parsed documentId tenantId fileName uploadedAt)).
Proof.
  unfold toPayload. cbn [markdownFull].
  destruct (markdown_full parsed) as [s|] eqn:E; [|apply toMarkdown_visible].
  destruct (0 <? len (trim s)) eqn:Epos; [|apply toMarkdown_visible].
  right. now apply (usable_visible (Some s)).
Qed.

Lemma textFull_visible (parsed : ParseResult) documentId tenantId fileName uploadedAt :
  toPageText (text_pages parsed) = [] ->
  emptyOrVisible (textFull (toPayload parsed documentId tenantId fileName uploadedAt)).
Proof.
  intros Hpages. unfold toPayload. cbn [textFull]. rewrite Hpages.
  destruct (text_full parsed) as [s|] eqn:E; [|now left].
  destruct (0 <? len (trim s)) eqn:Epos; [|now left].
  right. now apply (usable_visible (Some s)).
Qed.

Lemma uploadPages_visible (parsed : ParseResult) documentId tenantId fileName uploadedAt :
  Exists (fun page => allWhiteSpace (text page) = false)
         (uploadPages (toPayload parsed documentId tenantId fileName uploadedAt)).
Proof.
  pose proof (markdownFull_visible parsed documentId tenantId fileName uploadedAt) as Hmarkdown.
  pose proof (textFull_visible parsed documentId tenantId fileName uploadedAt) as Hfull.
  pose proof (toPageText_usable (text_pages parsed)) as Husable.
  unfold uploadPages.
  assert (Hpages : parsed_pageTexts (toPayload parsed documentId tenantId fileName uploadedAt)
                   = toPageText (text_pages parsed)) by reflexivity.
  rewrite Hpages.
  set (payload := toPayload parsed documentId tenantId fileName uploadedAt) in *.
  destruct (toPageText (text_pages parsed)) as [|page pages].
  - cbn [List.length Nat.ltb Nat.leb]. apply Exists_cons_hd. cbn [text].
    specialize (Hfull eq_refl).
    destruct Hmarkdown as [->|Hm].
    + cbn [String.eqb]. destruct Hfull as [->|Hf]; [reflexivity|].
      destruct (String.eqb (textFull payload) "") eqn:E; [reflexivity | exact Hf].
    + assert (E : String.eqb (markdownFull payload) "" = false).
      { destruct (markdownFull payload); [discriminate | reflexivity]. }
      now rewrite E, E.
  - cbn [List.length Nat.ltb Nat.leb]. apply Exists_cons_hd.
    inversion Husable as [|? ? [_ Hpage] _]; subst. now apply trimmed_visible.
Qed.

(** X27.  What [parseDocumentWithLlamaCloud] makes of the answer of the
    parser can always be chunked.  Its pages all have a positive number
    and a text that is not empty and has no white space at either end;
    and the pages that [uploadDocument] takes from it (these pages, or
    without any the full markdown, else the full text, else the words
    "(empty document)") never give an empty list of chunks: for a file
    that goes through the parser, the error 422 for a document without
    usable text cannot occur. *)
Theorem parsed_document_always_chunked (parsed : ParseResult)
    (documentId tenantId fileName uploadedAt : string) :
  let payload := toPayload parsed documentId tenantId fileName uploadedAt in
  Forall usablePage (parsed_pageTexts payload)
  /\ createChunksFromPages
       {| Chunking.documentId := documentId;
          Chunking.tenantId := tenantId;
          Chunking.fileName := fileName;
          Chunking.uploadedAt := uploadedAt;
          pageTexts := uploadPages payload;
          targetChars := None;
          overlapChars := None |} <> [].
Proof.
  cbv zeta. split; [apply toPageText_usable|].
  intros E. apply empty_iff_blank in E. cbn [pageTexts] in E.
  pose proof (uploadPages_visible parsed documentId tenantId fileName uploadedAt) as Hex.
  apply Exists_exists in Hex as (page & Hin & Hvisible).
  rewrite Forall_forall in E. specialize (E page Hin). congruence.
Qed.

End ParsingExtras.

(** ** Reading a document back *)

Module ReadBackExtras.
Import JsString JsNumber Chunking Pool DocumentChunks ExtraVocabulary.
Import NumberFacts PoolFacts ChunkingExtras.

Lemma byChunkNumber_pos x y :
  ltb 0 (byChunkNumber x y) = true <-> chunk_number (metadata y) < chunk_number (metadata x).
Proof.
  unfold byChunkNumber. rewrite ltb_lt, Zlt_Qlt. symmetry. apply Qlt_minus_iff.
Qed.

Lemma sortInsert_ascending x l :
  StronglySorted ascending l -> StronglySorted ascending (sortInsert byChunkNumber x l).
Proof.
  induction 1 as [|y r Hr IH Hy]; simpl.
  - constructor; constructor.
  - destruct (ltb 0 (byChunkNumber x y)) eqn:E.
    + apply byChunkNumber_pos in E. constructor; [exact IH|].
      apply (Permutation_Forall (Permutation_sym (sortInsert_perm byChunkNumber x r))).
      constructor; [unfold ascending; lia | exact Hy].
    + assert (Hxy : chunk_number (metadata x) <= chunk_number (metadata y)).
      { apply Z.nlt_ge. intro H. apply byChunkNumber_pos in H. congruence. }
      constructor; [now constructor|].
      constructor; [exact Hxy|].
      eapply Forall_impl; [|exact Hy]. intros z Hz. unfold ascending in *. lia.
Qed.

Lemma sort_ascending l : StronglySorted ascending (sort byChunkNumber l).
Proof.
  unfold sort. induction l as [|x l IH]; simpl; [constructor | now apply sortInsert_ascending].
Qed.

(** A list in increasing order is the only ascending arrangement of its
    elements. *)
Lemma ascending_unique (t : list SourceSnippet) :
  StronglySorted increasing t ->
  forall l, Permutation l t -> StronglySorted ascending l -> l = t.
Proof.
  induction 1 as [|x t Ht IH Hx]; intros l Hperm Hl.
  - now apply Permutation_sym, Permutation_nil in Hperm.
  - destruct l as [|y l].
    { apply Permutation_nil in Hperm. discriminate. }
    assert (Hy : In y (x :: t)) by (apply (Permutation_in _ Hperm); now left).
    assert (Hx' : In x (y :: l)).
    { apply (Permutation_in _ (Permutation_sym Hperm)). now left. }
    inversion Hl as [|? ? Hl' Hyl]; subst.
    rewrite Forall_forall in Hx, Hyl.
    assert (y = x) as ->.
    { destruct Hy as [<-|Hy]; [reflexivity|].
      destruct Hx' as [->|Hx']; [reflexivity|].
      specialize (Hx y Hy). specialize (Hyl x Hx').
      unfold increasing, ascending in *. lia. }
    f_equal. apply IH; [|exact Hl']. now apply Permutation_cons_inv in Hperm.
Qed.

Lemma collectRecords_app l1 l2 :
  collectRecords (l1 ++ l2)%list = (collectRecords l1 ++ collectRecords l2)%list.
Proof.
  unfold collectRecords. induction l1 as [|[i [m|]] l1 IH]; simpl; [reflexivity| |exact IH].
  now rewrite IH.
Qed.

Lemma collectRecords_concat responses :
  List.concat (map collectRecords responses) = collectRecords (List.concat responses).
Proof.
  induction responses as [|r responses IH]; [reflexivity|].
  simpl. now rewrite collectRecords_app, IH.
Qed.

Lemma collectRecords_perm l1 l2 :
  Permutation l1 l2 -> Permutation (collectRecords l1) (collectRecords l2).
Proof.
  unfold collectRecords. induction 1 as [|x l1 l2 _ IH|x y l|l1 l2 l3 _ IH1 _ IH2].
  - constructor.
  - destruct x as [i [m|]]; simpl; [now constructor | exact IH].
  - destruct x as [i [m|]], y as [j [n|]]; simpl; try reflexivity. apply perm_swap.
  - eapply Permutation_trans; eassumption.
Qed.

Lemma collectRecords_listed chunks : collectRecords (map listed chunks) = map snippetOf chunks.
Proof.
  unfold collectRecords. induction chunks as [|c chunks IH]; [reflexivity|].
  simpl. now rewrite IH.
Qed.

Lemma seq_increasing (a n : nat) :
  StronglySorted Z.lt (map Z.of_nat (seq a n)).
Proof.
  revert a. induction n as [|n IH]; intros a; simpl; constructor; [apply IH|].
  apply Forall_forall. intros z Hz. apply in_map_iff in Hz as (k & <- & Hk).
  apply in_seq in Hk. lia.
Qed.

Lemma sorted_by_key {A} (key : A -> Z) (l : list A) :
  StronglySorted Z.lt (map key l) -> StronglySorted (fun a b => key a < key b) l.
Proof.
  induction l as [|a l IH]; intros H; [constructor|].
  simpl in H. inversion H as [|? ? Hl Ha]; subst. constructor; [now apply IH|].
  rewrite Forall_forall in *. intros b Hb. apply Ha. now apply in_map.
Qed.

Lemma chunks_increasing (p : ChunkParams) :
  StronglySorted increasing (map snippetOf (createChunksFromPages p)).
Proof.
  destruct (chunks_of_pages p) as [_ Hnum].
  pose proof (seq_increasing 1 (List.length (createChunksFromPages p))) as Hs.
  rewrite <- Hnum in Hs. apply sorted_by_key in Hs. clear Hnum.
  induction Hs as [|c l _ IH Hc]; [constructor|].
  simpl. constructor; [exact IH|].
  rewrite Forall_forall in *. intros s Hs'. apply in_map_iff in Hs' as (c' & <- & Hc').
  exact (Hc c' Hc').
Qed.

Lemma chunk_text_is_body (p : ChunkParams) (r : ChunkRecord) :
  In r (createChunksFromPages p) -> chunk_text (chunk_metadata r) = chunk_body r.
Proof.
  intros Hin. apply pagesLoop_provenance in Hin as (page & k & _ & _ & _ & H & _). exact H.
Qed.

(** X28.  Extraction reads a document in document order.  When the
    records that the store lists for a document are the records of the
    chunks of an upload, in any order and split over any number of
    responses, [fetchDocumentChunks] returns the chunks in the order of
    [createChunksFromPages], so that the text handed to the extraction
    is the texts of the chunks in document order, joined by blank lines
    and trimmed. *)
Theorem chunks_read_back_in_order (p : ChunkParams)
    (responses : list (list (string * option DocumentMetadata))) :
  Permutation (List.concat responses) (map listed (createChunksFromPages p)) ->
  map id (fetchDocumentChunks responses) = map chunk_id (createChunksFromPages p)
  /\ map snippet_text (fetchDocumentChunks responses)
     = map chunk_body (createChunksFromPages p)
  /\ sourceText (fetchDocumentChunks responses)
     = trim (String.concat sep (map chunk_body (createChunksFromPages p))).
Proof.
  intros Hperm.
  assert (Hsorted : fetchDocumentChunks responses = map snippetOf (createChunksFromPages p)).
  { unfold fetchDocumentChunks. rewrite collectRecords_concat.
    apply ascending_unique; [apply chunks_increasing| |apply sort_ascending].
    eapply Permutation_trans; [apply sort_perm|].
    rewrite <- collectRecords_listed. now apply collectRecords_perm. }
  assert (Htexts : map snippet_text (map snippetOf (createChunksFromPages p))
                   = map chunk_body (createChunksFromPages p)).
  { rewrite map_map. apply map_ext_in. intros r Hr. cbn [snippetOf snippet_text].
    now apply (chunk_text_is_body p). }
  unfold sourceText. rewrite Hsorted, Htexts, map_map. auto.
Qed.

Lemma chunks_read_back_in_order_witness :
  map id (fetchDocumentChunks
            [[listed ExtraSamples.secondChunk];
             [("doc-1#p1c1"%string,
               Some {| document_id := "doc-1"; tenant_id := "tenant-demo";
                       document_title := "rate.txt"; source_file_name := "rate.txt";
                       uploaded_at := "2024-01-01T00:00:00.000Z";
                       page_number := 1; chunk_number := 1;
                       chunk_text := "Shipper: ACME" |})]])
  = ["doc-1#p1c1"; "doc-1#p2c1"]%string.
Proof.
  apply (proj1 (chunks_read_back_in_order ExtraSamples.twoPages
                  [[listed ExtraSamples.secondChunk];
                   [("doc-1#p1c1"%string,
                     Some {| document_id := "doc-1"; tenant_id := "tenant-demo";
                             document_title := "rate.txt"; source_file_name := "rate.txt";
                             uploaded_at := "2024-01-01T00:00:00.000Z";
                             page_number := 1; chunk_number := 1;
                             chunk_text := "Shipper: ACME" |})]]
                  ltac:(vm_compute; apply perm_swap))).
Defined.

End ReadBackExtras.
